(** * A forwarding DNS server: the wire codec, the timed cache and the router

    A shallow embedding of [cdns.py]: the name codec
    ([encode_name_uncompressed], [decode_name]), the message codec
    ([DNSHeader], [DNSQuestion], [DNSAnswer], [pack_all_uncompressed],
    [pack_all_compressed], [unpack_all]), the [TimedCache],
    [ServerManager.handle_dns_query] and the loop of [ServerManager.start],
    followed by what is proved of them.

    Conventions of the embedding.
    - [bytes] is [list byte]; a Python [int] is a [Z]; an index into a
      buffer is a [nat] (the code only ever indexes with 12, with a masked
      pointer, or with a sum of such and lengths).
    - A [str] is a [string]; its characters are 8-bit codes, those of code
      128 and above being the non-ASCII ones.
    - A Python exception is a constructor of [exn]; a function that can
      raise returns a [result]. Code that also reads or writes the cache
      runs in the monad [M], over the cache's dictionary and the clock.
    - [time.time()] is an oracle [clock : nat → Q]: the n-th call returns
      [clock n]. [fnmatch], [inet_aton] and the upstream resolver are
      parameters of [handle_dns_query]; so is the number of stack frames
      that Python leaves to the recursion of [decode_name]. *)

From Stdlib Require Import ZArith QArith Lqa String Ascii List Lia.
From Stdlib.Strings Require Import Byte.
From stdpp Require Import base option list gmap strings.

Local Open Scope string_scope.
Local Open Scope list_scope.
Local Open Scope Z_scope.

(** ** Exceptions and results *)

Inductive exn : Set :=
  | IndexError          (* bytes index out of range *)
  | StructError         (* struct.error: wrong size to unpack, value out of range to pack *)
  | UnicodeDecodeError  (* bytes.decode("ascii") on a byte >= 0x80 *)
  | UnicodeEncodeError  (* str.encode("ascii") on a character >= 0x80 *)
  | ValueError          (* bytes([n]) with n > 255; too many values to unpack *)
  | RecursionError      (* maximum recursion depth exceeded *)
  | LoopDetected        (* Exception("Unable to decode domain: loop detected") *)
  | AttributeError      (* attribute access on None *)
  | OSError.            (* socket errors *)

Inductive result (A : Type) : Type :=
  | Ok (a : A)
  | Raise (e : exn).
Arguments Ok {A} a.
Arguments Raise {A} e.

(** Exceptions propagate: the monad of [result]. *)
#[export] Instance result_ret : MRet result := λ A a, Ok a.
#[export] Instance result_bind : MBind result := λ A B k r,
  match r with
  | Ok a => k a
  | Raise e => Raise e
  end.

(** ** Bytes *)

Abbreviation bytes := (list byte).

Definition byte_val (b : byte) : Z := Z.of_N (Byte.to_N b).
Definition byte_nat (b : byte) : nat := N.to_nat (Byte.to_N b).

(** The byte of value [z mod 256]. *)
Definition byte_of_Z (z : Z) : byte :=
  default x00 (Byte.of_N (Z.to_N (z mod 256))).

(** [buf[i:j]]: a slice is cut to the buffer, it never raises. *)
Definition slice (buf : bytes) (i j : nat) : bytes := take (j - i) (drop i buf).

(** [bytes([n])]: raises ValueError unless [0 <= n < 256]. *)
Definition bytes_of_len (n : nat) : result bytes :=
  match Byte.of_N (N.of_nat n) with
  | Some b => Ok [b]
  | None => Raise ValueError
  end.

(** ** Strings *)

Definition is_ascii_byte (b : byte) : bool := (Byte.to_N b <? 128)%N.
Definition is_ascii_char (c : ascii) : bool := is_ascii_byte (byte_of_ascii c).

Definition is_ascii_str (s : string) : bool :=
  forallb is_ascii_char (list_ascii_of_string s).

(** [s.encode("ascii")] *)
Definition str_encode_ascii (s : string) : result bytes :=
  if is_ascii_str s then Ok (list_byte_of_string s) else Raise UnicodeEncodeError.

(** [bs.decode("ascii")] *)
Definition bytes_decode_ascii (bs : bytes) : result string :=
  if forallb is_ascii_byte bs then Ok (string_of_list_byte bs)
  else Raise UnicodeDecodeError.

(** [s.split(".")]: never empty, [""] gives [[""]]. *)
Fixpoint split_dot (s : string) : list string :=
  match s with
  | EmptyString => [EmptyString]
  | String c s' =>
      if Ascii.eqb c "."%char then EmptyString :: split_dot s'
      else match split_dot s' with
           | l :: ls => String c l :: ls
           | [] => [String c EmptyString]
           end
  end.

(** [".".join(labels)] *)
Fixpoint join_dot (labels : list string) : string :=
  match labels with
  | [] => EmptyString
  | [l] => l
  | l :: ls => l ++ "." ++ join_dot ls
  end.

(** ** NameCodec: encoding *)

(** One element of the list comprehension of [encode_name_uncompressed]:
    [bytes([len(label)]) + label.encode("ascii")]. *)
Definition encode_label (label : string) : result bytes :=
  n ← bytes_of_len (String.length label);
  b ← str_encode_ascii label;
  Ok (n ++ b).

Fixpoint encode_labels (labels : list string) : result (list bytes) :=
  match labels with
  | [] => Ok []
  | l :: ls =>
      e ← encode_label l;
      es ← encode_labels ls;
      Ok (e :: es)
  end.

Definition encode_name_uncompressed (name : string) : result bytes :=
  let labels := split_dot name in
  encoded ← encode_labels labels;
  Ok (concat encoded ++ [x00]).

(** ** NameCodec: decoding without compression *)

(** The [while buf[idx] != 0x00] loop of [decode_name_uncompressed]. Every
    turn moves [idx] forward by at least two inside the buffer, so
    [fuel = len(buf)] turns are never used up
    ([decode_name_uncompressed_loop_fuel] below): the [O] branch is dead. *)
Fixpoint decode_name_uncompressed_loop (buf : bytes) (fuel : nat)
    (labels : list string) (idx : nat) : result string :=
  match buf !! idx with
  | None => Raise IndexError
  | Some size =>
      if decide (byte_val size ≠ 0) then
        let idx := (idx + 1)%nat in
        label ← bytes_decode_ascii (slice buf idx (idx + byte_nat size));
        match fuel with
        | O => Raise IndexError
        | S fuel' =>
            decode_name_uncompressed_loop buf fuel' (labels ++ [label])
              (idx + byte_nat size)%nat
        end
      else Ok (join_dot labels)
  end.

Definition decode_name_uncompressed (buf : bytes) : result string :=
  decode_name_uncompressed_loop buf (length buf) [] 0.

(** ** struct: big-endian fixed-width fields *)

Definition be16 (b1 b0 : byte) : Z := byte_val b1 * 256 + byte_val b0.
Definition be32 (b3 b2 b1 b0 : byte) : Z :=
  ((byte_val b3 * 256 + byte_val b2) * 256 + byte_val b1) * 256 + byte_val b0.

(** [struct.unpack("!H", bs)[0]] *)
Definition unpack_H (bs : bytes) : result Z :=
  match bs with
  | [b1; b0] => Ok (be16 b1 b0)
  | _ => Raise StructError
  end.

(** [struct.unpack("!HH", bs)] *)
Definition unpack_HH (bs : bytes) : result (Z * Z) :=
  match bs with
  | [a1; a0; b1; b0] => Ok (be16 a1 a0, be16 b1 b0)
  | _ => Raise StructError
  end.

(** [struct.unpack("!I", bs)[0]] *)
Definition unpack_I (bs : bytes) : result Z :=
  match bs with
  | [b3; b2; b1; b0] => Ok (be32 b3 b2 b1 b0)
  | _ => Raise StructError
  end.

(** [struct.unpack("!HHHHHH", bs)] *)
Definition unpack_HHHHHH (bs : bytes) : result (Z * Z * Z * Z * Z * Z) :=
  match bs with
  | [a1; a0; b1; b0; c1; c0; d1; d0; e1; e0; f1; f0] =>
      Ok (be16 a1 a0, be16 b1 b0, be16 c1 c0, be16 d1 d0, be16 e1 e0, be16 f1 f0)
  | _ => Raise StructError
  end.

(** [struct.pack("!H", v)]: struct.error unless [0 <= v <= 0xFFFF]. *)
Definition pack_H (v : Z) : result bytes :=
  if decide (0 ≤ v ≤ 65535) then Ok [byte_of_Z (v / 256); byte_of_Z v]
  else Raise StructError.

(** [struct.pack("!I", v)]: struct.error unless [0 <= v <= 0xFFFFFFFF]. *)
Definition pack_I (v : Z) : result bytes :=
  if decide (0 ≤ v ≤ 4294967295)
  then Ok [byte_of_Z (v / 16777216); byte_of_Z (v / 65536); byte_of_Z (v / 256);
           byte_of_Z v]
  else Raise StructError.

(** ** NameCodec: decoding with compression pointers *)

(** The [while True] loop of [decode_name]. [rec] is the recursive call
    [decode_name(buf, pointer)]; it starts from a fresh [visited] set, as
    the code's does. Every turn that goes round again moves [idx] forward
    by at least two inside the buffer, so [fuel = len(buf)] turns are
    never used up ([decode_name_loop_fuel] below): the [O] branch is dead. *)
Fixpoint decode_name_loop (rec : nat → result (string * nat)) (buf : bytes)
    (fuel : nat) (labels : list string) (visited : gset nat) (idx : nat)
    : result (string * nat) :=
  if decide (idx ∈ visited) then Raise LoopDetected else
  let visited := visited ∪ {[idx]} in
  match buf !! idx with
  | None => Raise IndexError
  | Some length =>
      if decide (byte_val length = 0) then
        Ok (join_dot labels, (idx + 1)%nat)
      else if decide (Z.land (byte_val length) 0xC0 = 0xC0) then
        p ← unpack_H (slice buf idx (idx + 2));
        let pointer := Z.land p 0x3FFF in
        '(domain, _) ← rec (Z.to_nat pointer);
        Ok (join_dot (labels ++ [domain]), (idx + 2)%nat)
      else
        label ← bytes_decode_ascii
                  (slice buf (idx + 1) (idx + 1 + byte_nat length));
        match fuel with
        | O => Raise IndexError
        | S fuel' =>
            decode_name_loop rec buf fuel' (labels ++ [label]) visited
              (idx + 1 + byte_nat length)%nat
        end
  end.

(** [decode_name(buf, start_idx)]. [depth] is the number of stack frames
    Python still allows: a call made with none left raises RecursionError. *)
Fixpoint decode_name (depth : nat) (buf : bytes) (start_idx : nat)
    : result (string * nat) :=
  match depth with
  | O => Raise RecursionError
  | S depth' =>
      decode_name_loop (decode_name depth' buf) buf (length buf) [] ∅ start_idx
  end.

(** ** MessageCodec: records *)

Module DNSHeader.
Record t : Set := mk {
  id : Z; qr : Z; opcode : Z; aa : Z; tc : Z; rd : Z; ra : Z; z : Z;
  rcode : Z; qdcount : Z; ancount : Z; nscount : Z; arcount : Z }.

Definition flags (self : t) : Z :=
  Z.lor (Z.shiftl (qr self) 15)
 (Z.lor (Z.shiftl (opcode self) 11)
 (Z.lor (Z.shiftl (aa self) 10)
 (Z.lor (Z.shiftl (tc self) 9)
 (Z.lor (Z.shiftl (rd self) 8)
 (Z.lor (Z.shiftl (ra self) 7)
 (Z.lor (Z.shiftl (z self) 4)
        (rcode self))))))).

Definition pack (self : t) : result bytes :=
  b0 ← pack_H (id self);
  b1 ← pack_H (flags self);
  b2 ← pack_H (qdcount self);
  b3 ← pack_H (ancount self);
  b4 ← pack_H (nscount self);
  b5 ← pack_H (arcount self);
  Ok (b0 ++ b1 ++ b2 ++ b3 ++ b4 ++ b5).

Definition from_buffer (buf : bytes) : result t :=
  '(u0, flags, u2, u3, u4, u5) ← unpack_HHHHHH (take 12 buf);
  Ok {| id := u0;
        qr := Z.land (Z.shiftr flags 15) 0x1;
        opcode := Z.land (Z.shiftr flags 11) 0xF;
        aa := Z.land (Z.shiftr flags 10) 0x1;
        tc := Z.land (Z.shiftr flags 9) 0x1;
        rd := Z.land (Z.shiftr flags 8) 0x1;
        ra := Z.land (Z.shiftr flags 7) 0x1;
        z := Z.land (Z.shiftr flags 4) 0x7;
        rcode := Z.land flags 0xF;
        qdcount := u2; ancount := u3; nscount := u4; arcount := u5 |}.

(** Assignments to fields of a header. *)
Definition with_qr (h : t) (v : Z) : t :=
  mk (id h) v (opcode h) (aa h) (tc h) (rd h) (ra h) (z h) (rcode h)
     (qdcount h) (ancount h) (nscount h) (arcount h).
Definition with_rd (h : t) (v : Z) : t :=
  mk (id h) (qr h) (opcode h) (aa h) (tc h) v (ra h) (z h) (rcode h)
     (qdcount h) (ancount h) (nscount h) (arcount h).
Definition with_ra (h : t) (v : Z) : t :=
  mk (id h) (qr h) (opcode h) (aa h) (tc h) (rd h) v (z h) (rcode h)
     (qdcount h) (ancount h) (nscount h) (arcount h).
Definition with_qdcount (h : t) (v : Z) : t :=
  mk (id h) (qr h) (opcode h) (aa h) (tc h) (rd h) (ra h) (z h) (rcode h)
     v (ancount h) (nscount h) (arcount h).
Definition with_ancount (h : t) (v : Z) : t :=
  mk (id h) (qr h) (opcode h) (aa h) (tc h) (rd h) (ra h) (z h) (rcode h)
     (qdcount h) v (nscount h) (arcount h).
End DNSHeader.

Module DNSQuestion.
Record t : Set := mk { decoded_name : string; type_ : Z; class_ : Z }.

Definition pack (self : t) (encoded_name : bytes) : result bytes :=
  t ← pack_H (type_ self);
  c ← pack_H (class_ self);
  Ok (encoded_name ++ t ++ c).
End DNSQuestion.

Module DNSAnswer.
Record t : Set := mk {
  decoded_name : string; type_ : Z; class_ : Z; ttl : Z; rdlength : Z;
  rdata : bytes }.

Definition pack (self : t) (encoded_name : bytes) : result bytes :=
  t ← pack_H (type_ self);
  c ← pack_H (class_ self);
  l ← pack_I (ttl self);
  n ← pack_H (rdlength self);
  Ok (encoded_name ++ (t ++ c ++ l ++ n) ++ rdata self).
End DNSAnswer.

(** Dataclass equality and hashing are by fields: questions are dict keys. *)
#[export] Instance DNSQuestion_eq_dec : EqDecision DNSQuestion.t.
Proof. solve_decision. Defined.

#[export] Instance DNSQuestion_countable : Countable DNSQuestion.t.
Proof.
  refine (inj_countable'
    (λ q, (DNSQuestion.decoded_name q, DNSQuestion.type_ q, DNSQuestion.class_ q))
    (λ '(n, t, c), DNSQuestion.mk n t c) _).
  by intros [].
Defined.

(** ** MessageCodec: packing *)

Fixpoint pack_questions_uncompressed (response : bytes)
    (questions : list DNSQuestion.t) : result bytes :=
  match questions with
  | [] => Ok response
  | question :: questions =>
      name ← encode_name_uncompressed (DNSQuestion.decoded_name question);
      packed ← DNSQuestion.pack question name;
      pack_questions_uncompressed (response ++ packed) questions
  end.

Fixpoint pack_answers_uncompressed (response : bytes)
    (answers : list DNSAnswer.t) : result bytes :=
  match answers with
  | [] => Ok response
  | answer :: answers =>
      name ← encode_name_uncompressed (DNSAnswer.decoded_name answer);
      packed ← DNSAnswer.pack answer name;
      pack_answers_uncompressed (response ++ packed) answers
  end.

Definition pack_all_uncompressed (header : DNSHeader.t)
    (questions : list DNSQuestion.t) (answers : list DNSAnswer.t)
    : result bytes :=
  response ← DNSHeader.pack header;
  response ← pack_questions_uncompressed response questions;
  pack_answers_uncompressed response answers.

(** The name written for one record by [pack_all_compressed]: a pointer
    to the first occurrence when the name is in [name_offset_map], the
    plain encoding otherwise, its offset then being recorded. *)
Definition compress_name (response : bytes) (name_offset_map : gmap string nat)
    (decoded_name : string) : result (bytes * gmap string nat) :=
  match name_offset_map !! decoded_name with
  | Some offset =>
      let pointer := Z.lor 0xC000 (Z.of_nat offset) in
      encoded_name ← pack_H pointer;
      Ok (encoded_name, name_offset_map)
  | None =>
      encoded_name ← encode_name_uncompressed decoded_name;
      Ok (encoded_name, <[decoded_name := length response]> name_offset_map)
  end.

Fixpoint pack_questions_compressed (response : bytes)
    (name_offset_map : gmap string nat) (questions : list DNSQuestion.t)
    : result (bytes * gmap string nat) :=
  match questions with
  | [] => Ok (response, name_offset_map)
  | question :: questions =>
      '(encoded_name, name_offset_map) ←
        compress_name response name_offset_map
          (DNSQuestion.decoded_name question);
      packed ← DNSQuestion.pack question encoded_name;
      pack_questions_compressed (response ++ packed) name_offset_map questions
  end.

Fixpoint pack_answers_compressed (response : bytes)
    (name_offset_map : gmap string nat) (answers : list DNSAnswer.t)
    : result (bytes * gmap string nat) :=
  match answers with
  | [] => Ok (response, name_offset_map)
  | answer :: answers =>
      '(encoded_name, name_offset_map) ←
        compress_name response name_offset_map
          (DNSAnswer.decoded_name answer);
      packed ← DNSAnswer.pack answer encoded_name;
      pack_answers_compressed (response ++ packed) name_offset_map answers
  end.

Definition pack_all_compressed (header : DNSHeader.t)
    (questions : list DNSQuestion.t) (answers : list DNSAnswer.t)
    : result bytes :=
  response ← DNSHeader.pack header;
  '(response, name_offset_map) ←
    pack_questions_compressed response ∅ questions;
  '(response, _) ← pack_answers_compressed response name_offset_map answers;
  Ok response.

(** ** MessageCodec: unpacking *)

(** The question loop of [unpack_all], [n] turns from [idx]. *)
Fixpoint unpack_questions (depth : nat) (buf : bytes) (n : nat) (idx : nat)
    : result (list DNSQuestion.t * nat) :=
  match n with
  | O => Ok ([], idx)
  | S n' =>
      '(decoded_name, idx) ← decode_name depth buf idx;
      '(type_, class_) ← unpack_HH (slice buf idx (idx + 4));
      let idx := (idx + 4)%nat in
      '(questions, idx) ← unpack_questions depth buf n' idx;
      Ok (DNSQuestion.mk decoded_name type_ class_ :: questions, idx)
  end.

(** The answer loop of [unpack_all], [n] turns from [idx]. *)
Fixpoint unpack_answers (depth : nat) (buf : bytes) (n : nat) (idx : nat)
    : result (list DNSAnswer.t * nat) :=
  match n with
  | O => Ok ([], idx)
  | S n' =>
      '(decoded_name, idx) ← decode_name depth buf idx;
      '(type_, class_) ← unpack_HH (slice buf idx (idx + 4));
      let idx := (idx + 4)%nat in
      ttl ← unpack_I (slice buf idx (idx + 4));
      let idx := (idx + 4)%nat in
      rdlength ← unpack_H (slice buf idx (idx + 2));
      let idx := (idx + 2)%nat in
      let rdata := slice buf idx (idx + Z.to_nat rdlength) in
      let idx := (idx + Z.to_nat rdlength)%nat in
      '(answers, idx) ← unpack_answers depth buf n' idx;
      Ok (DNSAnswer.mk decoded_name type_ class_ ttl rdlength rdata :: answers,
          idx)
  end.

(** [unpack_all(buf)]. The answer list is absent ([None]) when the
    header's ancount is 0: the code then returns a pair, not a triple. *)
Definition unpack_all (depth : nat) (buf : bytes)
    : result (DNSHeader.t * list DNSQuestion.t * option (list DNSAnswer.t)) :=
  header ← DNSHeader.from_buffer (take 12 buf);
  let idx := 12%nat in
  '(questions, idx) ←
    unpack_questions depth buf (Z.to_nat (DNSHeader.qdcount header)) idx;
  '(answers, idx) ←
    unpack_answers depth buf (Z.to_nat (DNSHeader.ancount header)) idx;
  Ok (header, questions,
      if decide (DNSHeader.ancount header = 0) then None else Some answers).

(** ** The mutable store and the clock *)

(** What a call of [handle_dns_query] reads and writes: the dictionary of
    the [TimedCache], and how often [time.time()] has been called. The
    clock is an oracle: its n-th reading is [clock n]. *)
Record store : Type := Store {
  data : gmap DNSQuestion.t (DNSAnswer.t * Q);
  reads : nat }.

(** Stateful code that can raise; what was written before an exception
    stays written. *)
Definition M (A : Type) : Type := store → result A * store.

#[export] Instance M_ret : MRet M := λ A a s, (Ok a, s).
#[export] Instance M_bind : MBind M := λ A B k m s,
  match m s with
  | (Ok a, s') => k a s'
  | (Raise e, s') => (Raise e, s')
  end.

Definition raise {A} (e : exn) : M A := λ s, (Raise e, s).
Definition lift {A} (r : result A) : M A := λ s, (r, s).

Definition read_data : M (gmap DNSQuestion.t (DNSAnswer.t * Q)) :=
  λ s, (Ok (data s), s).
Definition modify_data
    (f : gmap DNSQuestion.t (DNSAnswer.t * Q) → gmap DNSQuestion.t (DNSAnswer.t * Q))
    : M unit :=
  λ s, (Ok (), Store (f (data s)) (reads s)).

(** ** TimedCache *)

Module TimedCache.
Section with_clock.
Variable clock : nat → Q.

(** [time.time()] *)
Definition time_time : M Q :=
  λ s, (Ok (clock (reads s)), Store (data s) (S (reads s))).

Definition set (key : DNSQuestion.t) (value : DNSAnswer.t) (ttl : Z) : M unit :=
  now ← time_time;
  modify_data (insert key (value, (now + inject_Z ttl)%Q)).

Definition get (key : DNSQuestion.t) : M (option DNSAnswer.t) :=
  d ← read_data;
  match d !! key with
  | None => mret None
  | Some (value, expiry) =>
      now ← time_time;
      if Qlt_le_dec expiry now then
        modify_data (delete key);;
        mret None
      else mret (Some value)
  end.

(** [key in cache], that is [self.get(key) != None] *)
Definition contains (key : DNSQuestion.t) : M bool :=
  value ← get key;
  mret (bool_decide (value ≠ None)).
End with_clock.
End TimedCache.

(** ** ServerManager *)

(** [list.insert(i, x)] for [i >= 0]: past the end it appends. *)
Definition list_insert_at {A} (i : nat) (x : A) (l : list A) : list A :=
  take i l ++ x :: drop i l.

(** The answers before the first [None], and whether there was none. *)
Fixpoint answers_until_none {A} (l : list (option A)) : list A * bool :=
  match l with
  | [] => ([], true)
  | None :: _ => ([], false)
  | Some a :: l =>
      let '(p, complete) := answers_until_none l in (a :: p, complete)
  end.

Module ServerManager.
(** The fields of the object that a query does not change. *)
Record t : Type := mk {
  blocklist : gset string;
  redirect_ip : string;
  default_blocking_ttl : Z }.

Section with_world.
(** The library functions and the outside world. *)
Variable fnmatch : string → string → bool.    (* fnmatch.fnmatch(name, pat) *)
Variable inet_aton : string → result bytes.   (* socket.inet_aton *)
Variable resolver : bytes → result bytes.     (* the upstream's datagram for a query *)
Variable clock : nat → Q.
Variable depth : nat.                         (* stack frames left for decode_name *)
Variable self : t.

(** [forward_dns_query]: [recvfrom(512)] cuts the datagram to 512 bytes. *)
Definition forward_dns_query (query : bytes) : result bytes :=
  response ← resolver query;
  Ok (take 512 response).

(** The first loop: which questions are cached, blocked, or forwarded. *)
Fixpoint classify (idx : nat) (questions : list DNSQuestion.t)
    (new_questions : list DNSQuestion.t)
    (question_index_blocked question_index_cached : list nat)
    : M (list DNSQuestion.t * list nat * list nat) :=
  match questions with
  | [] => mret (new_questions, question_index_blocked, question_index_cached)
  | question :: questions =>
      cached ← TimedCache.contains clock question;
      if cached : bool then
        classify (S idx) questions new_questions question_index_blocked
          (question_index_cached ++ [idx])
      else if existsb (fnmatch (DNSQuestion.decoded_name question))
                (elements (blocklist self)) then
        classify (S idx) questions new_questions
          (question_index_blocked ++ [idx]) question_index_cached
      else
        classify (S idx) questions (new_questions ++ [question])
          question_index_blocked question_index_cached
  end.

(** Forward what is left, or make up an empty response. *)
Definition forward (new_header : DNSHeader.t)
    (new_questions : list DNSQuestion.t)
    : result (DNSHeader.t * list DNSQuestion.t * list (option DNSAnswer.t)) :=
  if decide (DNSHeader.qdcount new_header > 0) then
    send ← pack_all_compressed new_header new_questions [];
    response ← forward_dns_query send;
    '(recv_header, recv_questions, recv_answers) ← unpack_all depth response;
    Ok (recv_header, recv_questions, Some <$> default [] recv_answers)
  else
    let recv_header := DNSHeader.with_qr new_header 1 in
    Ok (recv_header, new_questions, []).

(** "Add the cached questions to the response, keeping the position" *)
Fixpoint splice_cached (questions : list DNSQuestion.t)
    (question_index_cached : list nat)
    (recv_questions : list DNSQuestion.t)
    (recv_answers : list (option DNSAnswer.t))
    : M (list DNSQuestion.t * list (option DNSAnswer.t)) :=
  match question_index_cached with
  | [] => mret (recv_questions, recv_answers)
  | idx :: rest =>
      question ← lift (from_option Ok (Raise IndexError) (questions !! idx));
      let recv_questions := list_insert_at idx question recv_questions in
      answer ← TimedCache.get clock question;
      let recv_answers := list_insert_at idx answer recv_answers in
      splice_cached questions rest recv_questions recv_answers
  end.

(** The "fake answer" made for a blocked question. *)
Definition blocked_answer (question : DNSQuestion.t) : result DNSAnswer.t :=
  rdata ← inet_aton (redirect_ip self);
  Ok {| DNSAnswer.decoded_name := DNSQuestion.decoded_name question;
        DNSAnswer.type_ := DNSQuestion.type_ question;
        DNSAnswer.class_ := DNSQuestion.type_ question;
        DNSAnswer.ttl := default_blocking_ttl self;
        DNSAnswer.rdlength := 4;
        DNSAnswer.rdata := rdata |}.

(** "Add the blocked questions to the response, keeping the position" *)
Fixpoint splice_blocked (questions : list DNSQuestion.t)
    (question_index_blocked : list nat)
    (recv_questions : list DNSQuestion.t)
    (recv_answers : list (option DNSAnswer.t))
    : result (list DNSQuestion.t * list (option DNSAnswer.t)) :=
  match question_index_blocked with
  | [] => Ok (recv_questions, recv_answers)
  | idx :: rest =>
      question ← from_option Ok (Raise IndexError) (questions !! idx);
      answer ← blocked_answer question;
      let recv_questions := list_insert_at idx question recv_questions in
      let recv_answers := list_insert_at idx (Some answer) recv_answers in
      splice_blocked questions rest recv_questions recv_answers
  end.

(** From the decoded query to the header, questions and answers of the
    response (the code between the unpacking and the cache update). *)
Definition route (header : DNSHeader.t) (questions : list DNSQuestion.t)
    : M (DNSHeader.t * list DNSQuestion.t * list (option DNSAnswer.t)) :=
  '(new_questions, question_index_blocked, question_index_cached) ←
    classify 0 questions [] [] [];
  let new_header :=
    DNSHeader.with_qdcount header (Z.of_nat (length new_questions)) in
  '(recv_header, recv_questions, recv_answers) ←
    lift (forward new_header new_questions);
  let recv_header :=
    if (0 <? length question_index_cached)%nat ||
       (0 <? length question_index_blocked)%nat
    then DNSHeader.with_ra (DNSHeader.with_rd recv_header 0) 0
    else recv_header in
  '(recv_questions, recv_answers) ←
    splice_cached questions question_index_cached recv_questions recv_answers;
  '(recv_questions, recv_answers) ←
    lift (splice_blocked questions question_index_blocked
            recv_questions recv_answers);
  let recv_header :=
    DNSHeader.with_qdcount recv_header (Z.of_nat (length recv_questions)) in
  let recv_header :=
    DNSHeader.with_ancount recv_header (Z.of_nat (length recv_answers)) in
  mret (recv_header, recv_questions, recv_answers).

(** "cache it, using the original question and new answer": the loop
    over [zip(questions, recv_answers)]. *)
Fixpoint update_cache
    (pairs : list (DNSQuestion.t * option DNSAnswer.t)) : M unit :=
  match pairs with
  | [] => mret ()
  | (cache_question, cache_answer) :: pairs =>
      cached ← TimedCache.contains clock cache_question;
      (if cached : bool then mret ()
       else match cache_answer with
            | None => raise AttributeError
            | Some answer =>
                TimedCache.set clock cache_question answer
                  (DNSAnswer.ttl answer)
            end);;
      update_cache pairs
  end.

Definition handle_dns_query (buf : bytes) : M bytes :=
  '(header, questions, answers) ← lift (unpack_all depth buf);
  match answers with
  | Some _ => raise ValueError   (* header, questions = a triple *)
  | None =>
      '(recv_header, recv_questions, recv_answers) ← route header questions;
      update_cache (zip questions recv_answers);;
      let '(answers, complete) := answers_until_none recv_answers in
      lift (response ← pack_all_compressed recv_header recv_questions answers;
            if complete : bool then Ok response else Raise AttributeError)
  end.
End with_world.

(** *** The serving loop of [start] *)

(** What the loop changes: the cache and the clock, whether [done()] has
    closed the sockets, how many datagrams have been received, the
    datagrams sent back to the clients, and the number of "Error" records
    logged. *)
Record session (Addr : Type) : Type := Session {
  cache : store;
  closed : bool;
  received : nat;
  sent : list (bytes * Addr);
  errors : nat }.
Arguments Session {Addr} _ _ _ _ _.
Arguments cache {Addr} _.
Arguments closed {Addr} _.
Arguments received {Addr} _.
Arguments sent {Addr} _.
Arguments errors {Addr} _.

Section serve.
Context {Addr : Type}.
Variable fnmatch : string → string → bool.
Variable inet_aton : string → result bytes.
(** The upstream's datagram for a query that is forwarded while the n-th
    datagram received is handled. *)
Variable resolver : nat → bytes → result bytes.
(** [self.sock.sendto(response, addr)] on the open socket. *)
Variable sendto : bytes → Addr → result ().
Variable clock : nat → Q.
Variable depth : nat.
Variable self : t.

(** The [except Exception] branch: [self.done()] closes both sockets
    (closing a closed socket does nothing), then the error is logged. *)
Definition on_exception (srv : session Addr) (cache' : store) (received' : nat)
    : session Addr :=
  Session cache' true received' (sent srv) (S (errors srv)).

(** One turn of the [while True] of [start]; [inbox] holds the datagrams
    that wait at the socket, each with its sender. [None]: [recvfrom]
    waits for a datagram. On a closed socket [recvfrom] raises OSError
    and takes nothing from the inbox. [recvfrom(512)] cuts the datagram
    to 512 bytes. *)
Definition start_turn (srv : session Addr) (inbox : list (bytes * Addr))
    : option (session Addr * list (bytes * Addr)) :=
  if closed srv then
    Some (on_exception srv (cache srv) (received srv), inbox)
  else
    match inbox with
    | [] => None
    | (datagram, addr) :: inbox =>
        let buf := take 512 datagram in
        match handle_dns_query fnmatch inet_aton (resolver (received srv))
                clock depth self buf (cache srv) with
        | (Ok response, cache') =>
            match sendto response addr with
            | Ok _ =>
                Some (Session cache' false (S (received srv))
                        (sent srv ++ [(response, addr)]) (errors srv), inbox)
            | Raise _ =>
                Some (on_exception srv cache' (S (received srv)), inbox)
            end
        | (Raise _, cache') =>
            Some (on_exception srv cache' (S (received srv)), inbox)
        end
    end.

(** The loop of [start] after at most [turns] turns: it never returns,
    and stops turning only to wait for a datagram. *)
Fixpoint start (turns : nat) (srv : session Addr) (inbox : list (bytes * Addr))
    : session Addr * list (bytes * Addr) :=
  match turns with
  | O => (srv, inbox)
  | S turns =>
      match start_turn srv inbox with
      | None => (srv, inbox)
      | Some (srv, inbox) => start turns srv inbox
      end
  end.
End serve.
End ServerManager.

(** ** Stand-ins for the libraries and the upstream, to run examples *)

(** [fnmatch] for patterns of literal characters, [*] and [?] (bracket
    classes are not covered). *)
Fixpoint glob_match (pat name : list ascii) : bool :=
  match pat with
  | [] => match name with [] => true | _ => false end
  | p :: pat' =>
      if Ascii.eqb p "*"%char then
        (fix star (name : list ascii) : bool :=
           glob_match pat' name ||
           match name with [] => false | _ :: name' => star name' end) name
      else match name with
           | [] => false
           | c :: name' =>
               (Ascii.eqb p "?"%char || Ascii.eqb p c) && glob_match pat' name'
           end
  end.

Definition fnmatch_glob (name pat : string) : bool :=
  glob_match (list_ascii_of_string pat) (list_ascii_of_string name).

(** [socket.inet_aton] for addresses written as four decimal numbers
    [a.b.c.d], each at most 255 and without leading zeros: the four bytes
    [a b c d]. (The C function also reads shorter and octal or
    hexadecimal forms; they are not covered and give OSError here.) *)
Fixpoint parse_decimal (digits : list ascii) (acc : N) : option N :=
  match digits with
  | [] => Some acc
  | c :: digits =>
      let d := N_of_ascii c in
      if ((48 <=? d) && (d <=? 57))%N
      then parse_decimal digits (acc * 10 + (d - 48))%N
      else None
  end.

Definition parse_octet (s : string) : option byte :=
  match list_ascii_of_string s with
  | [] => None
  | c :: rest =>
      if Ascii.eqb c "0"%char && negb (bool_decide (rest = [])) then None
      else n ← parse_decimal (c :: rest) 0%N; Byte.of_N n
  end.

Definition inet_aton_dotted (ip : string) : result bytes :=
  match parse_octet <$> split_dot ip with
  | [Some a; Some b; Some c; Some d] => Ok [a; b; c; d]
  | _ => Raise OSError
  end.

(** An upstream that answers every question of the query with one record
    of the given ttl and rdata. *)
Definition echo_resolver (ttl : Z) (rdata : bytes) (query : bytes)
    : result bytes :=
  '(header, questions, _) ← unpack_all 2 query;
  let answer q :=
    DNSAnswer.mk (DNSQuestion.decoded_name q) (DNSQuestion.type_ q)
      (DNSQuestion.class_ q) ttl (Z.of_nat (length rdata)) rdata in
  let header :=
    DNSHeader.with_ancount (DNSHeader.with_qr header 1)
      (Z.of_nat (length questions)) in
  pack_all_uncompressed header questions (answer <$> questions).

(** ** The vocabulary of the properties: wire forms and valid messages *)

(** A label on the wire: its length in one byte, then its characters. *)
Definition label_wire (label : string) : bytes :=
  byte_of_Z (Z.of_nat (String.length label)) :: list_byte_of_string label.

Definition label_encodable (label : string) : Prop :=
  (String.length label ≤ 255)%nat ∧ is_ascii_str label = true.

(** The plain encoding of a name. *)
Definition name_wire (name : string) : bytes :=
  concat (label_wire <$> split_dot name) ++ [x00].

(** Two bytes, big-endian. *)
Definition be16_bytes (v : Z) : bytes := [byte_of_Z (v / 256); byte_of_Z v].

Definition be32_bytes (v : Z) : bytes :=
  [byte_of_Z (v / 16777216); byte_of_Z (v / 65536); byte_of_Z (v / 256);
   byte_of_Z v].

Definition header_wire (h : DNSHeader.t) : bytes :=
  be16_bytes (DNSHeader.id h) ++ be16_bytes (DNSHeader.flags h) ++
  be16_bytes (DNSHeader.qdcount h) ++ be16_bytes (DNSHeader.ancount h) ++
  be16_bytes (DNSHeader.nscount h) ++ be16_bytes (DNSHeader.arcount h).

(** What follows the name in a question and in an answer. *)
Definition question_tail (q : DNSQuestion.t) : bytes :=
  be16_bytes (DNSQuestion.type_ q) ++ be16_bytes (DNSQuestion.class_ q).

Definition answer_tail (a : DNSAnswer.t) : bytes :=
  (be16_bytes (DNSAnswer.type_ a) ++ be16_bytes (DNSAnswer.class_ a) ++
   be32_bytes (DNSAnswer.ttl a) ++ be16_bytes (DNSAnswer.rdlength a)) ++
  DNSAnswer.rdata a.

(** The uncompressed wire form of a message. *)
Definition question_wire (q : DNSQuestion.t) : bytes :=
  name_wire (DNSQuestion.decoded_name q) ++ question_tail q.

Definition answer_wire (a : DNSAnswer.t) : bytes :=
  name_wire (DNSAnswer.decoded_name a) ++ answer_tail a.

Definition message_wire (h : DNSHeader.t) (questions : list DNSQuestion.t)
    (answers : list DNSAnswer.t) : bytes :=
  header_wire h ++ concat (question_wire <$> questions)
               ++ concat (answer_wire <$> answers).

(** An answer whose rdata has the length that its rdlength says. *)
Definition rdata_complete (answer : DNSAnswer.t) : Prop :=
  Z.of_nat (length (DNSAnswer.rdata answer)) = DNSAnswer.rdlength answer.

(** The exceptions that decoding a buffer can end in. *)
Definition decode_error (e : exn) : Prop :=
  e = IndexError ∨ e = StructError ∨ e = UnicodeDecodeError ∨
  e = RecursionError.

(** [questions_read depth buf idx questions idx']: from [idx] to [idx'] the
    buffer holds the questions one after the other, each one a name that
    [decode_name] reads and then four bytes, the type and the class, all
    of them inside the buffer. *)
Inductive questions_read (depth : nat) (buf : bytes)
    : nat → list DNSQuestion.t → nat → Prop :=
  | questions_read_nil idx : questions_read depth buf idx [] idx
  | questions_read_cons idx name i1 t1 t0 c1 c0 questions idx' :
      decode_name depth buf idx = Ok (name, i1) →
      (i1 + 4 ≤ length buf)%nat →
      slice buf i1 (i1 + 4) = [t1; t0; c1; c0] →
      questions_read depth buf (i1 + 4) questions idx' →
      questions_read depth buf idx
        (DNSQuestion.mk name (be16 t1 t0) (be16 c1 c0) :: questions) idx'.

(** [answers_read depth buf idx answers idx']: the same for answers. After
    the name come ten bytes inside the buffer (type, class, ttl and
    rdlength); the rdata is what the buffer has of the rdlength bytes that
    follow, and the next answer starts rdlength bytes further on. *)
Inductive answers_read (depth : nat) (buf : bytes)
    : nat → list DNSAnswer.t → nat → Prop :=
  | answers_read_nil idx : answers_read depth buf idx [] idx
  | answers_read_cons idx name i1 t1 t0 c1 c0 l3 l2 l1 l0 n1 n0 answers idx' :
      decode_name depth buf idx = Ok (name, i1) →
      (i1 + 10 ≤ length buf)%nat →
      slice buf i1 (i1 + 10) = [t1; t0; c1; c0; l3; l2; l1; l0; n1; n0] →
      answers_read depth buf (i1 + 10 + Z.to_nat (be16 n1 n0)) answers idx' →
      answers_read depth buf idx
        (DNSAnswer.mk name (be16 t1 t0) (be16 c1 c0) (be32 l3 l2 l1 l0)
           (be16 n1 n0)
           (slice buf (i1 + 10) (i1 + 10 + Z.to_nat (be16 n1 n0)))
         :: answers) idx'.

Definition valid_label (label : string) : Prop :=
  (1 ≤ String.length label ≤ 63)%nat ∧ is_ascii_str label = true.

Definition valid_name (name : string) : Prop :=
  Forall valid_label (split_dot name).

Definition valid_header (h : DNSHeader.t) : Prop :=
  0 ≤ DNSHeader.id h ≤ 65535 ∧ 0 ≤ DNSHeader.qr h ≤ 1 ∧
  0 ≤ DNSHeader.opcode h ≤ 15 ∧ 0 ≤ DNSHeader.aa h ≤ 1 ∧
  0 ≤ DNSHeader.tc h ≤ 1 ∧ 0 ≤ DNSHeader.rd h ≤ 1 ∧
  0 ≤ DNSHeader.ra h ≤ 1 ∧ 0 ≤ DNSHeader.z h ≤ 7 ∧
  0 ≤ DNSHeader.rcode h ≤ 15 ∧ 0 ≤ DNSHeader.qdcount h ≤ 65535 ∧
  0 ≤ DNSHeader.ancount h ≤ 65535 ∧ 0 ≤ DNSHeader.nscount h ≤ 65535 ∧
  0 ≤ DNSHeader.arcount h ≤ 65535.

Definition valid_question (q : DNSQuestion.t) : Prop :=
  valid_name (DNSQuestion.decoded_name q) ∧
  0 ≤ DNSQuestion.type_ q ≤ 65535 ∧ 0 ≤ DNSQuestion.class_ q ≤ 65535.

Definition valid_answer (a : DNSAnswer.t) : Prop :=
  valid_name (DNSAnswer.decoded_name a) ∧
  0 ≤ DNSAnswer.type_ a ≤ 65535 ∧ 0 ≤ DNSAnswer.class_ a ≤ 65535 ∧
  0 ≤ DNSAnswer.ttl a ≤ 4294967295 ∧ 0 ≤ DNSAnswer.rdlength a ≤ 65535 ∧
  rdata_complete a.

(** What [unpack_all] returns for answers: no list when there are none. *)
Definition answers_shape (answers : list DNSAnswer.t)
    : option (list DNSAnswer.t) :=
  match answers with [] => None | _ => Some answers end.

(** [records_at name tail dmin buf pos rs fin]: from [pos] to [fin], [buf]
    holds the records [rs] one after the other, each as a name (in any
    encoding that [decode_name] reads back with [dmin] frames or more)
    followed by its tail. *)
Inductive records_at {R : Type} (rname : R → string) (rtail : R → bytes)
    (dmin : nat) (buf : bytes) : nat → list R → nat → Prop :=
  | records_at_nil pos : records_at rname rtail dmin buf pos [] pos
  | records_at_cons pos len r rs fin :
      (∀ d, (dmin ≤ d)%nat →
         decode_name d buf pos = Ok (rname r, (pos + len)%nat)) →
      slice buf (pos + len) (pos + len + length (rtail r)) = rtail r →
      records_at rname rtail dmin buf (pos + len + length (rtail r)) rs fin →
      records_at rname rtail dmin buf pos (r :: rs) fin.

(** Every recorded offset is inside the response and holds its name. *)
Definition offsets_ok (response : bytes) (name_offset_map : gmap string nat)
    : Prop :=
  ∀ name offset, name_offset_map !! name = Some offset →
    (offset < length response)%nat ∧
    ∀ d, (1 ≤ d)%nat → ∃ idx, decode_name d response offset = Ok (name, idx).

(** The loop that [pack_all_compressed] runs over the questions and again
    over the answers, for any kind of record. *)
Fixpoint pack_records_compressed {R : Type} (rname : R → string)
    (rpack : R → bytes → result bytes) (response : bytes)
    (name_offset_map : gmap string nat) (records : list R)
    : result (bytes * gmap string nat) :=
  match records with
  | [] => Ok (response, name_offset_map)
  | record :: records =>
      '(encoded_name, name_offset_map) ←
        compress_name response name_offset_map (rname record);
      packed ← rpack record encoded_name;
      pack_records_compressed rname rpack (response ++ packed)
        name_offset_map records
  end.

(** The loop that [pack_all_uncompressed] runs over the questions and
    again over the answers, for any kind of record. *)
Fixpoint pack_records_uncompressed {R : Type} (rname : R → string)
    (rpack : R → bytes → result bytes) (response : bytes) (records : list R)
    : result bytes :=
  match records with
  | [] => Ok response
  | record :: records =>
      name ← encode_name_uncompressed (rname record);
      packed ← rpack record name;
      pack_records_uncompressed rname rpack (response ++ packed) records
  end.

(** The questions and the answers that a message decodes to. *)
Definition decoded_questions (depth : nat) (buf : bytes)
    : result (list DNSQuestion.t) :=
  '(_, questions, _) ← unpack_all depth buf;
  Ok questions.

Definition decoded_answers (depth : nat) (buf : bytes)
    : result (list DNSAnswer.t) :=
  '(_, _, answers) ← unpack_all depth buf;
  Ok (default [] answers).

(** The names of the answers of a message. *)
Definition decoded_answer_names (depth : nat) (buf : bytes)
    : result (list string) :=
  '(_, _, answers) ← unpack_all depth buf;
  Ok (DNSAnswer.decoded_name <$> default [] answers).

(** The last step of [handle_dns_query]: the response packed from the
    header, questions and answers that the routing ends with. A None among
    the answers makes the packing read an attribute of None, after the
    records before it have been packed. *)
Definition pack_response (recv_header : DNSHeader.t)
    (recv_questions : list DNSQuestion.t)
    (recv_answers : list (option DNSAnswer.t)) : result bytes :=
  let '(answers, complete) := answers_until_none recv_answers in
  response ← pack_all_compressed recv_header recv_questions answers;
  if complete : bool then Ok response else Raise AttributeError.

(** The header of a response that is made without the upstream: the
    query's header with qr set, rd and ra cleared, and the counts of the
    questions and answers written. *)
Definition local_header (header : DNSHeader.t) (n : nat) : DNSHeader.t :=
  DNSHeader.mk (DNSHeader.id header) 1 (DNSHeader.opcode header)
    (DNSHeader.aa header) (DNSHeader.tc header) 0 0 (DNSHeader.z header)
    (DNSHeader.rcode header) (Z.of_nat n) (Z.of_nat n)
    (DNSHeader.nscount header) (DNSHeader.arcount header).

(** How the first loop of [handle_dns_query] sorts a question. *)
Inductive kind : Set := Cached | Blocked | Forwarded.

#[export] Instance kind_eq_dec : EqDecision kind.
Proof. solve_decision. Defined.

(** The indices, counted from [i], of the entries of kind [k]. *)
Fixpoint indices_of (k : kind) (i : nat) (ks : list kind) : list nat :=
  match ks with
  | [] => []
  | k' :: ks =>
      if decide (k' = k) then i :: indices_of k (S i) ks
      else indices_of k (S i) ks
  end.

(** The list that has, entry by entry of [ks], the next element of the
    list of that kind (an entry whose list is used up is passed over). *)
Fixpoint interleave {A} (ks : list kind) (cached blocked forwarded : list A)
    : list A :=
  match ks with
  | [] => []
  | Cached :: ks =>
      match cached with
      | x :: cached => x :: interleave ks cached blocked forwarded
      | [] => interleave ks cached blocked forwarded
      end
  | Blocked :: ks =>
      match blocked with
      | x :: blocked => x :: interleave ks cached blocked forwarded
      | [] => interleave ks cached blocked forwarded
      end
  | Forwarded :: ks =>
      match forwarded with
      | x :: forwarded => x :: interleave ks cached blocked forwarded
      | [] => interleave ks cached blocked forwarded
      end
  end.

(** [l.insert(i, x)] for each pair [(i, x)] in turn. *)
Definition insert_all {A} (pairs : list (nat * A)) (l : list A) : list A :=
  foldl (λ l p, list_insert_at p.1 p.2 l) l pairs.

(** No cached entry has both a blocked entry before it and a forwarded
    entry after it; [blocked_before] says whether a blocked entry came
    before the list. *)
Fixpoint order_kept_from (blocked_before : bool) (ks : list kind) : bool :=
  match ks with
  | [] => true
  | Cached :: ks =>
      (negb blocked_before || bool_decide (Forwarded ∉ ks))
      && order_kept_from blocked_before ks
  | Blocked :: ks => order_kept_from true ks
  | Forwarded :: ks => order_kept_from blocked_before ks
  end.

(** ** Example values *)

(** A name of one label of 64 characters. *)
Definition label64 : string := string_of_list_ascii (repeat "a"%char 64).

Definition question_a : DNSQuestion.t := DNSQuestion.mk "a.example" 1 1.
Definition answer_a : DNSAnswer.t :=
  DNSAnswer.mk "a.example" 1 1 300 4 [x01; x01; x01; x01].

Definition question_ads : DNSQuestion.t := DNSQuestion.mk "ads.example" 1 1.
Definition question_b : DNSQuestion.t := DNSQuestion.mk "b.example" 1 1.
Definition question_c : DNSQuestion.t := DNSQuestion.mk "c.example" 1 1.
Definition answer_b : DNSAnswer.t :=
  DNSAnswer.mk "b.example" 1 1 300 4 [x02; x02; x02; x02].

(** A server that blocks [ads.example] and redirects to 10.0.0.1; a cache
    that holds the answer to [b.example] until time 1000. *)
Definition example_server : ServerManager.t :=
  ServerManager.mk {[ "ads.example" ]} "10.0.0.1" 60.
Definition example_store : store :=
  Store {[ question_b := (answer_b, 1000%Q) ]} 0.

(** [handle_dns_query] of that server, at a clock that stands at 0, with
    an upstream that answers each question with 9.9.9.9 and ttl 30. *)
Definition example_handle : bytes → M bytes :=
  ServerManager.handle_dns_query fnmatch_glob inet_aton_dotted
    (echo_resolver 30 [x09; x09; x09; x09]) (λ _, 0%Q) 5 example_server.

(** The query id 7, rd set, for [ads.example], [b.example], [c.example]
    (type 1, class 1), in this order. *)
Definition query_ads_b_c : bytes :=
  [x00; x07; x01; x00; x00; x03; x00; x00; x00; x00; x00; x00;
   x03; x61; x64; x73; x07; x65; x78; x61; x6d; x70; x6c; x65; x00;
   x00; x01; x00; x01;
   x01; x62; x07; x65; x78; x61; x6d; x70; x6c; x65; x00;
   x00; x01; x00; x01;
   x01; x63; x07; x65; x78; x61; x6d; x70; x6c; x65; x00;
   x00; x01; x00; x01].

(** The same three questions as [b.example], [ads.example], [c.example]:
    the cached one first, then the blocked one, then the forwarded one. *)
Definition query_b_ads_c : bytes :=
  [x00; x07; x01; x00; x00; x03; x00; x00; x00; x00; x00; x00;
   x01; x62; x07; x65; x78; x61; x6d; x70; x6c; x65; x00;
   x00; x01; x00; x01;
   x03; x61; x64; x73; x07; x65; x78; x61; x6d; x70; x6c; x65; x00;
   x00; x01; x00; x01;
   x01; x63; x07; x65; x78; x61; x6d; x70; x6c; x65; x00;
   x00; x01; x00; x01].

(** The query id 7, rd set, for [b.example] alone, and that for
    [ads.example] alone. *)
Definition query_b : bytes :=
  [x00; x07; x01; x00; x00; x01; x00; x00; x00; x00; x00; x00;
   x01; x62; x07; x65; x78; x61; x6d; x70; x6c; x65; x00;
   x00; x01; x00; x01].

Definition query_ads : bytes :=
  [x00; x07; x01; x00; x00; x01; x00; x00; x00; x00; x00; x00;
   x03; x61; x64; x73; x07; x65; x78; x61; x6d; x70; x6c; x65; x00;
   x00; x01; x00; x01].

(** The query id 7, rd set, for [c.example] alone. *)
Definition query_c : bytes :=
  [x00; x07; x01; x00; x00; x01; x00; x00; x00; x00; x00; x00;
   x01; x63; x07; x65; x78; x61; x6d; x70; x6c; x65; x00;
   x00; x01; x00; x01].

(** The query id 7 for [a.example] with ancount 1 and one answer record
    (a pointer to the question's name, type 1, class 1, ttl 60, 1.2.3.4). *)
Definition query_with_answer : bytes :=
  [x00; x07; x01; x00; x00; x01; x00; x01; x00; x00; x00; x00;
   x01; x61; x07; x65; x78; x61; x6d; x70; x6c; x65; x00;
   x00; x01; x00; x01;
   xc0; x0c; x00; x01; x00; x01; x00; x00; x00; x3c; x00; x04;
   x01; x02; x03; x04].

(** [query_with_answer] cut two bytes short: rdlength says 4, two bytes
    of rdata are there. *)
Definition query_short_rdata : bytes := take 41 query_with_answer.

(** A question whose one label says 9 bytes when 3 are there. *)
Definition query_short_label : bytes :=
  [x00; x07; x01; x00; x00; x01; x00; x00; x00; x00; x00; x00;
   x09; x61; x62; x63].

(** A valid response of three answers, the first with 16371 bytes of
    rdata: the name [b] of the second is first written at offset 16396,
    beyond what the 14 bits of a pointer hold. *)
Definition big_header : DNSHeader.t := DNSHeader.mk 0 1 0 0 0 0 0 0 0 0 3 0 0.
Definition big_answer : DNSAnswer.t :=
  DNSAnswer.mk "a" 1 1 0 16371 (repeat x00 (Z.to_nat 16371)).
Definition small_answer : DNSAnswer.t := DNSAnswer.mk "b" 1 1 0 0 [].

(** An answer whose rdlength field is 0 while it has one byte of rdata. *)
Definition odd_header : DNSHeader.t := DNSHeader.mk 0 1 0 0 0 0 0 0 0 0 1 0 0.
Definition odd_answer : DNSAnswer.t := DNSAnswer.mk "a" 1 1 0 0 [x01].

(** A query (arcount 1) whose one question has for its name a pointer to
    offset 18, the first byte after the question, and two additional
    records that may follow it there: the names [a] and [b], type 1,
    class 1, ttl 0, no rdata. *)
Definition query_forward_pointer : bytes :=
  [x00; x07; x01; x00; x00; x01; x00; x00; x00; x00; x00; x01;
   xc0; x12; x00; x01; x00; x01].

Definition additional_a : bytes :=
  [x01; x61; x00; x00; x01; x00; x01; x00; x00; x00; x00; x00; x00].

Definition additional_b : bytes :=
  [x01; x62; x00; x00; x01; x00; x01; x00; x00; x00; x00; x00; x00].

(** A response with arcount 1 (id 7, qr, rd and ra set, one question and
    one answer for [a.example]) up to the end of its answer, and the OPT
    record (root name, type 41, class 4096) that follows it as its one
    additional record. *)
Definition response_arcount : bytes :=
  [x00; x07; x81; x80; x00; x01; x00; x01; x00; x00; x00; x01;
   x01; x61; x07; x65; x78; x61; x6d; x70; x6c; x65; x00;
   x00; x01; x00; x01;
   xc0; x0c; x00; x01; x00; x01; x00; x00; x00; x3c; x00; x04;
   x01; x02; x03; x04].

Definition opt_record : bytes :=
  [x00; x00; x29; x10; x00; x00; x00; x00; x00; x00; x00].

(** * Properties *)

Example encode_name_example :
  encode_name_uncompressed "ab.c" = Ok [x02; x61; x62; x01; x63; x00].
Proof. reflexivity. Qed.
(** ** Bytes and numbers *)

Lemma byte_val_range (b : byte) : 0 ≤ byte_val b < 256.
Proof. unfold byte_val. pose proof (Byte.to_N_bounded b). lia. Qed.

Lemma byte_of_Z_val (b : byte) : byte_of_Z (byte_val b) = b.
Proof.
  unfold byte_of_Z. pose proof (byte_val_range b) as Hb.
  rewrite Z.mod_small by done. unfold byte_val. rewrite N2Z.id.
  by rewrite Byte.of_to_N.
Qed.

Lemma byte_val_of_Z (z : Z) : byte_val (byte_of_Z z) = z mod 256.
Proof.
  unfold byte_of_Z, byte_val.
  pose proof (Z.mod_pos_bound z 256 eq_refl) as Hz.
  destruct (Byte.of_N (Z.to_N (z mod 256))) as [b|] eqn:E; simpl.
  - apply Byte.to_of_N in E. rewrite E. lia.
  - apply Byte.of_N_None_iff in E. lia.
Qed.

Lemma byte_nat_val (b : byte) : Z.of_nat (byte_nat b) = byte_val b.
Proof. unfold byte_nat, byte_val. lia. Qed.

Lemma bytes_of_len_le (n : nat) :
  (n ≤ 255)%nat → bytes_of_len n = Ok [byte_of_Z (Z.of_nat n)].
Proof.
  intros Hn. unfold bytes_of_len, byte_of_Z.
  rewrite Z.mod_small by lia.
  replace (Z.to_N (Z.of_nat n)) with (N.of_nat n) by lia.
  destruct (Byte.of_N (N.of_nat n)) eqn:E; [done|].
  apply Byte.of_N_None_iff in E. lia.
Qed.

Lemma bytes_of_len_gt (n : nat) :
  (255 < n)%nat → bytes_of_len n = Raise ValueError.
Proof.
  intros Hn. unfold bytes_of_len.
  destruct (Byte.of_N (N.of_nat n)) eqn:E; [|done].
  apply Byte.to_of_N in E. pose proof (Byte.to_N_bounded b). lia.
Qed.

(** ** encode_name_uncompressed *)

Lemma encode_label_ok (l : string) :
  label_encodable l → encode_label l = Ok (label_wire l).
Proof.
  intros [Hlen Hasc]. unfold encode_label, str_encode_ascii.
  by rewrite bytes_of_len_le, Hasc.
Qed.

Lemma encode_label_err (l : string) :
  ¬ label_encodable l →
  encode_label l = Raise ValueError ∨ encode_label l = Raise UnicodeEncodeError.
Proof.
  intros Hbad. unfold encode_label, str_encode_ascii.
  destruct (decide (String.length l ≤ 255)%nat) as [Hlen|Hlen].
  - rewrite bytes_of_len_le by done. right.
    destruct (is_ascii_str l) eqn:E; [|done].
    destruct Hbad. by split.
  - left. rewrite bytes_of_len_gt by lia. done.
Qed.

Lemma encode_labels_ok (ls : list string) :
  Forall label_encodable ls → encode_labels ls = Ok (label_wire <$> ls).
Proof.
  induction 1 as [|l ls Hl _ IH]; [done|].
  cbn. rewrite (encode_label_ok l Hl). cbn. rewrite IH. done.
Qed.

Lemma encode_labels_err (ls : list string) :
  Exists (λ l, ¬ label_encodable l) ls →
  encode_labels ls = Raise ValueError ∨
  encode_labels ls = Raise UnicodeEncodeError.
Proof.
  induction ls as [|l ls IH]; intros Hex; [by apply Exists_nil in Hex|].
  cbn. destruct (decide (label_encodable l)) as [Hl|Hl].
  - rewrite (encode_label_ok l Hl). cbn.
    apply Exists_cons in Hex as [?|Hex]; [done|].
    destruct (IH Hex) as [-> | ->]; auto.
  - destruct (encode_label_err l Hl) as [-> | ->]; auto.
Qed.

(** C9, as stated, fails: a name with a label longer than 63 bytes is
    encoded without an error (here one label of 64 bytes, written with the
    length byte 0x40). *)
Lemma encode_name_uncompressed_label64 :
  (∃ l, l ∈ split_dot label64 ∧ (63 < String.length l)%nat) ∧
  encode_name_uncompressed label64 = Ok (x40 :: repeat x61 64 ++ [x00]).
Proof.
  split; [|by vm_compute].
  exists label64. split; [|vm_compute; lia].
  vm_compute. apply list_elem_of_here.
Qed.

(** C9 (amended): [encode_name_uncompressed] raises (ValueError or
    UnicodeEncodeError) for every name with a label longer than 255
    characters or with a non-ASCII character; for every other name, so for
    every name of 1-63 byte ASCII labels, it returns each label prefixed by
    its length byte, followed by a zero byte. *)
Theorem encode_name_uncompressed_spec (name : string) :
  let labels := split_dot name in
  (Exists (λ l, (255 < String.length l)%nat ∨ is_ascii_str l = false) labels →
     encode_name_uncompressed name = Raise ValueError ∨
     encode_name_uncompressed name = Raise UnicodeEncodeError) ∧
  (Forall (λ l, (String.length l ≤ 255)%nat ∧ is_ascii_str l = true) labels →
     encode_name_uncompressed name = Ok (concat (label_wire <$> labels) ++ [x00]) ∧
     Forall (λ l, byte_nat (byte_of_Z (Z.of_nat (String.length l)))
                  = String.length l) labels) ∧
  (Forall (λ l, (1 ≤ String.length l ≤ 63)%nat ∧ is_ascii_str l = true) labels →
     encode_name_uncompressed name = Ok (concat (label_wire <$> labels) ++ [x00])).
Proof.
  intros labels. unfold encode_name_uncompressed. fold labels.
  assert (Hok : Forall (λ l, (String.length l ≤ 255)%nat ∧ is_ascii_str l = true) labels →
      (encode_labels labels ≫= λ encoded, Ok (concat encoded ++ [x00])) =
      Ok (concat (label_wire <$> labels) ++ [x00])).
  { intros Hall. by rewrite (encode_labels_ok labels Hall). }
  split; [|split].
  - intros Hex.
    destruct (encode_labels_err labels) as [-> | ->]; auto.
    eapply Exists_impl; [exact Hex|]. intros l Hl [Hlen Hasc].
    destruct Hl as [Hl|Hl]; [lia|congruence].
  - intros Hall. split; [by apply Hok|].
    eapply Forall_impl; [exact Hall|]. intros l [Hlen _]. simpl.
    apply Nat2Z.inj. rewrite byte_nat_val, byte_val_of_Z.
    apply Z.mod_small. lia.
  - intros Hall. apply Hok.
    eapply Forall_impl; [exact Hall|]. intros l [Hlen Hasc]. split; [lia|done].
Qed.

Lemma encode_name_uncompressed_spec_witness :
  encode_name_uncompressed "ab.c" = Ok [x02; x61; x62; x01; x63; x00].
Proof.
  destruct (encode_name_uncompressed_spec "ab.c") as (_ & _ & H).
  rewrite H; [reflexivity|].
  repeat constructor; simpl; lia.
Defined.

(** ** TimedCache *)

Ltac unfold_M :=
  unfold TimedCache.contains, TimedCache.get, TimedCache.set,
    TimedCache.time_time, read_data, modify_data, lift, raise;
  unfold mbind, mret, M_bind, M_ret; simpl.

(** C6, as stated, fails: a [get] made exactly at the stored expiry time
    returns the value, not absent. *)
Lemma TimedCache_get_at_expiry :
  (TimedCache.get (λ _, 10%Q) question_a
     (Store {[ question_a := (answer_a, 10%Q) ]} 0)).1 = Ok (Some answer_a).
Proof. by vm_compute. Qed.

(** C6 (amended): [get] returns absent for an absent key; for a key stored
    with an expiry before the clock's reading it removes the entry and
    returns absent; otherwise it returns the stored value and leaves the
    entry. An entry is expired only once [expiry < now]: a [get] made
    exactly at the expiry time returns the value. *)
Theorem TimedCache_get_spec (clock : nat → Q) (key : DNSQuestion.t) (s : store) :
  let now := clock (reads s) in
  (data s !! key = None → TimedCache.get clock key s = (Ok None, s)) ∧
  (∀ value expiry, data s !! key = Some (value, expiry) → (expiry < now)%Q →
     TimedCache.get clock key s
     = (Ok None, Store (delete key (data s)) (S (reads s)))) ∧
  (∀ value expiry, data s !! key = Some (value, expiry) → (now <= expiry)%Q →
     TimedCache.get clock key s
     = (Ok (Some value), Store (data s) (S (reads s)))) ∧
  (∀ value, data s !! key = Some (value, now) →
     (TimedCache.get clock key s).1 = Ok (Some value)).
Proof.
  intros now. unfold_M. repeat split.
  - by intros ->.
  - intros value expiry -> Hlt. simpl.
    destruct (Qlt_le_dec expiry (clock (reads s))) as [_|Hle]; [done|].
    exfalso. apply (Qlt_not_le _ _ Hlt Hle).
  - intros value expiry -> Hle. simpl.
    destruct (Qlt_le_dec expiry (clock (reads s))) as [Hlt|_]; [|done].
    exfalso. apply (Qlt_not_le _ _ Hlt Hle).
  - intros value ->. simpl.
    destruct (Qlt_le_dec now (clock (reads s))) as [Hlt|_]; [|done].
    exfalso. apply (Qlt_irrefl _ Hlt).
Qed.

Lemma TimedCache_get_spec_witness :
  TimedCache.get (λ _, 11%Q) question_a
    (Store {[ question_a := (answer_a, 10%Q) ]} 0)
  = (Ok None, Store (delete question_a {[ question_a := (answer_a, 10%Q) ]}) 1).
Proof.
  destruct (TimedCache_get_spec (λ _, 11%Q) question_a
              (Store {[ question_a := (answer_a, 10%Q) ]} 0)) as (_ & H & _).
  apply (H answer_a 10%Q); [reflexivity|reflexivity].
Defined.

(** ** decode_name: the loop check *)

Lemma decode_name_loop_unfold rec buf fuel labels visited idx :
  decode_name_loop rec buf fuel labels visited idx =
  if decide (idx ∈ visited) then Raise LoopDetected else
  match buf !! idx with
  | None => Raise IndexError
  | Some length =>
      if decide (byte_val length = 0) then
        Ok (join_dot labels, (idx + 1)%nat)
      else if decide (Z.land (byte_val length) 0xC0 = 0xC0) then
        p ← unpack_H (slice buf idx (idx + 2));
        '(domain, _) ← rec (Z.to_nat (Z.land p 0x3FFF));
        Ok (join_dot (labels ++ [domain]), (idx + 2)%nat)
      else
        label ← bytes_decode_ascii
                  (slice buf (idx + 1) (idx + 1 + byte_nat length));
        match fuel with
        | O => Raise IndexError
        | S fuel' =>
            decode_name_loop rec buf fuel' (labels ++ [label])
              (visited ∪ {[idx]}) (idx + 1 + byte_nat length)%nat
        end
  end.
Proof. by destruct fuel. Qed.

Lemma result_bind_neq {A B} (m : result A) (k : A → result B) (e : exn) :
  m ≠ Raise e → (∀ a, k a ≠ Raise e) → m ≫= k ≠ Raise e.
Proof.
  destruct m; cbn; [intros _ Hk; apply Hk|].
  intros H _ [= ->]. by apply H.
Qed.

(** Inside one call [idx] only grows, so it is never in [visited]: the
    loop check of [decode_name] cannot fire. *)
Lemma decode_name_loop_never_detects rec buf fuel labels visited idx :
  (∀ p, rec p ≠ Raise LoopDetected) →
  (∀ i, i ∈ visited → (i < idx)%nat) →
  decode_name_loop rec buf fuel labels visited idx ≠ Raise LoopDetected.
Proof.
  intros Hrec. revert labels visited idx.
  induction fuel as [|fuel IH]; intros labels visited idx Hvis;
    rewrite decode_name_loop_unfold;
    (destruct (decide (idx ∈ visited)) as [Hin|_];
       [apply Hvis in Hin; lia|]);
    (destruct (buf !! idx) as [len|]; [|done]);
    repeat case_decide; try done;
    apply result_bind_neq;
    try (by destruct (slice _ _ _) as [|? [|? [|]]]);
    try (unfold bytes_decode_ascii; by case_match);
    try (intros p; apply result_bind_neq; [apply Hrec|by intros []]);
    try done.
  intros label. apply IH.
  intros i [Hi| ->%elem_of_singleton]%elem_of_union; [|lia].
  apply Hvis in Hi. lia.
Qed.

Lemma decode_name_never_detects depth buf start_idx :
  decode_name depth buf start_idx ≠ Raise LoopDetected.
Proof.
  revert start_idx. induction depth as [|depth IH]; intros start_idx; [done|].
  simpl. apply decode_name_loop_never_detects; [exact IH|].
  intros i Hi. by apply not_elem_of_empty in Hi.
Qed.

Lemma slice_2 (buf : bytes) idx b1 b0 :
  buf !! idx = Some b1 → buf !! S idx = Some b0 →
  slice buf idx (idx + 2) = [b1; b0].
Proof.
  intros H1 H0. unfold slice. replace (idx + 2 - idx)%nat with 2%nat by lia.
  by rewrite (drop_S _ _ _ H1), (drop_S _ _ _ H0).
Qed.

(** One turn of the loop at a compression pointer. *)
Lemma decode_name_loop_pointer rec buf fuel labels visited idx b1 b0 :
  idx ∉ visited →
  buf !! idx = Some b1 → buf !! S idx = Some b0 →
  Z.land (byte_val b1) 0xC0 = 0xC0 →
  decode_name_loop rec buf fuel labels visited idx =
  ('(domain, _) ← rec (Z.to_nat (Z.land (be16 b1 b0) 0x3FFF));
   Ok (join_dot (labels ++ [domain]), (idx + 2)%nat)).
Proof.
  intros Hvis H1 H0 Hptr. rewrite decode_name_loop_unfold.
  rewrite decide_False by done. rewrite H1.
  rewrite decide_False.
  2:{ intros Hz. rewrite Hz in Hptr. done. }
  rewrite decide_True by done.
  by rewrite (slice_2 _ _ _ _ H1 H0).
Qed.

(** C3: the code at a pointer that points to itself, and at two pointers
    that point to each other. Each recursive call starts from an empty
    [visited] set, so the chain is followed until Python's stack is used
    up, whatever the depth allowed: RecursionError, not the loop error;
    and on no buffer at all is the loop error raised. *)
Theorem decode_name_pointer_loop :
  (∀ depth, decode_name depth [xc0; x00] 0 = Raise RecursionError) ∧
  (∀ depth, decode_name depth [xc0; x02; xc0; x00] 0 = Raise RecursionError) ∧
  (∀ depth buf start_idx, decode_name depth buf start_idx ≠ Raise LoopDetected).
Proof.
  split; [|split].
  - induction depth as [|depth IH]; [done|].
    change (decode_name (S depth) [xc0; x00] 0)
      with (decode_name_loop (decode_name depth [xc0; x00]) [xc0; x00] 2 [] ∅ 0).
    rewrite (decode_name_loop_pointer _ _ _ _ _ _ xc0 x00)
      by (done || set_solver).
    change (Z.to_nat _) with 0%nat. by rewrite IH.
  - assert (H : ∀ depth,
      decode_name depth [xc0; x02; xc0; x00] 0 = Raise RecursionError ∧
      decode_name depth [xc0; x02; xc0; x00] 2 = Raise RecursionError).
    { induction depth as [|depth [IH0 IH2]]; [done|].
      split.
      - change (decode_name (S depth) ?b 0)
          with (decode_name_loop (decode_name depth b) b 4 [] ∅ 0).
        rewrite (decode_name_loop_pointer _ _ _ _ _ _ xc0 x02)
          by (done || set_solver).
        change (Z.to_nat _) with 2%nat. by rewrite IH2.
      - change (decode_name (S depth) ?b 2)
          with (decode_name_loop (decode_name depth b) b 4 [] ∅ 2).
        rewrite (decode_name_loop_pointer _ _ _ _ _ _ xc0 x00)
          by (done || set_solver).
        change (Z.to_nat _) with 0%nat. by rewrite IH0. }
    intros depth. apply H.
  - apply decode_name_never_detects.
Qed.

(** ** handle_dns_query on two queries *)

(** C1: the code on the query for [ads.example] (blocked), [b.example]
    (cached) and [c.example] (forwarded). The cached question is
    inserted at index 1 into the one-element forwarded list, so behind
    [c.example], and the blocked one then at index 0: the response lists
    the questions, and their answers, as [ads.example], [c.example],
    [b.example]. The cache update then pairs the original questions with
    these answers by position, and stores the answer of [b.example] under
    the question for [c.example]. *)
Theorem handle_dns_query_order_broken :
  decoded_questions 5 query_ads_b_c
  = Ok [question_ads; question_b; question_c] ∧
  decoded_answers 5 query_ads_b_c = Ok [] ∧
  ((example_handle query_ads_b_c example_store).1 ≫= decoded_questions 5)
  = Ok [question_ads; question_c; question_b] ∧
  ((example_handle query_ads_b_c example_store).1 ≫= decoded_answer_names 5)
  = Ok ["ads.example"; "c.example"; "b.example"] ∧
  data (example_handle query_ads_b_c example_store).2 !! question_c
  = Some (answer_b, (0 + inject_Z 300)%Q).
Proof. repeat split; by vm_compute. Qed.

(** The arrangement of the specification's scenario (cached, blocked,
    forwarded) does come back in the order of the query. *)
Example handle_dns_query_order_kept :
  decoded_questions 5 query_b_ads_c
  = Ok [question_b; question_ads; question_c] ∧
  ((example_handle query_b_ads_c example_store).1 ≫= decoded_questions 5)
  = Ok [question_b; question_ads; question_c] ∧
  ((example_handle query_b_ads_c example_store).1 ≫= decoded_answer_names 5)
  = Ok ["b.example"; "ads.example"; "c.example"].
Proof. repeat split; by vm_compute. Qed.

(** C7: a query that carries answers is not routed. [unpack_all] then
    returns a triple, which the assignment [header, questions = ...]
    cannot take: ValueError, before anything is classified or written. *)
Theorem handle_dns_query_rejects_answers
    fnmatch inet_aton resolver clock depth self buf s header questions answers :
  unpack_all depth buf = Ok (header, questions, Some answers) →
  ServerManager.handle_dns_query fnmatch inet_aton resolver clock depth self
    buf s = (Raise ValueError, s).
Proof.
  intros Hbuf. unfold ServerManager.handle_dns_query, lift, raise.
  unfold mbind at 1, M_bind. by rewrite Hbuf.
Qed.

Lemma handle_dns_query_rejects_answers_witness :
  (∃ header answers,
     unpack_all 5 query_with_answer
     = Ok (header, [DNSQuestion.mk "a.example" 1 1], Some answers)) ∧
  example_handle query_with_answer example_store
  = (Raise ValueError, example_store).
Proof.
  split.
  - eexists _, _. vm_compute. reflexivity.
  - eapply handle_dns_query_rejects_answers. vm_compute. reflexivity.
Defined.

(** ** The state monad *)

Lemma M_bind_Ok_inv {A B} (m : M A) (k : A → M B) s b s' :
  (m ≫= k) s = (Ok b, s') →
  ∃ a s1, m s = (Ok a, s1) ∧ k a s1 = (Ok b, s').
Proof.
  unfold mbind, M_bind. destruct (m s) as [[a|e] s1]; [eauto|done].
Qed.

Lemma M_bind_Ok {A B} (m : M A) (k : A → M B) s a s1 :
  m s = (Ok a, s1) → (m ≫= k) s = k a s1.
Proof. unfold mbind, M_bind. by intros ->. Qed.

Lemma lift_Ok_inv {A} (r : result A) s a s' :
  lift r s = (Ok a, s') → r = Ok a ∧ s' = s.
Proof. unfold lift. by intros [= -> ->]. Qed.

Lemma result_bind_Ok_inv {A B} (m : result A) (k : A → result B) b :
  m ≫= k = Ok b → ∃ a, m = Ok a ∧ k a = Ok b.
Proof. destruct m; cbn; [eauto|done]. Qed.

(** ** list.insert *)

Lemma list_insert_at_here {A} i (x : A) l : x ∈ list_insert_at i x l.
Proof. unfold list_insert_at. set_solver. Qed.

Lemma list_insert_at_mono {A} i (x y : A) l :
  y ∈ l → y ∈ list_insert_at i x l.
Proof.
  unfold list_insert_at. intros Hy.
  rewrite <- (take_drop i l) in Hy.
  apply elem_of_app in Hy as [Hy|Hy]; apply elem_of_app; [by left|].
  right. by apply list_elem_of_further.
Qed.

(** ** Blocked questions *)

Section blocked.
Context (fnmatch : string → string → bool) (inet_aton : string → result bytes)
  (resolver : bytes → result bytes) (clock : nat → Q) (depth : nat)
  (self : ServerManager.t).

Abbreviation splice_blocked := (ServerManager.splice_blocked inet_aton self).
Abbreviation route :=
  (ServerManager.route fnmatch inet_aton resolver clock depth self).
Abbreviation classify := (ServerManager.classify fnmatch clock self).

Lemma TimedCache_contains_total key s :
  ∃ b s', TimedCache.contains clock key s = (Ok b, s').
Proof.
  unfold TimedCache.contains, TimedCache.get, read_data, modify_data,
    TimedCache.time_time.
  unfold mbind, mret, M_bind, M_ret. simpl.
  destruct (data s !! key) as [[value expiry]|]; simpl; [|eauto].
  destruct (Qlt_le_dec _ _); simpl; eauto.
Qed.

Lemma classify_blocked i questions nq bl ca s nq' bl' ca' s' :
  classify i questions nq bl ca s = (Ok (nq', bl', ca'), s') →
  ∀ idx, idx ∈ bl' →
    idx ∈ bl ∨
    ∃ question pat,
      questions !! (idx - i)%nat = Some question ∧ (i ≤ idx)%nat ∧
      pat ∈ ServerManager.blocklist self ∧
      fnmatch (DNSQuestion.decoded_name question) pat = true.
Proof.
  revert i nq bl ca s.
  induction questions as [|q questions IH]; intros i nq bl ca s Hc idx Hidx.
  - simpl in Hc. injection Hc as _ <- _ _. by left.
  - simpl in Hc.
    destruct (TimedCache_contains_total q s) as (b & s1 & Hb).
    rewrite (M_bind_Ok _ _ _ _ _ Hb) in Hc.
    assert (Hlater : ∀ question pat,
      questions !! (idx - S i)%nat = Some question ∧ (S i ≤ idx)%nat ∧
      pat ∈ ServerManager.blocklist self ∧
      fnmatch (DNSQuestion.decoded_name question) pat = true →
      ∃ question pat,
        (q :: questions) !! (idx - i)%nat = Some question ∧ (i ≤ idx)%nat ∧
        pat ∈ ServerManager.blocklist self ∧
        fnmatch (DNSQuestion.decoded_name question) pat = true).
    { intros question pat (Hq & Hle & Hpat). exists question, pat.
      replace (idx - i)%nat with (S (idx - S i)) by lia.
      split_and!; [done|lia|apply Hpat..]. }
    destruct b.
    { destruct (IH _ _ _ _ _ Hc idx Hidx) as [?|(?&?&?)]; eauto. }
    destruct (existsb _ _) eqn:Hex.
    + destruct (IH _ _ _ _ _ Hc idx Hidx) as [Hin|(?&?&?)]; [|eauto].
      apply elem_of_app in Hin as [?|Hin]; [by left|].
      apply list_elem_of_singleton in Hin as ->. right.
      apply existsb_exists in Hex as (pat & Hpat & Hmatch).
      exists q, pat. rewrite Nat.sub_diag. split_and!; [done|lia| |done].
      by apply elem_of_elements, list_elem_of_In.
    + destruct (IH _ _ _ _ _ Hc idx Hidx) as [?|(?&?&?)]; eauto.
Qed.

Lemma splice_blocked_spec questions blocked rq ra rq' ra' :
  splice_blocked questions blocked rq ra = Ok (rq', ra') →
  (∀ a, a ∈ ra → a ∈ ra') ∧
  ∀ idx, idx ∈ blocked →
    ∃ question rdata,
      questions !! idx = Some question ∧
      inet_aton (ServerManager.redirect_ip self) = Ok rdata ∧
      Some (DNSAnswer.mk (DNSQuestion.decoded_name question)
              (DNSQuestion.type_ question) (DNSQuestion.type_ question)
              (ServerManager.default_blocking_ttl self) 4 rdata) ∈ ra'.
Proof.
  revert rq ra. induction blocked as [|i blocked IH]; intros rq ra Hs.
  - simpl in Hs. injection Hs as -> ->. split; [done|].
    intros idx Hidx. by apply elem_of_nil in Hidx.
  - simpl in Hs.
    apply result_bind_Ok_inv in Hs as (question & Hq & Hs).
    apply result_bind_Ok_inv in Hs as (answer & Ha & Hs).
    apply IH in Hs as [Hmono Hblocked].
    destruct (questions !! i) as [q|] eqn:Hqi; simpl in Hq; [|done].
    injection Hq as ->.
    unfold ServerManager.blocked_answer in Ha.
    apply result_bind_Ok_inv in Ha as (rdata & Hrdata & Ha).
    injection Ha as <-.
    split.
    + intros a Ha. by apply Hmono, list_insert_at_mono.
    + intros idx [->|Hidx]%elem_of_cons; [|by apply Hblocked].
      exists question, rdata. split_and!; [done..|].
      apply Hmono, list_insert_at_here.
Qed.

(** C5: every question classified as blocked gets, in the answers of
    the response, an answer with the question's name, the question's type
    as its type and also as its class, the default blocking ttl, rdlength
    4, and as rdata the bytes that [inet_aton] gives for the configured
    redirect address. *)
Theorem blocked_answer_fields header questions s
    new_questions blocked cached s1 recv_header recv_questions recv_answers s' :
  classify 0 questions [] [] [] s = (Ok (new_questions, blocked, cached), s1) →
  route header questions s
  = (Ok (recv_header, recv_questions, recv_answers), s') →
  ∀ idx, idx ∈ blocked →
    ∃ question answer,
      questions !! idx = Some question ∧
      (∃ pat, pat ∈ ServerManager.blocklist self ∧
              fnmatch (DNSQuestion.decoded_name question) pat = true) ∧
      Some answer ∈ recv_answers ∧
      DNSAnswer.decoded_name answer = DNSQuestion.decoded_name question ∧
      DNSAnswer.type_ answer = DNSQuestion.type_ question ∧
      DNSAnswer.class_ answer = DNSQuestion.type_ question ∧
      DNSAnswer.ttl answer = ServerManager.default_blocking_ttl self ∧
      DNSAnswer.rdlength answer = 4 ∧
      inet_aton (ServerManager.redirect_ip self) = Ok (DNSAnswer.rdata answer).
Proof.
  intros Hclass Hroute idx Hidx. unfold ServerManager.route in Hroute.
  rewrite (M_bind_Ok _ _ _ _ _ Hclass) in Hroute.
  apply M_bind_Ok_inv in Hroute as ([[h1 rq1] ra1] & s2 & _ & Hroute).
  apply M_bind_Ok_inv in Hroute as ([rq2 ra2] & s3 & _ & Hroute).
  apply M_bind_Ok_inv in Hroute as ([rq3 ra3] & s4 & Hsplice & Hroute).
  apply lift_Ok_inv in Hsplice as [Hsplice _].
  injection Hroute as _ _ -> _.
  apply splice_blocked_spec in Hsplice as [_ Hblocked].
  destruct (Hblocked idx Hidx) as (question & rdata & Hq & Hrdata & Hin).
  eexists question, _. split_and!; [done| |exact Hin|done..].
  destruct (classify_blocked _ _ _ _ _ _ _ _ _ _ Hclass idx Hidx)
    as [Hnil|(q & pat & Hq' & _ & Hpat & Hmatch)];
    [by apply elem_of_nil in Hnil|].
  rewrite Nat.sub_0_r, Hq in Hq'. injection Hq' as <-. eauto.
Qed.
End blocked.

Lemma blocked_answer_fields_witness :
  ∃ question answer,
    [question_ads; question_b; question_c] !! 0%nat = Some question ∧
    (∃ pat, pat ∈ ServerManager.blocklist example_server ∧
            fnmatch_glob (DNSQuestion.decoded_name question) pat = true) ∧
    Some answer ∈ [Some (DNSAnswer.mk "ads.example" 1 1 60 4 [x0a; x00; x00; x01]);
                   Some (DNSAnswer.mk "c.example" 1 1 30 4 [x09; x09; x09; x09]);
                   Some answer_b] ∧
    DNSAnswer.decoded_name answer = DNSQuestion.decoded_name question ∧
    DNSAnswer.type_ answer = DNSQuestion.type_ question ∧
    DNSAnswer.class_ answer = DNSQuestion.type_ question ∧
    DNSAnswer.ttl answer = 60 ∧
    DNSAnswer.rdlength answer = 4 ∧
    inet_aton_dotted "10.0.0.1" = Ok (DNSAnswer.rdata answer).
Proof.
  eapply (blocked_answer_fields fnmatch_glob inet_aton_dotted
            (echo_resolver 30 [x09; x09; x09; x09]) (λ _, 0%Q) 5 example_server
            (DNSHeader.mk 7 0 0 0 0 1 0 0 0 3 0 0 0)
            [question_ads; question_b; question_c] example_store
            [question_c] [0%nat] [1%nat]).
  - vm_compute. reflexivity.
  - vm_compute. reflexivity.
  - apply list_elem_of_here.
Defined.

(** ** The cache update *)

Section update_cache.
Context (clock : nat → Q).

Abbreviation update_cache := (ServerManager.update_cache clock).
Abbreviation contains := (TimedCache.contains clock).

Lemma contains_absent key s :
  data s !! key = None → contains key s = (Ok false, s).
Proof. intros H. unfold_M. by rewrite H. Qed.

Lemma contains_expired key s value expiry :
  data s !! key = Some (value, expiry) → (expiry < clock (reads s))%Q →
  contains key s = (Ok false, Store (delete key (data s)) (S (reads s))).
Proof.
  intros H Hlt. unfold_M. rewrite H. simpl.
  destruct (Qlt_le_dec expiry (clock (reads s))) as [_|Hle]; [done|].
  exfalso. apply (Qlt_not_le _ _ Hlt Hle).
Qed.

Lemma contains_live key s value expiry :
  data s !! key = Some (value, expiry) → ¬ (expiry < clock (reads s))%Q →
  contains key s = (Ok true, Store (data s) (S (reads s))).
Proof.
  intros H Hlt. unfold_M. rewrite H. simpl.
  by destruct (Qlt_le_dec expiry (clock (reads s))).
Qed.

(** What [contains] can do to the store. *)
Lemma contains_cases key s :
  (data s !! key = None ∧ contains key s = (Ok false, s)) ∨
  (∃ value expiry, data s !! key = Some (value, expiry) ∧
     (expiry < clock (reads s))%Q ∧
     contains key s = (Ok false, Store (delete key (data s)) (S (reads s)))) ∨
  (∃ value expiry, data s !! key = Some (value, expiry) ∧
     ¬ (expiry < clock (reads s))%Q ∧
     contains key s = (Ok true, Store (data s) (S (reads s)))).
Proof.
  destruct (data s !! key) as [[value expiry]|] eqn:H.
  - right. destruct (Qlt_le_dec expiry (clock (reads s))) as [Hlt|Hle].
    + left. exists value, expiry. eauto using contains_expired.
    + right. exists value, expiry. split_and!; [done| |].
      * by apply Qle_not_lt.
      * eapply contains_live; [done|]. by apply Qle_not_lt.
  - left. eauto using contains_absent.
Qed.

Lemma update_cache_cons key answer pairs s :
  update_cache ((key, answer) :: pairs) s =
  match contains key s with
  | (Ok true, s1) => update_cache pairs s1
  | (Ok false, s1) =>
      match answer with
      | None => (Raise AttributeError, s1)
      | Some a =>
          update_cache pairs
            (Store (<[key := (a, (clock (reads s1) + inject_Z (DNSAnswer.ttl a))%Q)]>
                      (data s1))
                   (S (reads s1)))
      end
  | (Raise e, s1) => (Raise e, s1)
  end.
Proof.
  simpl. unfold mbind at 1, M_bind at 1.
  destruct (contains key s) as [[[]|e] s1]; [done| |done].
  destruct answer as [a|]; [|done].
  unfold mbind, M_bind, TimedCache.set, TimedCache.time_time, modify_data.
  done.
Qed.

(** One turn of the loop leaves every other key alone, and the clock is
    only read forwards. *)
Lemma update_cache_frame pairs s r s' :
  update_cache pairs s = (r, s') →
  (reads s ≤ reads s')%nat ∧
  ∀ key, key ∉ pairs.*1 → data s' !! key = data s !! key.
Proof.
  revert s. induction pairs as [|[q oa] pairs IH]; intros s Hrun.
  - injection Hrun as _ <-. done.
  - rewrite update_cache_cons in Hrun.
    assert (Hstep : ∀ s1 d,
      (reads s ≤ reads s1)%nat →
      (∀ key, key ≠ q → d !! key = data s !! key) →
      update_cache pairs (Store d (S (reads s1))) = (r, s') →
      (reads s ≤ reads s')%nat ∧
      ∀ key, key ∉ ((q, oa) :: pairs).*1 → data s' !! key = data s !! key).
    { intros s1 d Hle Hd Hrest. apply IH in Hrest as [Hle' Hframe].
      simpl in *. split; [lia|].
      intros key [Hne Hnotin]%not_elem_of_cons.
      rewrite Hframe by done. simpl. by apply Hd. }
    destruct (contains_cases q s)
      as [[Hq Hc]|[(v & e & Hq & Hlt & Hc)|(v & e & Hq & Hlt & Hc)]];
      rewrite Hc in Hrun.
    + destruct oa as [a|].
      * eapply (Hstep s); [done| |exact Hrun].
        intros key Hne. by rewrite lookup_insert_ne.
      * injection Hrun as _ <-. done.
    + destruct oa as [a|].
      * eapply (Hstep (Store _ (S (reads s)))); [simpl; lia| |exact Hrun].
        intros key Hne. simpl. rewrite lookup_insert_ne by done.
        by rewrite lookup_delete_ne.
      * injection Hrun as _ <-. simpl. split; [lia|].
        intros key [Hne _]%not_elem_of_cons. by rewrite lookup_delete_ne.
    + apply IH in Hrun as [Hle' Hframe]. simpl in *. split; [lia|].
      intros key [Hne Hnotin]%not_elem_of_cons. by rewrite Hframe.
Qed.

(** An entry that stays unexpired is never overwritten. *)
Lemma update_cache_keeps_live pairs s r s' key value expiry :
  update_cache pairs s = (r, s') →
  data s !! key = Some (value, expiry) →
  (∀ n, (reads s ≤ n)%nat → ¬ (expiry < clock n)%Q) →
  data s' !! key = Some (value, expiry).
Proof.
  revert s. induction pairs as [|[q oa] pairs IH]; intros s Hrun Hkey Hlive.
  - by injection Hrun as _ <-.
  - rewrite update_cache_cons in Hrun.
    destruct (decide (q = key)) as [->|Hne].
    + rewrite (contains_live _ _ _ _ Hkey) in Hrun by (apply Hlive; lia).
      eapply IH; [exact Hrun|done|]. simpl. intros n Hn. apply Hlive. lia.
    + destruct (contains_cases q s)
        as [[Hq Hc]|[(v & e & Hq & Hlt & Hc)|(v & e & Hq & Hlt & Hc)]];
        rewrite Hc in Hrun.
      * destruct oa as [a|]; [|by injection Hrun as _ <-].
        eapply IH; [exact Hrun| |].
        -- simpl. by rewrite lookup_insert_ne.
        -- simpl. intros n Hn. apply Hlive. lia.
      * destruct oa as [a|].
        -- eapply IH; [exact Hrun| |].
           ++ simpl. rewrite lookup_insert_ne by done.
              by rewrite lookup_delete_ne.
           ++ simpl. intros n Hn. apply Hlive. lia.
        -- injection Hrun as _ <-. simpl. by rewrite lookup_delete_ne.
      * eapply IH; [exact Hrun|done|]. simpl. intros n Hn. apply Hlive. lia.
Qed.

(** C8: the loop over [zip(questions, recv_answers)]. At its turn, a pair
    whose question is absent from the cache, or present but expired, is
    stored under the question with the expiry "time of the store plus the
    answer's ttl"; a pair whose question is present and unexpired changes
    nothing. So no entry that stays unexpired is overwritten, and, the
    questions being distinct, every pair whose question was absent is in
    the cache when the loop ends, whichever source its answer came from. *)
Theorem update_cache_spec :
  (∀ question answer pairs s,
     data s !! question = None →
     update_cache ((question, Some answer) :: pairs) s =
     update_cache pairs
       (Store (<[question := (answer, (clock (reads s)
                                       + inject_Z (DNSAnswer.ttl answer))%Q)]>
                 (data s)) (S (reads s)))) ∧
  (∀ question answer pairs s value expiry,
     data s !! question = Some (value, expiry) →
     (expiry < clock (reads s))%Q →
     update_cache ((question, Some answer) :: pairs) s =
     update_cache pairs
       (Store (<[question := (answer, (clock (S (reads s))
                                       + inject_Z (DNSAnswer.ttl answer))%Q)]>
                 (data s)) (S (S (reads s))))) ∧
  (∀ question answer pairs s value expiry,
     data s !! question = Some (value, expiry) →
     ¬ (expiry < clock (reads s))%Q →
     update_cache ((question, answer) :: pairs) s =
     update_cache pairs (Store (data s) (S (reads s)))) ∧
  (∀ pairs s r s' question value expiry,
     update_cache pairs s = (r, s') →
     data s !! question = Some (value, expiry) →
     (∀ n, (reads s ≤ n)%nat → ¬ (expiry < clock n)%Q) →
     data s' !! question = Some (value, expiry)) ∧
  (∀ pairs s s' question answer,
     NoDup pairs.*1 →
     update_cache pairs s = (Ok (), s') →
     (question, Some answer) ∈ pairs →
     data s !! question = None →
     ∃ n, (reads s ≤ n)%nat ∧
       data s' !! question
       = Some (answer, (clock n + inject_Z (DNSAnswer.ttl answer))%Q)).
Proof.
  split_and!.
  - intros q a pairs s Hq.
    by rewrite update_cache_cons, (contains_absent _ _ Hq).
  - intros q a pairs s v e Hq Hlt.
    rewrite update_cache_cons, (contains_expired _ _ _ _ Hq Hlt). simpl.
    by rewrite insert_delete_eq.
  - intros q a pairs s v e Hq Hlive.
    by rewrite update_cache_cons, (contains_live _ _ _ _ Hq Hlive).
  - intros pairs s r s' q v e. apply update_cache_keeps_live.
  - intros pairs. induction pairs as [|[q oa] pairs IH];
      intros s s' question answer Hdup Hrun Hin Habsent.
    { by apply elem_of_nil in Hin. }
    simpl in Hdup. apply NoDup_cons in Hdup as [Hnotin Hdup].
    rewrite update_cache_cons in Hrun.
    apply elem_of_cons in Hin as [[= <- <-]|Hin].
    + rewrite (contains_absent _ _ Habsent) in Hrun.
      apply update_cache_frame in Hrun as [_ Hframe].
      exists (reads s). split; [done|].
      rewrite Hframe by done. simpl. by rewrite lookup_insert_eq.
    + assert (Hne : q ≠ question).
      { intros ->. apply Hnotin.
        apply list_elem_of_fmap. by exists (question, Some answer). }
      assert (Hstep : ∀ s1 d,
        (reads s ≤ reads s1)%nat → d !! question = None →
        update_cache pairs (Store d (S (reads s1))) = (Ok (), s') →
        ∃ n, (reads s ≤ n)%nat ∧
          data s' !! question
          = Some (answer, (clock n + inject_Z (DNSAnswer.ttl answer))%Q)).
      { intros s1 d Hle Hd Hrest.
        destruct (IH _ _ _ _ Hdup Hrest Hin Hd) as (n & Hn & Hfinal).
        exists n. simpl in Hn. split; [lia|done]. }
      destruct (contains_cases q s)
        as [[Hq Hc]|[(v & e & Hq & Hlt & Hc)|(v & e & Hq & Hlt & Hc)]];
        rewrite Hc in Hrun.
      * destruct oa as [a|]; [|done].
        eapply (Hstep s); [done| |exact Hrun]. by rewrite lookup_insert_ne.
      * destruct oa as [a|]; [|done].
        eapply (Hstep (Store _ (S (reads s)))); [simpl; lia| |exact Hrun].
        simpl. rewrite lookup_insert_ne by done. by rewrite lookup_delete_ne.
      * eapply (Hstep s); [done|exact Habsent|exact Hrun].
Qed.
End update_cache.

Lemma update_cache_spec_witness :
  ∃ n, (0 ≤ n)%nat ∧
    data (ServerManager.update_cache (λ _, 5%Q)
            [(question_a, Some answer_a)] (Store ∅ 0)).2 !! question_a
    = Some (answer_a, (5 + inject_Z 300)%Q).
Proof.
  destruct (update_cache_spec (λ _, 5%Q)) as (_ & _ & _ & _ & H).
  apply (H [(question_a, Some answer_a)] (Store ∅ 0)).
  - apply NoDup_singleton.
  - reflexivity.
  - apply list_elem_of_here.
  - reflexivity.
Defined.

(** ** Slices *)

Lemma length_slice (buf : bytes) i j :
  length (slice buf i j) = ((j - i) `min` (length buf - i))%nat.
Proof. unfold slice. by rewrite length_take, length_drop. Qed.

Lemma slice_app_l (buf t : bytes) i j :
  (j ≤ length buf)%nat → slice (buf ++ t) i j = slice buf i j.
Proof.
  intros Hj. unfold slice.
  destruct (decide (i ≤ length buf)%nat) as [Hi|Hi].
  - rewrite drop_app_le by done. rewrite take_app_le; [done|].
    rewrite length_drop. lia.
  - by replace (j - i)%nat with 0%nat by lia.
Qed.

Lemma slice_full_app_l (buf t : bytes) i n :
  length (slice buf i (i + n)) = n →
  slice (buf ++ t) i (i + n) = slice buf i (i + n).
Proof.
  rewrite length_slice. intros Hn.
  destruct (decide (n = 0%nat)) as [->|Hpos].
  - unfold slice. by replace (i + 0 - i)%nat with 0%nat by lia.
  - apply slice_app_l. lia.
Qed.

Lemma slice_exact (pre mid post : bytes) :
  slice (pre ++ mid ++ post) (length pre) (length pre + length mid) = mid.
Proof.
  unfold slice. rewrite drop_app_length.
  replace (length pre + length mid - length pre)%nat with (length mid) by lia.
  by rewrite take_app_length.
Qed.

Lemma unpack_H_Ok (bs : bytes) v : unpack_H bs = Ok v → length bs = 2%nat.
Proof. by destruct bs as [|? [|? [|]]]. Qed.

Lemma unpack_HH_Ok (bs : bytes) v : unpack_HH bs = Ok v → length bs = 4%nat.
Proof. by destruct bs as [|? [|? [|? [|? [|]]]]]. Qed.

Lemma unpack_I_Ok (bs : bytes) v : unpack_I bs = Ok v → length bs = 4%nat.
Proof. by destruct bs as [|? [|? [|? [|? [|]]]]]. Qed.

(** ** decode_name: fuel, bounds, and bytes behind the name *)

(** The loop's fuel is never used up: any two amounts that cover the rest
    of the buffer give the same result. *)
Lemma decode_name_loop_fuel rec buf f1 f2 labels visited idx :
  (length buf ≤ idx + f1)%nat → (length buf ≤ idx + f2)%nat →
  decode_name_loop rec buf f1 labels visited idx
  = decode_name_loop rec buf f2 labels visited idx.
Proof.
  revert f2 labels visited idx.
  induction f1 as [|f1 IH]; intros f2 labels visited idx H1 H2;
    rewrite (decode_name_loop_unfold _ _ f2), decode_name_loop_unfold;
    case_decide; [done| |done|];
    (destruct (buf !! idx) as [len|] eqn:Hlen; [|done]);
    apply lookup_lt_Some in Hlen;
    repeat case_decide; try done.
  - lia.
  - destruct f2 as [|f2]; [lia|].
    destruct (bytes_decode_ascii _) as [label|]; [|done]. cbn.
    apply IH; lia.
Qed.

(** A name that decodes lies inside the buffer. *)
Lemma decode_name_loop_bounds rec buf fuel labels visited idx name idx' :
  decode_name_loop rec buf fuel labels visited idx = Ok (name, idx') →
  (idx < idx' ≤ length buf)%nat.
Proof.
  revert labels visited idx.
  induction fuel as [|fuel IH]; intros labels visited idx;
    rewrite decode_name_loop_unfold;
    (case_decide; [done|]);
    (destruct (buf !! idx) as [len|] eqn:Hlen; [|done]);
    apply lookup_lt_Some in Hlen;
    repeat case_decide.
  1,4: intros [= _ <-]; lia.
  1,3: intros (p & Hp & Hrec)%result_bind_Ok_inv;
       apply unpack_H_Ok in Hp; rewrite length_slice in Hp;
       apply result_bind_Ok_inv in Hrec as ([domain ?] & _ & [= _ <-]); lia.
  - by intros (label & _ & ?)%result_bind_Ok_inv.
  - intros (label & _ & Hrest%IH)%result_bind_Ok_inv. lia.
Qed.

Lemma decode_name_bounds depth buf idx name idx' :
  decode_name depth buf idx = Ok (name, idx') → (idx < idx' ≤ length buf)%nat.
Proof. destruct depth; [done|]. apply decode_name_loop_bounds. Qed.

(** Bytes added behind the buffer, more fuel, and a recursive call that
    decodes more, do not change a name that decodes. *)
Lemma decode_name_loop_app rec rec' buf t fuel fuel' labels visited idx r :
  (∀ p r, rec p = Ok r → rec' p = Ok r) → (fuel ≤ fuel')%nat →
  decode_name_loop rec buf fuel labels visited idx = Ok r →
  decode_name_loop rec' (buf ++ t) fuel' labels visited idx = Ok r.
Proof.
  intros Hrec. revert fuel' labels visited idx.
  induction fuel as [|fuel IH]; intros fuel' labels visited idx Hfuel;
    rewrite (decode_name_loop_unfold _ _ fuel'), decode_name_loop_unfold;
    (case_decide; [done|]);
    (destruct (buf !! idx) as [len|] eqn:Hlen; [|done]);
    rewrite (lookup_app_l_Some _ _ _ _ Hlen);
    repeat case_decide; try done.
  1,3: intros (p & Hp & Hr)%result_bind_Ok_inv;
       rewrite (slice_full_app_l _ _ _ 2) by (by apply unpack_H_Ok in Hp);
       rewrite Hp; cbn;
       apply result_bind_Ok_inv in Hr as ([domain ?] & Hd & Hr);
       by rewrite (Hrec _ _ Hd).
  - by intros (label & _ & ?)%result_bind_Ok_inv.
  - intros (label & Hlabel & Hrest)%result_bind_Ok_inv.
    destruct r as [name idx'].
    pose proof (decode_name_loop_bounds _ _ _ _ _ _ _ _ Hrest) as Hb.
    rewrite slice_app_l by lia. rewrite Hlabel. cbn.
    destruct fuel' as [|fuel']; [lia|].
    apply IH; [lia|done].
Qed.

Lemma decode_name_app depth depth' buf t idx r :
  (depth ≤ depth')%nat →
  decode_name depth buf idx = Ok r → decode_name depth' (buf ++ t) idx = Ok r.
Proof.
  revert depth' idx r.
  induction depth as [|depth IH]; intros depth' idx r Hd; [done|].
  destruct depth' as [|depth']; [lia|]. simpl.
  apply decode_name_loop_app.
  - intros p r'. apply IH. lia.
  - rewrite length_app. lia.
Qed.

(** ** unpack_all: how it fails *)

Lemma result_bind_Raise_inv {A B} (m : result A) (k : A → result B) e :
  m ≫= k = Raise e → m = Raise e ∨ ∃ a, m = Ok a ∧ k a = Raise e.
Proof. destruct m; cbn; [eauto|]. intros [= ->]. by left. Qed.

Lemma unpack_H_Raise bs e : unpack_H bs = Raise e → e = StructError.
Proof. destruct bs as [|? [|? [|]]]; simpl; congruence. Qed.

Lemma unpack_HH_Raise bs e : unpack_HH bs = Raise e → e = StructError.
Proof. destruct bs as [|? [|? [|? [|? [|]]]]]; simpl; congruence. Qed.

Lemma unpack_I_Raise bs e : unpack_I bs = Raise e → e = StructError.
Proof. destruct bs as [|? [|? [|? [|? [|]]]]]; simpl; congruence. Qed.

Lemma bytes_decode_ascii_Raise bs e :
  bytes_decode_ascii bs = Raise e → e = UnicodeDecodeError.
Proof. unfold bytes_decode_ascii. case_match; congruence. Qed.

Lemma decode_name_loop_errors rec buf fuel labels visited idx e :
  (∀ p e, rec p = Raise e → decode_error e) →
  (∀ i, i ∈ visited → (i < idx)%nat) →
  decode_name_loop rec buf fuel labels visited idx = Raise e → decode_error e.
Proof.
  intros Hrec. revert labels visited idx.
  induction fuel as [|fuel IH]; intros labels visited idx Hvis;
    rewrite decode_name_loop_unfold;
    (destruct (decide (idx ∈ visited)) as [Hin|_];
       [apply Hvis in Hin; lia|]);
    (destruct (buf !! idx) as [len|]; [|intros [= <-]; by left]);
    repeat case_decide; try done.
  1,3: intros [Hp|(p & _ & [Hd|([domain ?] & _ & ?)]%result_bind_Raise_inv)]
         %result_bind_Raise_inv;
       [apply unpack_H_Raise in Hp as ->; right; by left
       |by apply Hrec in Hd|done].
  - intros [Hl|(label & _ & [= <-])]%result_bind_Raise_inv; [|by left].
    apply bytes_decode_ascii_Raise in Hl as ->. right; right; by left.
  - intros [Hl|(label & _ & Hrest)]%result_bind_Raise_inv.
    + apply bytes_decode_ascii_Raise in Hl as ->. right; right; by left.
    + eapply IH; [|exact Hrest].
      intros i [Hi| ->%elem_of_singleton]%elem_of_union; [|lia].
      apply Hvis in Hi. lia.
Qed.

Lemma decode_name_errors depth buf idx e :
  decode_name depth buf idx = Raise e → decode_error e.
Proof.
  revert idx e. induction depth as [|depth IH]; intros idx e.
  - intros [= <-]. by repeat right.
  - simpl. apply decode_name_loop_errors; [exact IH|].
    intros i Hi. by apply not_elem_of_empty in Hi.
Qed.

Lemma unpack_questions_errors depth buf n idx e :
  unpack_questions depth buf n idx = Raise e → decode_error e.
Proof.
  revert idx. induction n as [|n IH]; intros idx; simpl; [done|].
  intros [Hn|([name i1] & _ & H)]%result_bind_Raise_inv;
    [by apply decode_name_errors in Hn|].
  apply result_bind_Raise_inv in H as [Hf|([t c] & _ & H)];
    [apply unpack_HH_Raise in Hf as ->; right; by left|].
  apply result_bind_Raise_inv in H as [Hr|([qs i2] & _ & ?)]; [|done].
  by apply IH in Hr.
Qed.

Lemma unpack_answers_errors depth buf n idx e :
  unpack_answers depth buf n idx = Raise e → decode_error e.
Proof.
  revert idx. induction n as [|n IH]; intros idx; simpl; [done|].
  intros [Hn|([name i1] & _ & H)]%result_bind_Raise_inv;
    [by apply decode_name_errors in Hn|].
  apply result_bind_Raise_inv in H as [Hf|([t c] & _ & H)];
    [apply unpack_HH_Raise in Hf as ->; right; by left|].
  apply result_bind_Raise_inv in H as [Hf|(ttl & _ & H)];
    [apply unpack_I_Raise in Hf as ->; right; by left|].
  apply result_bind_Raise_inv in H as [Hf|(rdlength & _ & H)];
    [apply unpack_H_Raise in Hf as ->; right; by left|].
  apply result_bind_Raise_inv in H as [Hr|([qs i2] & _ & ?)]; [|done].
  by apply IH in Hr.
Qed.

Lemma unpack_HHHHHH_Ok bs u : unpack_HHHHHH bs = Ok u → length bs = 12%nat.
Proof. do 12 (destruct bs as [|? bs]; [done|]). by destruct bs. Qed.

Lemma unpack_HHHHHH_Raise bs e : unpack_HHHHHH bs = Raise e → e = StructError.
Proof.
  do 12 (destruct bs as [|? bs]; [simpl; congruence|]).
  destruct bs; simpl; congruence.
Qed.

Lemma from_buffer_Ok buf header :
  DNSHeader.from_buffer buf = Ok header → (12 ≤ length buf)%nat.
Proof.
  unfold DNSHeader.from_buffer.
  intros (u & Hu & _)%result_bind_Ok_inv.
  apply unpack_HHHHHH_Ok in Hu. rewrite length_take in Hu. lia.
Qed.

Lemma from_buffer_Raise buf e :
  DNSHeader.from_buffer buf = Raise e → e = StructError.
Proof.
  unfold DNSHeader.from_buffer.
  intros [Hu|([[[[[? ?] ?] ?] ?] ?] & _ & ?)]%result_bind_Raise_inv; [|done].
  by apply unpack_HHHHHH_Raise in Hu.
Qed.

(** ** unpack_all: the records it has read *)

Lemma slice_app_mid (buf : bytes) i j k :
  (i ≤ j)%nat → (j ≤ k)%nat →
  slice buf i j ++ slice buf j k = slice buf i k.
Proof.
  intros Hij Hjk. unfold slice.
  replace (drop j buf) with (drop (j - i) (drop i buf))
    by (rewrite drop_drop; f_equal; lia).
  rewrite take_take_drop. f_equal. lia.
Qed.

Lemma slice_full_inside (buf : bytes) i n :
  length (slice buf i (i + n)) = n → (n ≠ 0)%nat → (i + n ≤ length buf)%nat.
Proof. rewrite length_slice. lia. Qed.

Lemma slice_short (buf : bytes) i n :
  (0 < n)%nat → (length buf < i + n)%nat →
  (length (slice buf i (i + n)) < n)%nat.
Proof. rewrite length_slice. lia. Qed.

Lemma unpack_H_inv bs v :
  unpack_H bs = Ok v → ∃ b1 b0, bs = [b1; b0] ∧ v = be16 b1 b0.
Proof. destruct bs as [|b1 [|b0 [|]]]; try done. intros [= <-]. eauto. Qed.

Lemma unpack_HH_inv bs v :
  unpack_HH bs = Ok v →
  ∃ a1 a0 b1 b0, bs = [a1; a0; b1; b0] ∧ v = (be16 a1 a0, be16 b1 b0).
Proof.
  destruct bs as [|a1 [|a0 [|b1 [|b0 [|]]]]]; try done.
  intros [= <-]. by eexists _, _, _, _.
Qed.

Lemma unpack_I_inv bs v :
  unpack_I bs = Ok v →
  ∃ b3 b2 b1 b0, bs = [b3; b2; b1; b0] ∧ v = be32 b3 b2 b1 b0.
Proof.
  destruct bs as [|b3 [|b2 [|b1 [|b0 [|]]]]]; try done.
  intros [= <-]. by eexists _, _, _, _.
Qed.

Lemma unpack_H_short bs : (length bs < 2)%nat → unpack_H bs = Raise StructError.
Proof. destruct bs as [|? [|? [|]]]; simpl; [done..|lia|lia]. Qed.

Lemma unpack_HH_short bs :
  (length bs < 4)%nat → unpack_HH bs = Raise StructError.
Proof. destruct bs as [|? [|? [|? [|? [|]]]]]; simpl; try done; lia. Qed.

Lemma unpack_I_short bs : (length bs < 4)%nat → unpack_I bs = Raise StructError.
Proof. destruct bs as [|? [|? [|? [|? [|]]]]]; simpl; try done; lia. Qed.

Lemma unpack_HHHHHH_short bs :
  (length bs < 12)%nat → unpack_HHHHHH bs = Raise StructError.
Proof.
  intros Hlen. do 12 (destruct bs as [|? bs]; [done|]). simpl in Hlen. lia.
Qed.

Lemma unpack_questions_read depth buf n idx questions idx' :
  unpack_questions depth buf n idx = Ok (questions, idx') →
  length questions = n ∧ questions_read depth buf idx questions idx'.
Proof.
  revert idx questions idx'.
  induction n as [|n IH]; intros idx questions idx'; simpl.
  - intros [= <- <-]. split; [done|constructor].
  - intros ([name i1] & Hname & H)%result_bind_Ok_inv.
    apply result_bind_Ok_inv in H as ([type_ class_] & Hfields & H).
    apply result_bind_Ok_inv in H as ([qs i2] & Hrest & [= <- <-]).
    pose proof (unpack_HH_Ok _ _ Hfields) as Hlen.
    apply slice_full_inside in Hlen; [|done].
    apply unpack_HH_inv in Hfields as (t1 & t0 & c1 & c0 & Hs & [= -> ->]).
    apply IH in Hrest as [<- Hrest]. split; [done|].
    by econstructor.
Qed.

Lemma unpack_answers_read depth buf n idx answers idx' :
  unpack_answers depth buf n idx = Ok (answers, idx') →
  length answers = n ∧ answers_read depth buf idx answers idx'.
Proof.
  revert idx answers idx'.
  induction n as [|n IH]; intros idx answers idx'; simpl.
  - intros [= <- <-]. split; [done|constructor].
  - intros ([name i1] & Hname & H)%result_bind_Ok_inv.
    apply result_bind_Ok_inv in H as ([type_ class_] & Hfields & H).
    apply result_bind_Ok_inv in H as (ttl & Httl & H).
    apply result_bind_Ok_inv in H as (rdlength & Hrdlength & H).
    apply result_bind_Ok_inv in H as ([rest i2] & Hrest & [= <- <-]).
    pose proof (unpack_H_Ok _ _ Hrdlength) as Hlen.
    apply slice_full_inside in Hlen; [|done].
    apply unpack_HH_inv in Hfields as (t1 & t0 & c1 & c0 & Hs1 & [= -> ->]).
    apply unpack_I_inv in Httl as (l3 & l2 & l1 & l0 & Hs2 & ->).
    apply unpack_H_inv in Hrdlength as (n1 & n0 & Hs3 & ->).
    replace (i1 + 4 + 4 + 2)%nat with (i1 + 10)%nat in * by lia.
    apply IH in Hrest as [<- Hrest]. split; [done|].
    econstructor; [done|lia| |done].
    rewrite <- (slice_app_mid buf i1 (i1 + 4) (i1 + 10)) by lia.
    rewrite <- (slice_app_mid buf (i1 + 4) (i1 + 4 + 4) (i1 + 10)) by lia.
    by rewrite Hs1, Hs2, Hs3.
Qed.

(** Each question takes five bytes or more of the buffer. *)
Lemma questions_read_size depth buf idx questions idx' :
  questions_read depth buf idx questions idx' →
  (idx + 5 * length questions ≤ idx')%nat ∧
  ((idx ≤ length buf)%nat → (idx' ≤ length buf)%nat).
Proof.
  induction 1 as [idx|idx name i1 t1 t0 c1 c0 qs idx' Hname Hin _ _ [IH1 IH2]];
    [simpl; lia|].
  apply decode_name_bounds in Hname. cbn [length]. lia.
Qed.

(** Each answer takes eleven bytes or more of the buffer, its rdata apart;
    an answer that another one follows has all its rdata. *)
Lemma answers_read_size depth buf idx answers idx' :
  answers_read depth buf idx answers idx' →
  ((idx ≤ length buf)%nat → (idx + 11 * length answers ≤ length buf)%nat) ∧
  (answers ≠ [] → (idx < length buf)%nat) ∧
  (∀ i a, answers !! i = Some a → (S i < length answers)%nat →
          rdata_complete a) ∧
  Forall (λ a, Z.of_nat (length (DNSAnswer.rdata a)) ≤ DNSAnswer.rdlength a)
    answers.
Proof.
  induction 1 as [idx|idx name i1 t1 t0 c1 c0 l3 l2 l1 l0 n1 n0 rest idx'
                      Hname Hin Hs _ (IH1 & IH2 & IH3 & IH4)].
  - split_and!; [simpl; lia|done| |done].
    intros i a Hi. by rewrite lookup_nil in Hi.
  - apply decode_name_bounds in Hname.
    assert (0 ≤ be16 n1 n0) as Hpos.
    { unfold be16. pose proof (byte_val_range n1).
      pose proof (byte_val_range n0). lia. }
    pose proof (length_slice buf (i1 + 10) (i1 + 10 + Z.to_nat (be16 n1 n0)))
      as Hrdata.
    split_and!.
    + intros _. destruct rest as [|a rest]; [simpl; lia|].
      specialize (IH2 ltac:(done)). specialize (IH1 ltac:(lia)).
      simpl in *. lia.
    + intros _. lia.
    + intros [|i] a Hi Hlt; simpl in *.
      * injection Hi as <-. unfold rdata_complete. simpl.
        destruct rest as [|a rest]; [simpl in Hlt; lia|].
        specialize (IH2 ltac:(done)). lia.
      * apply (IH3 i a Hi). lia.
    + constructor; [|done]. simpl. lia.
Qed.

(** ** decode_name: a read beyond the end of the buffer *)

Lemma decode_name_loop_beyond rec buf fuel labels visited idx :
  (∀ i, i ∈ visited → (i < idx)%nat) → (length buf ≤ idx)%nat →
  decode_name_loop rec buf fuel labels visited idx = Raise IndexError.
Proof.
  intros Hvis Hidx. rewrite decode_name_loop_unfold.
  destruct (decide (idx ∈ visited)) as [Hin|_]; [apply Hvis in Hin; lia|].
  by rewrite lookup_ge_None_2.
Qed.

Lemma decode_name_loop_pointer_beyond rec buf fuel labels visited idx b :
  (∀ i, i ∈ visited → (i < idx)%nat) → buf !! idx = Some b →
  Z.land (byte_val b) 0xC0 = 0xC0 → (length buf < idx + 2)%nat →
  decode_name_loop rec buf fuel labels visited idx = Raise StructError.
Proof.
  intros Hvis Hb Hptr Hidx. rewrite decode_name_loop_unfold.
  destruct (decide (idx ∈ visited)) as [Hin|_]; [apply Hvis in Hin; lia|].
  rewrite Hb. rewrite decide_False by (intros Hz; by rewrite Hz in Hptr).
  rewrite decide_True by done.
  rewrite unpack_H_short; [done|]. apply slice_short; lia.
Qed.

Lemma decode_name_loop_label_beyond rec buf fuel labels visited idx b :
  (∀ i, i ∈ visited → (i < idx)%nat) → buf !! idx = Some b →
  byte_val b ≠ 0 → Z.land (byte_val b) 0xC0 ≠ 0xC0 →
  (length buf ≤ idx + 1 + byte_nat b)%nat →
  decode_name_loop rec buf fuel labels visited idx = Raise IndexError ∨
  decode_name_loop rec buf fuel labels visited idx = Raise UnicodeDecodeError.
Proof.
  intros Hvis Hb Hnz Hlabel Hidx. rewrite decode_name_loop_unfold.
  destruct (decide (idx ∈ visited)) as [Hin|_]; [apply Hvis in Hin; lia|].
  rewrite Hb, decide_False, decide_False by done.
  destruct (bytes_decode_ascii _) as [label|e] eqn:Hlabel'; cbn.
  - left. destruct fuel as [|fuel]; [done|].
    apply decode_name_loop_beyond; [|done].
    intros i [Hi| ->%elem_of_singleton]%elem_of_union; [|lia].
    apply Hvis in Hi. lia.
  - right. by apply bytes_decode_ascii_Raise in Hlabel' as ->.
Qed.

Lemma unpack_questions_beyond depth buf n idx name i1 :
  decode_name depth buf idx = Ok (name, i1) → (length buf < i1 + 4)%nat →
  unpack_questions depth buf (S n) idx = Raise StructError.
Proof.
  intros Hname Hlen. simpl. rewrite Hname. cbn.
  rewrite unpack_HH_short; [done|]. apply slice_short; lia.
Qed.

Lemma unpack_answers_beyond depth buf n idx name i1 :
  decode_name depth buf idx = Ok (name, i1) → (length buf < i1 + 10)%nat →
  unpack_answers depth buf (S n) idx = Raise StructError.
Proof.
  intros Hname Hlen. simpl. rewrite Hname. cbn.
  destruct (unpack_HH _) as [[type_ class_]|e] eqn:Hfields;
    [|by apply unpack_HH_Raise in Hfields as ->].
  apply unpack_HH_Ok, slice_full_inside in Hfields; [|done]. cbn.
  destruct (unpack_I _) as [ttl|e] eqn:Httl;
    [|by apply unpack_I_Raise in Httl as ->].
  apply unpack_I_Ok, slice_full_inside in Httl; [|done]. cbn.
  rewrite unpack_H_short; [done|]. apply slice_short; lia.
Qed.

Lemma unpack_all_errors depth buf e :
  unpack_all depth buf = Raise e → decode_error e.
Proof.
  unfold unpack_all. intros Hu.
  apply result_bind_Raise_inv in Hu as [Hh|(h & _ & Hu)];
    [apply from_buffer_Raise in Hh as ->; right; by left|].
  apply result_bind_Raise_inv in Hu as [Hq|([qs i1] & _ & Hu)];
    [by apply unpack_questions_errors in Hq|].
  apply result_bind_Raise_inv in Hu as [Ha|([ans i2] & _ & ?)]; [|done].
  by apply unpack_answers_errors in Ha.
Qed.

Lemma unpack_all_beyond depth buf :
  (length buf < 12)%nat → unpack_all depth buf = Raise StructError.
Proof.
  intros Hlen. unfold unpack_all, DNSHeader.from_buffer.
  rewrite unpack_HHHHHH_short; [done|]. rewrite !length_take. lia.
Qed.

(** What a buffer that unpacks holds: a header of twelve bytes, then the
    questions and the answers one after the other. *)
Lemma unpack_all_read depth buf header questions answers :
  unpack_all depth buf = Ok (header, questions, answers) →
  (12 ≤ length buf)%nat ∧
  DNSHeader.from_buffer (take 12 buf) = Ok header ∧
  length questions = Z.to_nat (DNSHeader.qdcount header) ∧
  length (default [] answers) = Z.to_nat (DNSHeader.ancount header) ∧
  (answers = None ↔ DNSHeader.ancount header = 0) ∧
  ∃ i1 i2, questions_read depth buf 12 questions i1 ∧
           answers_read depth buf i1 (default [] answers) i2.
Proof.
  intros Hu. unfold unpack_all in Hu.
  apply result_bind_Ok_inv in Hu as (h & Hh & Hu).
  apply result_bind_Ok_inv in Hu as ([qs i1] & Hqs & Hu).
  apply result_bind_Ok_inv in Hu as ([ans i2] & Hans & [= <- <- <-]).
  pose proof (from_buffer_Ok _ _ Hh) as Hlen. rewrite length_take in Hlen.
  apply unpack_questions_read in Hqs as [Hnq Hqs].
  apply unpack_answers_read in Hans as [Hna Hans].
  assert (default [] (if decide (DNSHeader.ancount h = 0) then None
                      else Some ans) = ans) as Hdef.
  { case_decide as Hz; [|done]. simpl.
    rewrite Hz in Hna. by apply nil_length_inv in Hna as ->. }
  rewrite Hdef. split_and!; [lia|done|done|done| |by exists i1, i2].
  by case_decide.
Qed.

(** C4, as stated, fails: rdata that runs over the end of the buffer is
    returned short, without an error (rdlength 4, two bytes of rdata). *)
Lemma unpack_all_short_rdata :
  unpack_all 5 query_short_rdata
  = Ok (DNSHeader.mk 7 0 0 0 0 1 0 0 0 1 1 0 0,
        [DNSQuestion.mk "a.example" 1 1],
        Some [DNSAnswer.mk "a.example" 1 1 60 4 [x01; x02]]).
Proof. by vm_compute. Qed.

(** C4 (amended): there is no truncated-message error and no bounds check
    of the code's own, but a read of one byte or of a fixed-width field
    beyond the end of the buffer fails: the header with struct.error; at
    any turn of [decode_name]'s loop a length byte with IndexError, a
    pointer with struct.error and a label that runs to the end of the
    buffer or over it with IndexError or UnicodeDecodeError; the type and
    class of a question, and the type, class, ttl and rdlength of an
    answer, with struct.error. Decoding ends in no other errors than
    these and RecursionError. So when [unpack_all] returns, the buffer
    holds the header, then the questions and the answers one after the
    other with their names and fixed-width fields inside the buffer, as
    many as qdcount and ancount say: it is 12 + 5 qdcount + 11 ancount
    bytes long or more; a decoded name ends inside the buffer; and every
    answer but the last has rdata of rdlength bytes. Slices are not
    checked: the rdata of the last answer can be shorter than rdlength. *)
Theorem unpack_all_bounds depth buf :
  ((length buf < 12)%nat → unpack_all depth buf = Raise StructError) ∧
  (∀ rec fuel labels visited idx,
     (∀ i, i ∈ visited → (i < idx)%nat) → (length buf ≤ idx)%nat →
     decode_name_loop rec buf fuel labels visited idx = Raise IndexError) ∧
  (∀ rec fuel labels visited idx b,
     (∀ i, i ∈ visited → (i < idx)%nat) → buf !! idx = Some b →
     Z.land (byte_val b) 0xC0 = 0xC0 → (length buf < idx + 2)%nat →
     decode_name_loop rec buf fuel labels visited idx = Raise StructError) ∧
  (∀ rec fuel labels visited idx b,
     (∀ i, i ∈ visited → (i < idx)%nat) → buf !! idx = Some b →
     byte_val b ≠ 0 → Z.land (byte_val b) 0xC0 ≠ 0xC0 →
     (length buf ≤ idx + 1 + byte_nat b)%nat →
     decode_name_loop rec buf fuel labels visited idx = Raise IndexError ∨
     decode_name_loop rec buf fuel labels visited idx
     = Raise UnicodeDecodeError) ∧
  (∀ n idx name i1,
     decode_name depth buf idx = Ok (name, i1) → (length buf < i1 + 4)%nat →
     unpack_questions depth buf (S n) idx = Raise StructError) ∧
  (∀ n idx name i1,
     decode_name depth buf idx = Ok (name, i1) → (length buf < i1 + 10)%nat →
     unpack_answers depth buf (S n) idx = Raise StructError) ∧
  (∀ e, unpack_all depth buf = Raise e → decode_error e) ∧
  (∀ idx e, decode_name depth buf idx = Raise e → decode_error e) ∧
  (∀ idx name idx', decode_name depth buf idx = Ok (name, idx') →
                    (idx < idx' ≤ length buf)%nat) ∧
  (∀ header questions answers,
     unpack_all depth buf = Ok (header, questions, answers) →
     DNSHeader.from_buffer (take 12 buf) = Ok header ∧
     length questions = Z.to_nat (DNSHeader.qdcount header) ∧
     length (default [] answers) = Z.to_nat (DNSHeader.ancount header) ∧
     (12 + 5 * length questions + 11 * length (default [] answers)
      ≤ length buf)%nat ∧
     (∃ i1 i2, (i1 ≤ length buf)%nat ∧
        questions_read depth buf 12 questions i1 ∧
        answers_read depth buf i1 (default [] answers) i2) ∧
     (∀ i a, default [] answers !! i = Some a →
             (S i < length (default [] answers))%nat → rdata_complete a) ∧
     Forall (λ a, Z.of_nat (length (DNSAnswer.rdata a)) ≤ DNSAnswer.rdlength a)
       (default [] answers)).
Proof.
  split_and!.
  - apply unpack_all_beyond.
  - intros *. apply decode_name_loop_beyond.
  - intros *. apply decode_name_loop_pointer_beyond.
  - intros *. apply decode_name_loop_label_beyond.
  - intros *. apply unpack_questions_beyond.
  - intros *. apply unpack_answers_beyond.
  - apply unpack_all_errors.
  - apply decode_name_errors.
  - apply decode_name_bounds.
  - intros header questions answers
      (Hlen & Hh & Hnq & Hna & _ & i1 & i2 & Hqs & Hans)%unpack_all_read.
    pose proof (questions_read_size _ _ _ _ _ Hqs) as [Hq1 Hq2].
    pose proof (answers_read_size _ _ _ _ _ Hans) as (Ha1 & _ & Ha2 & Ha3).
    split_and!; [done|done|done|lia| |done|done].
    exists i1, i2. split_and!; [lia|done|done].
Qed.

Lemma unpack_all_bounds_witness :
  (decode_name_loop (decode_name 4 query_short_label) query_short_label 16
     [] ∅ 12 = Raise IndexError ∨
   decode_name_loop (decode_name 4 query_short_label) query_short_label 16
     [] ∅ 12 = Raise UnicodeDecodeError) ∧
  (12 + 5 * 1 + 11 * 1 ≤ length query_short_rdata)%nat.
Proof.
  split.
  - apply (proj1 (proj2 (proj2 (proj2 (unpack_all_bounds 5 query_short_label))))
             (decode_name 4 query_short_label) 16%nat [] ∅ 12%nat x09).
    + intros i Hi. by apply not_elem_of_empty in Hi.
    + reflexivity.
    + by vm_compute.
    + by vm_compute.
    + vm_compute. lia.
  - destruct (unpack_all_bounds 5 query_short_rdata)
      as (_ & _ & _ & _ & _ & _ & _ & _ & _ & H).
    assert (unpack_all 5 query_short_rdata
            = Ok (DNSHeader.mk 7 0 0 0 0 1 0 0 0 1 1 0 0,
                  [DNSQuestion.mk "a.example" 1 1],
                  Some [DNSAnswer.mk "a.example" 1 1 60 4 [x01; x02]]))
      as Hu by (by vm_compute).
    destruct (H _ _ _ Hu) as (_ & _ & _ & Hsize & _).
    exact Hsize.
Defined.

(** ** unpack_all: bytes behind the answers *)

Lemma slice_take (buf : bytes) n i j :
  (j ≤ n)%nat → slice (take n buf) i j = slice buf i j.
Proof.
  intros Hj. unfold slice. rewrite skipn_firstn_comm, take_take.
  f_equal. lia.
Qed.

Lemma unpack_questions_app depth buf t n idx r :
  unpack_questions depth buf n idx = Ok r →
  unpack_questions depth (buf ++ t) n idx = Ok r.
Proof.
  revert idx r. induction n as [|n IH]; intros idx r; simpl; [done|].
  intros ([name i1] & Hname & H)%result_bind_Ok_inv.
  apply result_bind_Ok_inv in H as ([type_ class_] & Hfields & H).
  apply result_bind_Ok_inv in H as ([qs i2] & Hrest & [= <-]).
  rewrite (decode_name_app depth depth buf t _ _ (le_n _) Hname). cbn.
  rewrite (slice_full_app_l buf t i1 4)
    by (by apply unpack_HH_Ok in Hfields).
  rewrite Hfields. cbn. by rewrite (IH _ _ Hrest).
Qed.

Lemma unpack_answers_app depth buf t n idx answers idx' :
  unpack_answers depth buf n idx = Ok (answers, idx') →
  Forall rdata_complete answers →
  unpack_answers depth (buf ++ t) n idx = Ok (answers, idx').
Proof.
  revert idx answers idx'.
  induction n as [|n IH]; intros idx answers idx'; simpl; [done|].
  intros ([name i1] & Hname & H)%result_bind_Ok_inv.
  apply result_bind_Ok_inv in H as ([type_ class_] & Hfields & H).
  apply result_bind_Ok_inv in H as (ttl & Httl & H).
  apply result_bind_Ok_inv in H as (rdlength & Hrdlength & H).
  apply result_bind_Ok_inv in H as ([rest i2] & Hrest & [= <- <-]).
  intros [Hc Hall]%Forall_cons.
  rewrite (decode_name_app depth depth buf t _ _ (le_n _) Hname). cbn.
  rewrite (slice_full_app_l buf t i1 4)
    by (by apply unpack_HH_Ok in Hfields).
  rewrite Hfields. cbn.
  rewrite (slice_full_app_l buf t (i1 + 4) 4)
    by (by apply unpack_I_Ok in Httl).
  rewrite Httl. cbn.
  rewrite (slice_full_app_l buf t (i1 + 4 + 4) 2)
    by (by apply unpack_H_Ok in Hrdlength).
  rewrite Hrdlength. cbn.
  rewrite (IH _ _ _ Hrest Hall). cbn.
  rewrite slice_full_app_l; [done|].
  unfold rdata_complete in Hc. simpl in Hc. lia.
Qed.

(** The eight bytes of the counts, as they stand in the buffer. *)
Lemma from_buffer_count_bytes buf header :
  DNSHeader.from_buffer (take 12 buf) = Ok header →
  ∃ q1 q0 a1 a0 n1 n0 r1 r0,
    slice buf 4 12 = [q1; q0; a1; a0; n1; n0; r1; r0] ∧
    DNSHeader.qdcount header = be16 q1 q0 ∧
    DNSHeader.ancount header = be16 a1 a0 ∧
    DNSHeader.nscount header = be16 n1 n0 ∧
    DNSHeader.arcount header = be16 r1 r0.
Proof.
  unfold DNSHeader.from_buffer. rewrite take_idemp.
  rewrite <- (slice_take buf 12 4 12) by lia.
  generalize (take 12 buf). intros hd.
  do 12 (destruct hd as [|? hd]; [done|]).
  destruct hd; [|done]. cbn. intros [= <-]. by eexists _, _, _, _, _, _, _, _.
Qed.

(** C10, as stated, fails: bytes behind the last record are not always
    ignored. The question's name is a pointer to the first byte behind the
    question, where the additional record starts: the question comes out
    as [a] or as [b] by the record that follows, and without one the
    unpacking fails. *)
Lemma unpack_all_reads_trailing :
  unpack_all 5 (query_forward_pointer ++ additional_a)
  = Ok (DNSHeader.mk 7 0 0 0 0 1 0 0 0 1 0 0 1, [DNSQuestion.mk "a" 1 1], None) ∧
  unpack_all 5 (query_forward_pointer ++ additional_b)
  = Ok (DNSHeader.mk 7 0 0 0 0 1 0 0 0 1 0 0 1, [DNSQuestion.mk "b" 1 1], None) ∧
  unpack_all 5 query_forward_pointer = Raise IndexError.
Proof. by vm_compute. Qed.

(** C10 (amended): when [unpack_all] returns, its header has the four
    counts that stand in bytes 4 to 11 of the buffer, nscount and arcount
    among them, whatever they are; the questions and the answers are the
    records that the buffer holds one after the other from offset 12, as
    many as the buffer's qdcount and ancount say, and nothing else is
    returned. Bytes that follow a message that unpacks by itself with all
    the rdata of its answers (authority and additional records) do not
    change the result. *)
Theorem unpack_all_ignores_trailing depth buf header questions answers :
  unpack_all depth buf = Ok (header, questions, answers) →
  (∃ q1 q0 a1 a0 n1 n0 r1 r0,
     slice buf 4 12 = [q1; q0; a1; a0; n1; n0; r1; r0] ∧
     DNSHeader.qdcount header = be16 q1 q0 ∧
     DNSHeader.ancount header = be16 a1 a0 ∧
     DNSHeader.nscount header = be16 n1 n0 ∧
     DNSHeader.arcount header = be16 r1 r0 ∧
     length questions = Z.to_nat (be16 q1 q0) ∧
     length (default [] answers) = Z.to_nat (be16 a1 a0)) ∧
  (answers = None ↔ DNSHeader.ancount header = 0) ∧
  (∃ i1 i2, questions_read depth buf 12 questions i1 ∧
            answers_read depth buf i1 (default [] answers) i2) ∧
  (Forall rdata_complete (default [] answers) →
   ∀ trailing,
     unpack_all depth (buf ++ trailing) = Ok (header, questions, answers)).
Proof.
  intros Hu.
  pose proof (unpack_all_read _ _ _ _ _ Hu)
    as (Hlen & Hh & Hnq & Hna & Hnone & Hread).
  pose proof (from_buffer_count_bytes _ _ Hh)
    as (q1 & q0 & a1 & a0 & n1 & n0 & r1 & r0 & Hs & Hq & Ha & Hn & Hr).
  split_and!; [|done|done|].
  { exists q1, q0, a1, a0, n1, n0, r1, r0. rewrite <- Hq, <- Ha. done. }
  intros Hc trailing. unfold unpack_all in *.
  apply result_bind_Ok_inv in Hu as (h & Hh' & Hu).
  apply result_bind_Ok_inv in Hu as ([qs i1] & Hqs & Hu).
  apply result_bind_Ok_inv in Hu as ([ans i2] & Hans & Hu).
  rewrite take_app_le by lia. rewrite Hh'. cbn.
  rewrite (unpack_questions_app _ _ _ _ _ _ Hqs). cbn.
  assert (default [] answers = ans) as Hdef.
  { injection Hu as _ _ <-. case_decide as Hz; [|done]. simpl.
    apply unpack_answers_read in Hans as [Hl _].
    rewrite Hz in Hl. by apply nil_length_inv in Hl as ->. }
  rewrite Hdef in Hc.
  by rewrite (unpack_answers_app _ _ _ _ _ _ _ Hans Hc).
Qed.

Lemma unpack_all_ignores_trailing_witness :
  unpack_all 5 (response_arcount ++ opt_record)
  = Ok (DNSHeader.mk 7 1 0 0 0 1 1 0 0 1 1 0 1,
        [DNSQuestion.mk "a.example" 1 1],
        Some [DNSAnswer.mk "a.example" 1 1 60 4 [x01; x02; x03; x04]]).
Proof.
  assert (unpack_all 5 response_arcount
          = Ok (DNSHeader.mk 7 1 0 0 0 1 1 0 0 1 1 0 1,
                [DNSQuestion.mk "a.example" 1 1],
                Some [DNSAnswer.mk "a.example" 1 1 60 4 [x01; x02; x03; x04]]))
    as Hu by (by vm_compute).
  destruct (unpack_all_ignores_trailing _ _ _ _ _ Hu) as (_ & _ & _ & H).
  apply H. by repeat constructor.
Defined.

(** ** Round trips of the fixed-width fields *)

Lemma pack_H_Ok v :
  0 ≤ v ≤ 65535 → pack_H v = Ok [byte_of_Z (v / 256); byte_of_Z v].
Proof. intros Hv. unfold pack_H. by rewrite decide_True. Qed.

Lemma pack_I_Ok v :
  0 ≤ v ≤ 4294967295 →
  pack_I v = Ok [byte_of_Z (v / 16777216); byte_of_Z (v / 65536);
                 byte_of_Z (v / 256); byte_of_Z v].
Proof. intros Hv. unfold pack_I. by rewrite decide_True. Qed.

Lemma be16_of_Z v :
  0 ≤ v ≤ 65535 → be16 (byte_of_Z (v / 256)) (byte_of_Z v) = v.
Proof.
  intros Hv. unfold be16. rewrite !byte_val_of_Z.
  rewrite (Z.mod_small (v / 256)) by (split; [apply Z.div_pos|apply Z.div_lt_upper_bound]; lia).
  pose proof (Z.div_mod v 256). lia.
Qed.

Lemma be32_of_Z v :
  0 ≤ v ≤ 4294967295 →
  be32 (byte_of_Z (v / 16777216)) (byte_of_Z (v / 65536))
       (byte_of_Z (v / 256)) (byte_of_Z v) = v.
Proof.
  intros Hv. unfold be32. rewrite !byte_val_of_Z.
  rewrite (Z.mod_small (v / 16777216))
    by (split; [apply Z.div_pos|apply Z.div_lt_upper_bound]; lia).
  replace (v / 65536) with (v / 256 / 256)
    by (rewrite Z.div_div by lia; done).
  replace (v / 16777216) with (v / 256 / 256 / 256)
    by (rewrite !Z.div_div by lia; done).
  pose proof (Z.div_mod v 256). pose proof (Z.div_mod (v / 256) 256).
  pose proof (Z.div_mod (v / 256 / 256) 256). lia.
Qed.

(** ** Strings *)

Lemma split_dot_nonempty s : split_dot s ≠ [].
Proof. destruct s as [|c s]; simpl; [done|]. by repeat case_match. Qed.

Lemma join_dot_cons_empty ls :
  ls ≠ [] → join_dot (EmptyString :: ls) = String "."%char (join_dot ls).
Proof. by destruct ls. Qed.

Lemma join_dot_cons_char c l ls :
  join_dot (String c l :: ls) = String c (join_dot (l :: ls)).
Proof. by destruct ls. Qed.

Lemma join_split_dot s : join_dot (split_dot s) = s.
Proof.
  induction s as [|c s IH]; [done|]. simpl.
  destruct (Ascii.eqb c ".") eqn:Hc.
  - apply Ascii.eqb_eq in Hc as ->.
    rewrite join_dot_cons_empty by apply split_dot_nonempty. by rewrite IH.
  - pose proof (split_dot_nonempty s).
    destruct (split_dot s) as [|l ls]; [done|].
    rewrite join_dot_cons_char. by rewrite IH.
Qed.

Lemma length_list_byte_of_string s :
  length (list_byte_of_string s) = String.length s.
Proof.
  unfold list_byte_of_string. rewrite length_map.
  induction s as [|c s IH]; simpl; [done|]. by rewrite IH.
Qed.

Lemma forallb_ascii_bytes s :
  is_ascii_str s = true →
  forallb is_ascii_byte (list_byte_of_string s) = true.
Proof.
  unfold is_ascii_str, list_byte_of_string.
  induction (list_ascii_of_string s) as [|c l IH]; simpl; [done|].
  intros [Hc Hs]%andb_prop. rewrite IH by done.
  unfold is_ascii_char in Hc. by rewrite Hc.
Qed.

Lemma bytes_decode_ascii_encode s :
  is_ascii_str s = true → bytes_decode_ascii (list_byte_of_string s) = Ok s.
Proof.
  intros Hs. unfold bytes_decode_ascii.
  rewrite forallb_ascii_bytes by done.
  by rewrite string_of_list_byte_of_string.
Qed.

(** ** Decoding a plain name *)

Lemma land_192_small n : 0 ≤ n ≤ 63 → Z.land n 192 = 0.
Proof.
  intros Hn. rewrite <- (Z.mod_small n (2 ^ 6)) by lia.
  rewrite <- Z.land_ones by lia. rewrite <- Z.land_assoc.
  change (Z.land (Z.ones 6) 192) with 0. apply Z.land_0_r.
Qed.

Lemma label_length_byte l :
  valid_label l →
  byte_val (byte_of_Z (Z.of_nat (String.length l))) = Z.of_nat (String.length l) ∧
  byte_nat (byte_of_Z (Z.of_nat (String.length l))) = String.length l.
Proof.
  intros [Hlen _].
  assert (byte_val (byte_of_Z (Z.of_nat (String.length l)))
          = Z.of_nat (String.length l)) as Hv.
  { rewrite byte_val_of_Z. apply Z.mod_small. lia. }
  split; [done|]. apply Nat2Z.inj. by rewrite byte_nat_val.
Qed.

Lemma length_label_wire l : length (label_wire l) = S (String.length l).
Proof. unfold label_wire. simpl. by rewrite length_list_byte_of_string. Qed.

Lemma length_labels_wire labels :
  (length labels ≤ length (concat (label_wire <$> labels)))%nat.
Proof.
  induction labels as [|l labels IH]; [done|].
  cbn [fmap list_fmap concat length].
  rewrite length_app, length_label_wire. lia.
Qed.

Lemma slice_label pre l rest :
  slice (pre ++ label_wire l ++ rest)
    (length pre + 1) (length pre + 1 + String.length l)
  = list_byte_of_string l.
Proof.
  unfold label_wire. cbn [app].
  rewrite (cons_middle _ pre), app_assoc.
  replace (length pre + 1)%nat
    with (length (pre ++ [byte_of_Z (Z.of_nat (String.length l))]))
    by (rewrite length_app; simpl; lia).
  rewrite <- (length_list_byte_of_string l) at 4.
  apply slice_exact.
Qed.

Lemma lookup_label_byte pre l (rest : bytes) :
  (pre ++ label_wire l ++ rest) !! length pre
  = Some (byte_of_Z (Z.of_nat (String.length l))).
Proof. unfold label_wire. cbn [app]. by apply list_lookup_middle. Qed.

Lemma decode_name_loop_plain rec pre labels post fuel acc visited :
  Forall valid_label labels →
  (∀ i, i ∈ visited → (i < length pre)%nat) →
  (length labels ≤ fuel)%nat →
  decode_name_loop rec (pre ++ concat (label_wire <$> labels) ++ x00 :: post)
    fuel acc visited (length pre)
  = Ok (join_dot (acc ++ labels),
        (length pre + length (concat (label_wire <$> labels)) + 1)%nat).
Proof.
  intros Hvalid. revert pre fuel acc visited.
  induction Hvalid as [|l labels Hl _ IH]; intros pre fuel acc visited Hvis Hfuel;
    rewrite decode_name_loop_unfold;
    (rewrite decide_False by (intros Hin%Hvis; lia)).
  - simpl. rewrite list_lookup_middle by done.
    rewrite decide_True by done. rewrite app_nil_r. do 2 f_equal. lia.
  - destruct (label_length_byte l Hl) as [Hval Hnat]. destruct Hl as [Hlen Hasc].
    cbn [fmap list_fmap concat]. rewrite <- app_assoc.
    rewrite lookup_label_byte.
    rewrite decide_False by lia.
    rewrite decide_False by (rewrite Hval, land_192_small; lia).
    rewrite Hnat, slice_label.
    rewrite bytes_decode_ascii_encode by done. cbn.
    destruct fuel as [|fuel]; [simpl in Hfuel; lia|].
    specialize (IH (pre ++ label_wire l) fuel (acc ++ [l])
                   (visited ∪ {[length pre]})).
    rewrite length_app, length_label_wire, <- app_assoc in IH.
    replace (length pre + 1 + String.length l)%nat
      with (length pre + S (String.length l))%nat by lia.
    etrans; [apply IH|].
    + intros i [Hi| ->%elem_of_singleton]%elem_of_union; [|lia].
      apply Hvis in Hi. lia.
    + simpl in Hfuel. lia.
    + rewrite <- app_assoc. cbn [app]. do 2 f_equal.
      cbn [length]. rewrite !length_app, length_list_byte_of_string. lia.
Qed.

(** A valid name written plainly at the end of [pre] decodes to itself,
    whatever follows and whatever depth is left, at least one. *)
Lemma decode_name_plain depth pre name post :
  valid_name name →
  decode_name (S depth) (pre ++ name_wire name ++ post) (length pre)
  = Ok (name, (length pre + length (name_wire name))%nat).
Proof.
  intros Hvalid. simpl. unfold name_wire. rewrite <- app_assoc. cbn [app].
  rewrite decode_name_loop_plain; [|done| |].
  - rewrite app_nil_l, join_split_dot. do 2 f_equal.
    rewrite length_app. simpl. lia.
  - intros i Hi. by apply not_elem_of_empty in Hi.
  - rewrite !length_app. pose proof (length_labels_wire (split_dot name)). lia.
Qed.

(** ** The header and the pointers: bit fields *)

(** Or-ing a value below [2^k] under a value shifted by [k] adds them. *)
Lemma lor_shiftl_add a b k :
  0 ≤ k → 0 ≤ b < 2 ^ k → Z.lor (Z.shiftl a k) b = a * 2 ^ k + b.
Proof.
  intros Hk Hb. rewrite Z.shiftl_mul_pow2 by done.
  symmetry. apply Z.add_nocarry_lor.
  apply Z.bits_inj'. intros n Hn. rewrite Z.land_spec, Z.bits_0.
  destruct (Z.lt_ge_cases n k) as [Hlt|Hge].
  - by rewrite Z.mul_pow2_bits_low.
  - destruct (decide (b = 0)) as [->|Hne].
    + by rewrite Z.bits_0, andb_false_r.
    + rewrite (Z.bits_above_log2 b n), andb_false_r; [done|lia|].
      assert (Z.log2 b < k) by (apply Z.log2_lt_pow2; lia). lia.
Qed.

Lemma flags_fields h :
  valid_header h →
  let flags := DNSHeader.flags h in
  0 ≤ flags ≤ 65535 ∧
  Z.land (Z.shiftr flags 15) 0x1 = DNSHeader.qr h ∧
  Z.land (Z.shiftr flags 11) 0xF = DNSHeader.opcode h ∧
  Z.land (Z.shiftr flags 10) 0x1 = DNSHeader.aa h ∧
  Z.land (Z.shiftr flags 9) 0x1 = DNSHeader.tc h ∧
  Z.land (Z.shiftr flags 8) 0x1 = DNSHeader.rd h ∧
  Z.land (Z.shiftr flags 7) 0x1 = DNSHeader.ra h ∧
  Z.land (Z.shiftr flags 4) 0x7 = DNSHeader.z h ∧
  Z.land flags 0xF = DNSHeader.rcode h.
Proof.
  intros (_ & Hqr & Hop & Haa & Htc & Hrd & Hra & Hz & Hrc & _).
  assert (DNSHeader.flags h
          = DNSHeader.qr h * 32768 + (DNSHeader.opcode h * 2048
            + (DNSHeader.aa h * 1024 + (DNSHeader.tc h * 512
            + (DNSHeader.rd h * 256 + (DNSHeader.ra h * 128
            + (DNSHeader.z h * 16 + DNSHeader.rcode h))))))) as ->.
  { unfold DNSHeader.flags.
    rewrite (lor_shiftl_add (DNSHeader.z h) _ 4) by lia.
    rewrite (lor_shiftl_add (DNSHeader.ra h) _ 7) by lia.
    rewrite (lor_shiftl_add (DNSHeader.rd h) _ 8) by lia.
    rewrite (lor_shiftl_add (DNSHeader.tc h) _ 9) by lia.
    rewrite (lor_shiftl_add (DNSHeader.aa h) _ 10) by lia.
    rewrite (lor_shiftl_add (DNSHeader.opcode h) _ 11) by lia.
    rewrite (lor_shiftl_add (DNSHeader.qr h) _ 15) by lia.
    lia. }
  cbv zeta. rewrite !Z.shiftr_div_pow2 by lia.
  repeat match goal with
  | |- context [Z.land ?x 0x1] => change (Z.land x 0x1) with (Z.land x (Z.ones 1))
  | |- context [Z.land ?x 0xF] => change (Z.land x 0xF) with (Z.land x (Z.ones 4))
  | |- context [Z.land ?x 0x7] => change (Z.land x 0x7) with (Z.land x (Z.ones 3))
  end.
  rewrite !Z.land_ones by lia.
  change (2 ^ 15) with 32768. change (2 ^ 11) with 2048.
  change (2 ^ 10) with 1024. change (2 ^ 9) with 512.
  change (2 ^ 8) with 256. change (2 ^ 7) with 128.
  change (2 ^ 4) with 16. change (2 ^ 3) with 8. change (2 ^ 1) with 2.
  split_and!; [lia..| | | | | | | |]; Z.div_mod_to_equations; lia.
Qed.

(** A pointer to an offset below 16384: it fits 16 bits, its first byte
    has the two top bits set, and masking gives the offset back. *)
Lemma pointer_fields offset :
  0 ≤ offset < 16384 →
  let pointer := Z.lor 0xC000 offset in
  0 ≤ pointer ≤ 65535 ∧
  Z.land (byte_val (byte_of_Z (pointer / 256))) 0xC0 = 0xC0 ∧
  Z.land pointer 0x3FFF = offset.
Proof.
  intros Hoff. cbv zeta.
  change 0xC000 with (Z.shiftl 3 14).
  rewrite (lor_shiftl_add 3 offset 14) by lia.
  change (3 * 2 ^ 14) with 49152.
  split_and!; [lia..| |].
  - rewrite byte_val_of_Z.
    replace (((49152 + offset) / 256) mod 256) with (3 * 2 ^ 6 + offset / 256)
      by (change (3 * 2 ^ 6) with 192; Z.div_mod_to_equations; lia).
    rewrite <- (lor_shiftl_add 3 (offset / 256) 6)
      by (change (2 ^ 6) with 64; Z.div_mod_to_equations; lia).
    rewrite Z.land_lor_distr_l.
    rewrite (land_192_small (offset / 256))
      by (Z.div_mod_to_equations; lia).
    done.
  - change 0x3FFF with (Z.ones 14). rewrite Z.land_ones by lia.
    change (2 ^ 14) with 16384. Z.div_mod_to_equations. lia.
Qed.

Lemma header_pack_Ok h :
  valid_header h → DNSHeader.pack h = Ok (header_wire h).
Proof.
  intros Hh. pose proof (flags_fields h Hh) as (Hflags & _).
  destruct Hh as (Hid & _ & _ & _ & _ & _ & _ & _ & _ & Hqd & Han & Hns & Har).
  unfold DNSHeader.pack. rewrite !pack_H_Ok by done. done.
Qed.

Lemma length_header_wire h : length (header_wire h) = 12%nat.
Proof. done. Qed.

Lemma from_buffer_header_wire h rest :
  valid_header h →
  DNSHeader.from_buffer (take 12 (header_wire h ++ rest)) = Ok h.
Proof.
  intros Hh. pose proof (flags_fields h Hh)
    as (Hflags & Hqr & Hop & Haa & Htc & Hrd & Hra & Hz & Hrc).
  destruct Hh as (Hid & _ & _ & _ & _ & _ & _ & _ & _ & Hqd & Han & Hns & Har).
  unfold DNSHeader.from_buffer. rewrite take_idemp.
  rewrite take_app_length' by done.
  unfold header_wire, be16_bytes. cbn [app unpack_HHHHHH].
  rewrite !be16_of_Z by done. cbn.
  rewrite Hqr, Hop, Haa, Htc, Hrd, Hra, Hz, Hrc. by destruct h.
Qed.

(** ** Records in a buffer *)

Lemma slice_at (buf pre mid post : bytes) i j :
  buf = pre ++ mid ++ post → i = length pre → j = (i + length mid)%nat →
  slice buf i j = mid.
Proof. intros -> -> ->. apply slice_exact. Qed.

Lemma slice_sub (buf mid : bytes) i k n :
  slice buf i (i + length mid) = mid → (k + n ≤ length mid)%nat →
  slice buf (i + k) (i + k + n) = slice mid k (k + n).
Proof.
  intros Hmid Hle.
  transitivity (slice (slice buf i (i + length mid)) k (k + n));
    [|by rewrite Hmid].
  unfold slice.
  replace (i + length mid - i)%nat with (length mid) by lia.
  replace (i + k + n - (i + k))%nat with n by lia.
  replace (k + n - k)%nat with n by lia.
  rewrite skipn_firstn_comm, take_take, drop_drop.
  f_equal. lia.
Qed.

Section records.
Context {R : Type} (rname : R → string) (rtail : R → bytes).

Lemma records_at_app dmin buf t pos rs fin :
  records_at rname rtail dmin buf pos rs fin →
  records_at rname rtail dmin (buf ++ t) pos rs fin.
Proof.
  induction 1 as [|pos len r rs fin Hname Htail _ IH]; [constructor|].
  apply (records_at_cons _ _ _ _ pos len); [| |done].
  - intros d Hd. by apply (decode_name_app d d), Hname.
  - rewrite slice_full_app_l; [done|]. by rewrite Htail.
Qed.

End records.

Lemma unpack_questions_records dmin d buf pos questions fin :
  records_at DNSQuestion.decoded_name question_tail dmin buf pos questions fin →
  Forall valid_question questions → (dmin ≤ d)%nat →
  unpack_questions d buf (length questions) pos = Ok (questions, fin).
Proof.
  intros Hat Hvalid Hd.
  induction Hat as [|pos len q qs fin Hname Htail _ IH]; [done|].
  apply Forall_cons in Hvalid as [(_ & Ht & Hc) Hvalid].
  simpl. rewrite (Hname d Hd). cbn.
  change (length (question_tail q)) with 4%nat in *.
  rewrite Htail. cbn. rewrite !be16_of_Z by done.
  rewrite (IH Hvalid). cbn. by destruct q.
Qed.

Lemma answer_tail_slices a :
  slice (answer_tail a) 0 4
  = be16_bytes (DNSAnswer.type_ a) ++ be16_bytes (DNSAnswer.class_ a) ∧
  slice (answer_tail a) 4 8 = be32_bytes (DNSAnswer.ttl a) ∧
  slice (answer_tail a) 8 10 = be16_bytes (DNSAnswer.rdlength a) ∧
  slice (answer_tail a) 10 (10 + length (DNSAnswer.rdata a))
  = DNSAnswer.rdata a.
Proof.
  unfold answer_tail, slice, be16_bytes, be32_bytes. split_and!; try done.
  cbn [app drop].
  replace (10 + length (DNSAnswer.rdata a) - 10)%nat
    with (length (DNSAnswer.rdata a)) by lia.
  apply firstn_all.
Qed.

Lemma unpack_answers_records dmin d buf pos answers fin :
  records_at DNSAnswer.decoded_name answer_tail dmin buf pos answers fin →
  Forall valid_answer answers → (dmin ≤ d)%nat →
  unpack_answers d buf (length answers) pos = Ok (answers, fin).
Proof.
  intros Hat Hvalid Hd.
  induction Hat as [|pos len a ans fin Hname Htail _ IH]; [done|].
  apply Forall_cons in Hvalid as [(_ & Ht & Hc & Hl & Hn & Hr) Hvalid].
  simpl. rewrite (Hname d Hd). cbn.
  unfold rdata_complete in Hr.
  assert (length (answer_tail a)
          = (10 + length (DNSAnswer.rdata a))%nat) as Hlen.
  { unfold answer_tail. by rewrite length_app. }
  assert (Z.to_nat (DNSAnswer.rdlength a) = length (DNSAnswer.rdata a))
    as Hrd by lia.
  destruct (answer_tail_slices a) as (S0 & S4 & S8 & S10).
  pose proof (slice_sub buf _ (pos + len) 0 4 Htail ltac:(lia)) as H0.
  pose proof (slice_sub buf _ (pos + len) 4 4 Htail ltac:(lia)) as H4.
  pose proof (slice_sub buf _ (pos + len) 8 2 Htail ltac:(lia)) as H8.
  pose proof (slice_sub buf _ (pos + len) 10 (length (DNSAnswer.rdata a))
                Htail ltac:(lia)) as H10.
  rewrite Nat.add_0_r in H0. simpl in H0, H4, H8.
  rewrite S0 in H0. rewrite S4 in H4. rewrite S8 in H8. rewrite S10 in H10.
  rewrite H0. cbn. rewrite !be16_of_Z by done.
  rewrite H4. cbn. rewrite be32_of_Z by done.
  replace (pos + len + 4 + 4)%nat with (pos + len + 8)%nat by lia.
  rewrite H8. cbn. rewrite be16_of_Z by done.
  replace (pos + len + 8 + 2)%nat with (pos + len + 10)%nat by lia.
  rewrite Hrd, H10.
  replace (pos + len + 10 + length (DNSAnswer.rdata a))%nat
    with (pos + len + length (answer_tail a))%nat by lia.
  rewrite (IH Hvalid). cbn. by destruct a.
Qed.

(** ** The uncompressed round trip *)

Ltac rsimpl := cbn [mbind result_bind].

Lemma encode_name_uncompressed_valid name :
  valid_name name → encode_name_uncompressed name = Ok (name_wire name).
Proof.
  intros Hvalid. unfold encode_name_uncompressed, name_wire.
  rewrite encode_labels_ok; [done|].
  eapply Forall_impl; [exact Hvalid|].
  intros l [Hlen Hasc]. split; [lia|done].
Qed.

Lemma question_pack_Ok q encoded_name :
  valid_question q →
  DNSQuestion.pack q encoded_name = Ok (encoded_name ++ question_tail q).
Proof.
  intros (_ & Ht & Hc). unfold DNSQuestion.pack.
  by rewrite !pack_H_Ok by done.
Qed.

Lemma answer_pack_Ok a encoded_name :
  valid_answer a →
  DNSAnswer.pack a encoded_name = Ok (encoded_name ++ answer_tail a).
Proof.
  intros (_ & Ht & Hc & Hl & Hn & _). unfold DNSAnswer.pack.
  rewrite !pack_H_Ok by done. by rewrite pack_I_Ok by done.
Qed.

Lemma pack_questions_uncompressed_Ok response questions :
  Forall valid_question questions →
  pack_questions_uncompressed response questions
  = Ok (response ++ concat (question_wire <$> questions)).
Proof.
  intros Hvalid. revert response.
  induction Hvalid as [|q qs Hq _ IH]; intros response; simpl.
  - by rewrite app_nil_r.
  - rewrite encode_name_uncompressed_valid by apply Hq. cbn.
    rewrite question_pack_Ok by done. cbn.
    rewrite IH. by rewrite <- app_assoc.
Qed.

Lemma pack_answers_uncompressed_Ok response answers :
  Forall valid_answer answers →
  pack_answers_uncompressed response answers
  = Ok (response ++ concat (answer_wire <$> answers)).
Proof.
  intros Hvalid. revert response.
  induction Hvalid as [|a ans Ha _ IH]; intros response; simpl.
  - by rewrite app_nil_r.
  - rewrite encode_name_uncompressed_valid by apply Ha. cbn.
    rewrite answer_pack_Ok by done. cbn.
    rewrite IH. by rewrite <- app_assoc.
Qed.

Lemma pack_all_uncompressed_Ok h questions answers :
  valid_header h → Forall valid_question questions →
  Forall valid_answer answers →
  pack_all_uncompressed h questions answers
  = Ok (message_wire h questions answers).
Proof.
  intros Hh Hq Ha. unfold pack_all_uncompressed, message_wire.
  rewrite header_pack_Ok by done. rsimpl.
  rewrite pack_questions_uncompressed_Ok by done. rsimpl.
  rewrite pack_answers_uncompressed_Ok by done. by rewrite <- app_assoc.
Qed.

Lemma records_at_plain {R} (rname : R → string) (rtail : R → bytes)
    pre rs post :
  Forall (λ r, valid_name (rname r)) rs →
  records_at rname rtail 1
    (pre ++ concat ((λ r, name_wire (rname r) ++ rtail r) <$> rs) ++ post)
    (length pre) rs
    (length pre + length (concat ((λ r, name_wire (rname r) ++ rtail r) <$> rs))).
Proof.
  intros Hvalid. revert pre.
  induction Hvalid as [|r rs Hr _ IH]; intros pre.
  - simpl. rewrite Nat.add_0_r. constructor.
  - cbn [fmap list_fmap concat]. rewrite <- !app_assoc.
    apply (records_at_cons _ _ _ _ _ (length (name_wire (rname r)))).
    + intros [|d] Hd; [lia|]. by apply decode_name_plain.
    + eapply (slice_at _ (pre ++ name_wire (rname r))); [|by rewrite length_app|done].
      by rewrite <- !app_assoc.
    + specialize (IH (pre ++ name_wire (rname r) ++ rtail r)).
      rewrite <- !app_assoc in IH. rewrite !length_app in IH |- *.
      replace (length pre + length (name_wire (rname r)) + length (rtail r))%nat
        with (length pre + (length (name_wire (rname r)) + length (rtail r)))%nat
        by lia.
      match goal with |- records_at _ _ _ _ _ _ ?x =>
        match type of IH with records_at _ _ _ _ _ _ ?y =>
          replace x with y by lia end end.
      exact IH.
Qed.

Lemma answers_shape_count (answers : list DNSAnswer.t) n :
  n = Z.of_nat (length answers) →
  (if decide (n = 0) then None else Some answers) = answers_shape answers.
Proof.
  intros ->. destruct answers as [|a l]; [done|].
  rewrite decide_False; [done|]. simpl. lia.
Qed.

Lemma unpack_all_message_wire depth h questions answers :
  valid_header h → Forall valid_question questions →
  Forall valid_answer answers →
  DNSHeader.qdcount h = Z.of_nat (length questions) →
  DNSHeader.ancount h = Z.of_nat (length answers) →
  unpack_all (S depth) (message_wire h questions answers)
  = Ok (h, questions, answers_shape answers).
Proof.
  intros Hh Hq Ha Hqd Han. unfold unpack_all, message_wire.
  rewrite from_buffer_header_wire by done. rsimpl.
  rewrite Hqd, Han, !Nat2Z.id.
  pose proof (records_at_plain DNSQuestion.decoded_name question_tail
                (header_wire h) questions (concat (answer_wire <$> answers)))
    as Hqs.
  rewrite (unpack_questions_records 1 _ _ _ _ _ (Hqs ltac:(eapply Forall_impl; [exact Hq|by intros ? [? _]])) Hq) by lia.
  rsimpl.
  pose proof (records_at_plain DNSAnswer.decoded_name answer_tail
                (header_wire h ++ concat (question_wire <$> questions))
                answers []) as Has.
  rewrite app_nil_r, <- app_assoc, length_app in Has.
  rewrite (unpack_answers_records 1 _ _ _ _ _ (Has ltac:(eapply Forall_impl; [exact Ha|by intros ? [? _]])) Ha) by lia.
 rsimpl. by rewrite (answers_shape_count answers).
Qed.

(** ** The compressed round trip *)

Lemma pack_questions_compressed_records response name_offset_map questions :
  pack_questions_compressed response name_offset_map questions
  = pack_records_compressed DNSQuestion.decoded_name DNSQuestion.pack
      response name_offset_map questions.
Proof.
  revert response name_offset_map.
  induction questions as [|q qs IH]; intros response m; [done|].
  simpl. destruct (compress_name _ _ _) as [[enc m']|]; [|done]. rsimpl.
  destruct (DNSQuestion.pack q enc); [|done]. rsimpl. apply IH.
Qed.

Lemma pack_answers_compressed_records response name_offset_map answers :
  pack_answers_compressed response name_offset_map answers
  = pack_records_compressed DNSAnswer.decoded_name DNSAnswer.pack
      response name_offset_map answers.
Proof.
  revert response name_offset_map.
  induction answers as [|a ans IH]; intros response m; [done|].
  simpl. destruct (compress_name _ _ _) as [[enc m']|]; [|done]. rsimpl.
  destruct (DNSAnswer.pack a enc); [|done]. rsimpl. apply IH.
Qed.

Lemma offsets_ok_app response ext name_offset_map :
  offsets_ok response name_offset_map →
  offsets_ok (response ++ ext) name_offset_map.
Proof.
  intros Hok name offset Hname. destruct (Hok name offset Hname) as [Hlt Hdec].
  split; [rewrite length_app; lia|].
  intros d Hd. destruct (Hdec d Hd) as [idx Hidx].
  exists idx. by apply (decode_name_app d d).
Qed.

Lemma length_name_wire_ge name : (2 ≤ length (name_wire name))%nat.
Proof.
  unfold name_wire. rewrite length_app. simpl.
  pose proof (length_labels_wire (split_dot name)).
  pose proof (split_dot_nonempty name).
  destruct (split_dot name); [done|]. simpl in *. lia.
Qed.

Lemma lookup_pointer_bytes (response : bytes) b1 b0 rest :
  (response ++ [b1; b0] ++ rest) !! length response = Some b1 ∧
  (response ++ [b1; b0] ++ rest) !! S (length response) = Some b0.
Proof.
  split; [by apply list_lookup_middle|].
  rewrite lookup_app_r by lia.
  by replace (S (length response) - length response)%nat with 1%nat by lia.
Qed.

(** One name written by [compress_name], as a pointer or in full. *)
Lemma compress_name_at response name_offset_map name :
  valid_name name → offsets_ok response name_offset_map →
  Z.of_nat (length response) ≤ 16384 →
  ∃ encoded_name name_offset_map',
    compress_name response name_offset_map name
    = Ok (encoded_name, name_offset_map') ∧
    (length encoded_name ≤ length (name_wire name))%nat ∧
    ∀ tail,
      (∀ rest d, (2 ≤ d)%nat →
         decode_name d (response ++ encoded_name ++ tail ++ rest)
           (length response)
         = Ok (name, (length response + length encoded_name)%nat)) ∧
      offsets_ok (response ++ encoded_name ++ tail) name_offset_map'.
Proof.
  intros Hvalid Hok Hsize. unfold compress_name.
  destruct (name_offset_map !! name) as [offset|] eqn:Hname.
  - destruct (Hok name offset Hname) as [Hlt Hdec].
    pose proof (pointer_fields (Z.of_nat offset) ltac:(lia))
      as (Hrange & Htop & Hlow).
    rewrite pack_H_Ok by done. rsimpl.
    eexists _, _. split; [done|].
    split; [pose proof (length_name_wire_ge name); simpl; lia|].
    intros tail. split; [|by apply offsets_ok_app].
    intros rest [|[|d]] Hd; [lia..|].
    change (decode_name (S (S d)) ?b ?i)
      with (decode_name_loop (decode_name (S d) b) b (length b) [] ∅ i).
    erewrite decode_name_loop_pointer;
      [|apply not_elem_of_empty
       |apply lookup_pointer_bytes
       |apply lookup_pointer_bytes
       |exact Htop].
    rewrite be16_of_Z by done. rewrite Hlow, Nat2Z.id.
    destruct (Hdec (S d) ltac:(lia)) as [idx Hidx].
    erewrite (decode_name_app (S d) (S d)); [|done|exact Hidx]. done.
  - rewrite encode_name_uncompressed_valid by done. rsimpl.
    eexists _, _. split; [done|]. split; [done|].
    intros tail. split.
    + intros rest [|d] Hd; [lia|]. by apply decode_name_plain.
    + intros name' offset'.
      destruct (decide (name = name')) as [<-|Hne].
      * rewrite lookup_insert_eq. intros [= <-]. split.
        -- rewrite !length_app. pose proof (length_name_wire_ge name). lia.
        -- intros [|d] Hd; [lia|]. eexists. by apply decode_name_plain.
      * rewrite lookup_insert_ne by done. intros Hname'.
        by apply (offsets_ok_app response _ name_offset_map Hok).
Qed.

Section pack_records.
Context {R : Type} (rname : R → string) (rtail : R → bytes)
  (rpack : R → bytes → result bytes) (rvalid : R → Prop).
Hypothesis rvalid_name : ∀ r, rvalid r → valid_name (rname r).
Hypothesis rpack_Ok :
  ∀ r encoded_name, rvalid r → rpack r encoded_name = Ok (encoded_name ++ rtail r).

Lemma pack_records_compressed_at response name_offset_map records :
  Forall rvalid records → offsets_ok response name_offset_map →
  Z.of_nat (length response
    + length (concat ((λ r, name_wire (rname r) ++ rtail r) <$> records)))
  ≤ 16384 →
  ∃ response' name_offset_map',
    pack_records_compressed rname rpack response name_offset_map records
    = Ok (response', name_offset_map') ∧
    (∃ ext, response' = response ++ ext) ∧
    (length response'
     ≤ length response
       + length (concat ((λ r, name_wire (rname r) ++ rtail r) <$> records)))%nat ∧
    records_at rname rtail 2 response' (length response) records
      (length response') ∧
    offsets_ok response' name_offset_map'.
Proof.
  intros Hvalid. revert response name_offset_map.
  induction Hvalid as [|r rs Hr _ IH]; intros response m Hok Hsize.
  - exists response, m. simpl. split_and!; [done| |lia|constructor|done].
    exists []. by rewrite app_nil_r.
  - cbn [fmap list_fmap concat] in Hsize. cbv beta in Hsize.
    rewrite !length_app in Hsize.
    destruct (compress_name_at response m (rname r))
      as (enc & m1 & Hc & Hlen & Hat); [by apply rvalid_name|done|lia|].
    destruct (Hat (rtail r)) as [Hdec Hok1].
    destruct (IH (response ++ enc ++ rtail r) m1 Hok1)
      as (response' & m' & Hpack & [ext ->] & Hlen' & Hrs & Hok').
    { rewrite !length_app. lia. }
    exists ((response ++ enc ++ rtail r) ++ ext), m'.
    cbn [pack_records_compressed]. rewrite Hc. rsimpl.
    rewrite rpack_Ok by done. rsimpl.
    split_and!; [exact Hpack| | | |done].
    + exists (enc ++ rtail r ++ ext). by rewrite <- !app_assoc.
    + cbn [fmap list_fmap concat]. cbv beta.
      rewrite !length_app in Hlen'. rewrite !length_app. lia.
    + apply (records_at_cons _ _ _ _ _ (length enc)).
      * intros d Hd. rewrite <- !app_assoc. by apply Hdec.
      * eapply (slice_at _ (response ++ enc));
          [by rewrite <- !app_assoc|by rewrite length_app|done].
      * rewrite !length_app in Hrs. rewrite !length_app.
        replace (length response + length enc + length (rtail r))%nat
          with (length response + (length enc + length (rtail r)))%nat by lia.
        exact Hrs.
Qed.
End pack_records.

Lemma offsets_ok_empty response : offsets_ok response ∅.
Proof. intros name offset Hname. by rewrite lookup_empty in Hname. Qed.

Lemma pack_all_compressed_round_trip depth h questions answers :
  valid_header h → Forall valid_question questions →
  Forall valid_answer answers →
  DNSHeader.qdcount h = Z.of_nat (length questions) →
  DNSHeader.ancount h = Z.of_nat (length answers) →
  Z.of_nat (length (message_wire h questions answers)) ≤ 16384 →
  ∃ wire,
    pack_all_compressed h questions answers = Ok wire ∧
    (length wire ≤ length (message_wire h questions answers))%nat ∧
    unpack_all (S (S depth)) wire = Ok (h, questions, answers_shape answers).
Proof.
  intros Hh Hq Ha Hqd Han Hsize. unfold message_wire in Hsize.
  rewrite !length_app, length_header_wire in Hsize.
  destruct (pack_records_compressed_at DNSQuestion.decoded_name question_tail
              DNSQuestion.pack valid_question
              ltac:(by intros ? [? _]) ltac:(by intros; apply question_pack_Ok)
              (header_wire h) ∅ questions Hq (offsets_ok_empty _))
    as (r1 & m1 & Hp1 & [ext1 ->] & Hlen1 & Hat1 & Hok1).
  { rewrite length_header_wire.
    change (λ r, name_wire (DNSQuestion.decoded_name r) ++ question_tail r)
      with question_wire. lia. }
  change (λ r, name_wire (DNSQuestion.decoded_name r) ++ question_tail r)
    with question_wire in Hlen1.
  rewrite length_header_wire in Hlen1.
  destruct (pack_records_compressed_at DNSAnswer.decoded_name answer_tail
              DNSAnswer.pack valid_answer
              ltac:(by intros ? [? _]) ltac:(by intros; apply answer_pack_Ok)
              (header_wire h ++ ext1) m1 answers Ha Hok1)
    as (r2 & m2 & Hp2 & [ext2 ->] & Hlen2 & Hat2 & Hok2).
  { change (λ r, name_wire (DNSAnswer.decoded_name r) ++ answer_tail r)
      with answer_wire. lia. }
  change (λ r, name_wire (DNSAnswer.decoded_name r) ++ answer_tail r)
    with answer_wire in Hlen2.
  exists ((header_wire h ++ ext1) ++ ext2). split_and!.
  - unfold pack_all_compressed. rewrite header_pack_Ok by done. rsimpl.
    rewrite pack_questions_compressed_records, Hp1. rsimpl.
    rewrite pack_answers_compressed_records, Hp2. done.
  - unfold message_wire. rewrite !length_app, length_header_wire.
    rewrite !length_app, ?length_header_wire in Hlen1.
    rewrite !length_app, ?length_header_wire in Hlen2. lia.
  - unfold unpack_all. rewrite <- app_assoc.
    rewrite from_buffer_header_wire by done. rsimpl.
    rewrite Hqd, Han, !Nat2Z.id. rewrite app_assoc.
    rewrite length_header_wire in Hat1.
    rewrite (unpack_questions_records 2 _ _ _ _ _
               (records_at_app _ _ _ _ ext2 _ _ _ Hat1) Hq) by lia.
    rsimpl.
    rewrite (unpack_answers_records 2 _ _ _ _ _ Hat2 Ha) by lia.
    rsimpl. by rewrite (answers_shape_count answers).
Qed.

(** C2, as stated, fails. (1) A valid message whose compressed packing
    points to a name first written beyond offset 16383: the pointer's 14
    bits hold the offset modulo 16384, here 12, and the third answer
    decodes with the name of the first. (2) An answer whose rdlength is
    not the length of its rdata, all fields within their widths, does not
    come back from the uncompressed packing. (3) With no answers,
    unpacking returns no answer list. *)
Lemma round_trip_fails :
  (valid_header big_header ∧
   Forall valid_answer [big_answer; small_answer; small_answer] ∧
   DNSHeader.ancount big_header = 3 ∧
   (pack_all_uncompressed big_header [] [big_answer; small_answer; small_answer]
    ≫= decoded_answer_names 2) = Ok ["a"; "b"; "b"] ∧
   (pack_all_compressed big_header [] [big_answer; small_answer; small_answer]
    ≫= decoded_answer_names 2) = Ok ["a"; "b"; "a"]) ∧
  (valid_header odd_header ∧ valid_name (DNSAnswer.decoded_name odd_answer) ∧
   (pack_all_uncompressed odd_header [] [odd_answer] ≫= decoded_answers 2)
   = Ok [DNSAnswer.mk "a" 1 1 0 0 []]) ∧
  (pack_all_uncompressed (DNSHeader.mk 7 0 0 0 0 1 0 0 0 1 0 0 0)
     [question_a] [] ≫= unpack_all 2)
  = Ok (DNSHeader.mk 7 0 0 0 0 1 0 0 0 1 0 0 0, [question_a], None).
Proof.
  assert (valid_name "a") as Ha by (repeat constructor; simpl; lia).
  assert (valid_name "b") as Hb by (repeat constructor; simpl; lia).
  assert (valid_answer big_answer) as Hbig.
  { unfold valid_answer, rdata_complete, big_answer.
    cbn [DNSAnswer.decoded_name DNSAnswer.type_ DNSAnswer.class_
         DNSAnswer.ttl DNSAnswer.rdlength DNSAnswer.rdata].
    rewrite repeat_length. split_and!; [exact Ha|lia..]. }
  assert (valid_answer small_answer) as Hsmall.
  { unfold valid_answer, rdata_complete, small_answer.
    cbn [DNSAnswer.decoded_name DNSAnswer.type_ DNSAnswer.class_
         DNSAnswer.ttl DNSAnswer.rdlength DNSAnswer.rdata length].
    split_and!; [exact Hb|lia..]. }
  split; [|split].
  - split_and!.
    + unfold valid_header, big_header. simpl. lia.
    + repeat apply Forall_cons_2; [exact Hbig|exact Hsmall..|apply Forall_nil_2].
    + reflexivity.
    + vm_compute. reflexivity.
    + vm_compute. reflexivity.
  - split_and!.
    + unfold valid_header, odd_header. simpl. lia.
    + exact Ha.
    + vm_compute. reflexivity.
  - vm_compute. reflexivity.
Qed.

(** C2 (amended): for every valid header, question list and answer list
    (header counts matching the lists, names of 1-63 byte ASCII labels,
    numeric fields within their widths, and every rdlength the length of
    its rdata), the uncompressed packing succeeds and unpacks to exactly
    the same header, questions and answers (with no answer list when there
    are no answers); and when that packing is at most 16384 bytes long,
    the compressed packing succeeds, is no longer, and unpacks to the same
    header, questions and answers too. *)
Theorem round_trip depth h questions answers :
  valid_header h → Forall valid_question questions →
  Forall valid_answer answers →
  DNSHeader.qdcount h = Z.of_nat (length questions) →
  DNSHeader.ancount h = Z.of_nat (length answers) →
  (∃ wire,
     pack_all_uncompressed h questions answers = Ok wire ∧
     unpack_all (S depth) wire = Ok (h, questions, answers_shape answers) ∧
     (Z.of_nat (length wire) ≤ 16384 →
      ∃ compressed,
        pack_all_compressed h questions answers = Ok compressed ∧
        (length compressed ≤ length wire)%nat ∧
        unpack_all (S (S depth)) compressed
        = Ok (h, questions, answers_shape answers))).
Proof.
  intros Hh Hq Ha Hqd Han. exists (message_wire h questions answers).
  split_and!.
  - by apply pack_all_uncompressed_Ok.
  - by apply unpack_all_message_wire.
  - by apply pack_all_compressed_round_trip.
Qed.

Lemma round_trip_witness :
  ∃ wire,
    pack_all_uncompressed (DNSHeader.mk 7 1 0 0 0 1 1 0 0 2 1 0 0)
      [question_a; question_a] [answer_a] = Ok wire ∧
    unpack_all 1 wire
    = Ok (DNSHeader.mk 7 1 0 0 0 1 1 0 0 2 1 0 0, [question_a; question_a],
          answers_shape [answer_a]) ∧
    (Z.of_nat (length wire) ≤ 16384 →
     ∃ compressed,
       pack_all_compressed (DNSHeader.mk 7 1 0 0 0 1 1 0 0 2 1 0 0)
         [question_a; question_a] [answer_a] = Ok compressed ∧
       (length compressed ≤ length wire)%nat ∧
       unpack_all 2 compressed
       = Ok (DNSHeader.mk 7 1 0 0 0 1 1 0 0 2 1 0 0, [question_a; question_a],
             answers_shape [answer_a])).
Proof.
  assert (valid_name "a.example") as Hn by (repeat constructor; simpl; lia).
  apply (round_trip 0).
  - unfold valid_header. simpl. lia.
  - repeat constructor; simpl; try lia; done.
  - repeat constructor; simpl; try lia; done.
  - reflexivity.
  - reflexivity.
Defined.

(** * Further properties of the name codec *)

(** ** The size of an encoded name *)

Lemma encode_label_length l e :
  encode_label l = Ok e →
  length e = S (String.length l) ∧ (String.length l ≤ 255)%nat ∧
  is_ascii_str l = true ∧ e = label_wire l.
Proof.
  intros He. destruct (decide (label_encodable l)) as [Hl|Hl].
  - rewrite (encode_label_ok l Hl) in He. injection He as <-.
    destruct Hl. by rewrite length_label_wire.
  - destruct (encode_label_err l Hl) as [H|H]; congruence.
Qed.

Lemma encode_labels_Ok_inv ls es :
  encode_labels ls = Ok es →
  Forall label_encodable ls ∧ es = label_wire <$> ls.
Proof.
  revert es. induction ls as [|l ls IH]; intros es.
  - by intros [= <-].
  - cbn. intros (e & He & (es' & Hes & [= <-])%result_bind_Ok_inv)%result_bind_Ok_inv.
    apply encode_label_length in He as (_ & Hlen & Hasc & ->).
    destruct (IH _ Hes) as [Hls ->]. split; [|done].
    constructor; [by split|done].
Qed.

Lemma encode_name_uncompressed_Ok_inv name encoded :
  encode_name_uncompressed name = Ok encoded →
  Forall label_encodable (split_dot name) ∧ encoded = name_wire name.
Proof.
  unfold encode_name_uncompressed.
  intros (es & [Hls ->]%encode_labels_Ok_inv & [= <-])%result_bind_Ok_inv.
  done.
Qed.

(** The labels of a name, each with the byte that carries its length,
    are as long as the name and one more: every dot is replaced by a
    length byte, and the first label gets one too. *)
Lemma length_split_dot_wire s :
  length (concat (label_wire <$> split_dot s)) = S (String.length s).
Proof.
  induction s as [|c s IH]; [done|].
  cbn [split_dot]. destruct (Ascii.eqb c "."%char).
  - cbn [fmap list_fmap concat]. rewrite length_app, length_label_wire, IH.
    simpl. lia.
  - destruct (split_dot s) as [|l ls] eqn:E; [by apply split_dot_nonempty in E|].
    cbn [fmap list_fmap concat] in *. rewrite length_app, length_label_wire in *.
    simpl in *. lia.
Qed.

Lemma length_name_wire name : length (name_wire name) = (String.length name + 2)%nat.
Proof. unfold name_wire. rewrite length_app, length_split_dot_wire. simpl. lia. Qed.



(** ** A name written with its trailing dot *)

Lemma split_dot_snoc_dot s : split_dot (s ++ ".") = split_dot s ++ [EmptyString].
Proof.
  induction s as [|c s IH]; [done|].
  change (String c s +:+ ".") with (String c (s +:+ ".")).
  cbn [split_dot]. rewrite IH.
  destruct (Ascii.eqb c "."%char); [done|].
  destruct (split_dot s) as [|l ls] eqn:E; [by apply split_dot_nonempty in E|].
  done.
Qed.

Lemma encode_labels_snoc ls l :
  encode_labels (ls ++ [l])
  = (es ← encode_labels ls; e ← encode_label l; Ok (es ++ [e])).
Proof.
  induction ls as [|l' ls IH]; cbn.
  - by destruct (encode_label l).
  - destruct (encode_label l') as [e'|]; [|done]. cbn. rewrite IH.
    destruct (encode_labels ls) as [es|]; [|done]. cbn.
    by destruct (encode_label l).
Qed.



(** ** decode_name_uncompressed *)

Lemma decode_name_uncompressed_loop_unfold buf fuel labels idx :
  decode_name_uncompressed_loop buf fuel labels idx =
  match buf !! idx with
  | None => Raise IndexError
  | Some size =>
      if decide (byte_val size ≠ 0) then
        label ← bytes_decode_ascii
                  (slice buf (idx + 1) (idx + 1 + byte_nat size));
        match fuel with
        | O => Raise IndexError
        | S fuel' =>
            decode_name_uncompressed_loop buf fuel' (labels ++ [label])
              (idx + 1 + byte_nat size)%nat
        end
      else Ok (join_dot labels)
  end.
Proof. by destruct fuel. Qed.

Lemma byte_nat_pos (b : byte) : byte_val b ≠ 0 → (1 ≤ byte_nat b)%nat.
Proof. intros Hb. pose proof (byte_nat_val b). pose proof (byte_val_range b). lia. Qed.

(** The loop's fuel is never used up. *)
Lemma decode_name_uncompressed_loop_fuel buf f1 f2 labels idx :
  (length buf ≤ idx + f1)%nat → (length buf ≤ idx + f2)%nat →
  decode_name_uncompressed_loop buf f1 labels idx
  = decode_name_uncompressed_loop buf f2 labels idx.
Proof.
  revert f2 labels idx.
  induction f1 as [|f1 IH]; intros f2 labels idx H1 H2;
    rewrite (decode_name_uncompressed_loop_unfold _ f2),
      decode_name_uncompressed_loop_unfold;
    (destruct (buf !! idx) as [size|] eqn:Hsize; [|done]);
    apply lookup_lt_Some in Hsize;
    (case_decide as Hnz; [|done]).
  - lia.
  - destruct f2 as [|f2]; [lia|].
    destruct (bytes_decode_ascii _) as [label|]; [|done]. cbn.
    apply byte_nat_pos in Hnz. apply IH; lia.
Qed.

Lemma label_length_byte_255 l :
  (String.length l ≤ 255)%nat →
  byte_val (byte_of_Z (Z.of_nat (String.length l))) = Z.of_nat (String.length l) ∧
  byte_nat (byte_of_Z (Z.of_nat (String.length l))) = String.length l.
Proof.
  intros Hlen.
  assert (byte_val (byte_of_Z (Z.of_nat (String.length l)))
          = Z.of_nat (String.length l)) as Hv.
  { rewrite byte_val_of_Z. apply Z.mod_small. lia. }
  split; [done|]. apply Nat2Z.inj. by rewrite byte_nat_val.
Qed.

Lemma decode_name_uncompressed_loop_plain pre labels post fuel acc :
  Forall (λ l, (1 ≤ String.length l)%nat ∧ label_encodable l) labels →
  (length labels ≤ fuel)%nat →
  decode_name_uncompressed_loop
    (pre ++ concat (label_wire <$> labels) ++ x00 :: post) fuel acc (length pre)
  = Ok (join_dot (acc ++ labels)).
Proof.
  intros Hvalid. revert pre fuel acc.
  induction Hvalid as [|l labels Hl _ IH]; intros pre fuel acc Hfuel;
    rewrite decode_name_uncompressed_loop_unfold.
  - simpl. rewrite list_lookup_middle by done.
    rewrite decide_False by (intros H; by apply H). by rewrite app_nil_r.
  - destruct Hl as [Hpos [Hlen Hasc]].
    destruct (label_length_byte_255 l Hlen) as [Hval Hnat].
    cbn [fmap list_fmap concat]. rewrite <- app_assoc.
    rewrite lookup_label_byte.
    rewrite decide_True by lia.
    rewrite Hnat, slice_label.
    rewrite bytes_decode_ascii_encode by done. cbn.
    destruct fuel as [|fuel]; [simpl in Hfuel; lia|].
    specialize (IH (pre ++ label_wire l) fuel (acc ++ [l])).
    rewrite length_app, length_label_wire, <- app_assoc in IH.
    replace (length pre + 1 + String.length l)%nat
      with (length pre + S (String.length l))%nat by lia.
    etrans; [apply IH|].
    + simpl in Hfuel. lia.
    + by rewrite <- app_assoc.
Qed.



Lemma byte_val_0 (b : byte) : byte_val b = 0 → b = x00.
Proof. intros Hb. by rewrite <- (byte_of_Z_val b), Hb. Qed.

Lemma decode_name_uncompressed_loop_result buf fuel labels idx :
  match decode_name_uncompressed_loop buf fuel labels idx with
  | Ok _ => ∃ i, buf !! i = Some x00
  | Raise e => e = IndexError ∨ e = UnicodeDecodeError
  end.
Proof.
  revert labels idx. induction fuel as [|fuel IH]; intros labels idx;
    rewrite decode_name_uncompressed_loop_unfold;
    (destruct (buf !! idx) as [size|] eqn:Hsize; [|by left]);
    (case_decide as Hnz;
      [|apply byte_val_0 in Hnz; subst size; by exists idx]);
    (destruct (bytes_decode_ascii _) as [label|e] eqn:Hlabel;
      [|apply bytes_decode_ascii_Raise in Hlabel; by right]); rsimpl.
  - by left.
  - apply IH.
Qed.


Lemma decode_name_loop_agrees rec buf fuel labels visited idx :
  Forall (λ b, Z.land (byte_val b) 0xC0 ≠ 0xC0) buf →
  (∀ i, i ∈ visited → (i < idx)%nat) →
  (decode_name_loop rec buf fuel labels visited idx ≫= λ r, Ok r.1)
  = decode_name_uncompressed_loop buf fuel labels idx.
Proof.
  intros Hbuf. revert labels visited idx.
  induction fuel as [|fuel IH]; intros labels visited idx Hvis;
    rewrite decode_name_loop_unfold, decode_name_uncompressed_loop_unfold;
    (rewrite decide_False by (intros Hin%Hvis; lia));
    (destruct (buf !! idx) as [size|] eqn:Hsize; [|done]);
    (case_decide as Hz; [by rewrite decide_False by (intros H; by apply H)|]);
    rewrite (decide_True _ _ Hz);
    rewrite decide_False by (by eapply (proj1 (Forall_lookup _ _) Hbuf));
    (destruct (bytes_decode_ascii _) as [label|e]; [|done]); rsimpl.
  - done.
  - apply IH. intros i [Hi| ->%elem_of_singleton]%elem_of_union; [|lia].
    apply Hvis in Hi. lia.
Qed.



(** ** decode_name: labels followed by a pointer *)

Lemma decode_name_loop_suffix rec pre labels b1 b0 post fuel acc visited :
  Forall valid_label labels →
  (∀ i, i ∈ visited → (i < length pre)%nat) →
  (length labels ≤ fuel)%nat →
  Z.land (byte_val b1) 0xC0 = 0xC0 →
  decode_name_loop rec (pre ++ concat (label_wire <$> labels) ++ [b1; b0] ++ post)
    fuel acc visited (length pre)
  = ('(domain, _) ← rec (Z.to_nat (Z.land (be16 b1 b0) 0x3FFF));
     Ok (join_dot ((acc ++ labels) ++ [domain]),
         (length pre + length (concat (label_wire <$> labels)) + 2)%nat)).
Proof.
  intros Hvalid. revert pre fuel acc visited.
  induction Hvalid as [|l labels Hl _ IH];
    intros pre fuel acc visited Hvis Hfuel Hptr.
  - cbn [fmap list_fmap concat app].
    destruct (lookup_pointer_bytes pre b1 b0 post) as [H1 H0].
    rewrite (decode_name_loop_pointer rec _ fuel acc visited (length pre) b1 b0);
      [|intros Hin%Hvis; lia|done|done|done].
    rewrite app_nil_r. simpl. by rewrite Nat.add_0_r.
  - rewrite decode_name_loop_unfold.
    rewrite decide_False by (intros Hin%Hvis; lia).
    destruct (label_length_byte l Hl) as [Hval Hnat]. destruct Hl as [Hlen Hasc].
    cbn [fmap list_fmap concat]. rewrite <- app_assoc.
    rewrite lookup_label_byte.
    rewrite decide_False by lia.
    rewrite decide_False by (rewrite Hval, land_192_small; lia).
    rewrite Hnat, slice_label.
    rewrite bytes_decode_ascii_encode by done. rsimpl.
    destruct fuel as [|fuel]; [simpl in Hfuel; lia|].
    specialize (IH (pre ++ label_wire l) fuel (acc ++ [l])
                   (visited ∪ {[length pre]})).
    rewrite length_app, length_label_wire, <- app_assoc in IH.
    replace (length pre + 1 + String.length l)%nat
      with (length pre + S (String.length l))%nat by lia.
    etrans; [apply IH|].
    + intros i [Hi| ->%elem_of_singleton]%elem_of_union; [|lia].
      apply Hvis in Hi. lia.
    + simpl in Hfuel. lia.
    + done.
    + destruct (rec _) as [[domain ?]|]; [|done]. rsimpl.
      rewrite <- !app_assoc. cbn [app]. do 3 f_equal.
      rewrite !length_app, length_label_wire. lia.
Qed.



(** * Further properties of the message codec *)

(** ** The header: both round trips *)

Lemma from_buffer_take buf :
  DNSHeader.from_buffer (take 12 buf) = DNSHeader.from_buffer buf.
Proof. unfold DNSHeader.from_buffer. by rewrite take_take. Qed.



Lemma byte_of_Z_mod z1 z2 : z1 mod 256 = z2 mod 256 → byte_of_Z z1 = byte_of_Z z2.
Proof. unfold byte_of_Z. by intros ->. Qed.

Lemma be16_bytes_be16 b1 b0 : be16_bytes (be16 b1 b0) = [b1; b0].
Proof.
  unfold be16_bytes, be16.
  pose proof (byte_val_range b1). pose proof (byte_val_range b0).
  f_equal; [|f_equal].
  - rewrite <- (byte_of_Z_val b1) at 2. f_equal.
    rewrite Z.div_add_l by lia. rewrite Z.div_small by lia. lia.
  - rewrite <- (byte_of_Z_val b0) at 2. apply byte_of_Z_mod.
    rewrite Z.add_comm, Z.mod_add by lia. done.
Qed.

Lemma be16_range b1 b0 : 0 ≤ be16 b1 b0 ≤ 65535.
Proof.
  unfold be16. pose proof (byte_val_range b1). pose proof (byte_val_range b0). lia.
Qed.

(** The flag fields that [from_buffer] cuts out of the 16 bits put
    together again by [pack] give the 16 bits. *)
Lemma flags_of_fields f :
  0 ≤ f ≤ 65535 →
  Z.lor (Z.shiftl (Z.land (Z.shiftr f 15) 0x1) 15)
 (Z.lor (Z.shiftl (Z.land (Z.shiftr f 11) 0xF) 11)
 (Z.lor (Z.shiftl (Z.land (Z.shiftr f 10) 0x1) 10)
 (Z.lor (Z.shiftl (Z.land (Z.shiftr f 9) 0x1) 9)
 (Z.lor (Z.shiftl (Z.land (Z.shiftr f 8) 0x1) 8)
 (Z.lor (Z.shiftl (Z.land (Z.shiftr f 7) 0x1) 7)
 (Z.lor (Z.shiftl (Z.land (Z.shiftr f 4) 0x7) 4)
        (Z.land f 0xF))))))) = f.
Proof.
  intros Hf. rewrite !Z.shiftr_div_pow2 by lia.
  change (Z.land (f / 2 ^ 15) 1) with (Z.land (f / 2 ^ 15) (Z.ones 1)).
  change (Z.land (f / 2 ^ 11) 15) with (Z.land (f / 2 ^ 11) (Z.ones 4)).
  change (Z.land (f / 2 ^ 10) 1) with (Z.land (f / 2 ^ 10) (Z.ones 1)).
  change (Z.land (f / 2 ^ 9) 1) with (Z.land (f / 2 ^ 9) (Z.ones 1)).
  change (Z.land (f / 2 ^ 8) 1) with (Z.land (f / 2 ^ 8) (Z.ones 1)).
  change (Z.land (f / 2 ^ 7) 1) with (Z.land (f / 2 ^ 7) (Z.ones 1)).
  change (Z.land (f / 2 ^ 4) 7) with (Z.land (f / 2 ^ 4) (Z.ones 3)).
  change (Z.land f 15) with (Z.land f (Z.ones 4)).
  rewrite !Z.land_ones by lia.
  change (2 ^ 15) with 32768. change (2 ^ 11) with 2048.
  change (2 ^ 10) with 1024. change (2 ^ 9) with 512.
  change (2 ^ 8) with 256. change (2 ^ 7) with 128.
  change (2 ^ 4) with 16. change (2 ^ 3) with 8. change (2 ^ 1) with 2.
  rewrite (lor_shiftl_add _ _ 4) by (Z.div_mod_to_equations; lia).
  rewrite (lor_shiftl_add _ _ 7) by (Z.div_mod_to_equations; lia).
  rewrite (lor_shiftl_add _ _ 8) by (Z.div_mod_to_equations; lia).
  rewrite (lor_shiftl_add _ _ 9) by (Z.div_mod_to_equations; lia).
  rewrite (lor_shiftl_add _ _ 10) by (Z.div_mod_to_equations; lia).
  rewrite (lor_shiftl_add _ _ 11) by (Z.div_mod_to_equations; lia).
  rewrite (lor_shiftl_add _ _ 15) by (Z.div_mod_to_equations; lia).
  Z.div_mod_to_equations; lia.
Qed.

Lemma land_ones_range x k : 0 ≤ k → 0 ≤ Z.land x (Z.ones k) ≤ Z.ones k.
Proof.
  intros Hk. rewrite Z.land_ones by done. rewrite Z.ones_equiv.
  pose proof (Z.mod_pos_bound x (2 ^ k)). lia.
Qed.

(** What [from_buffer] returns has every field within its bit width, and
    is packed into the 12 bytes it was read from. *)
Lemma from_buffer_valid buf h :
  DNSHeader.from_buffer buf = Ok h →
  valid_header h ∧ DNSHeader.pack h = Ok (take 12 buf).
Proof.
  intros Hfrom. pose proof (from_buffer_Ok _ _ Hfrom) as Hlen. revert Hfrom.
  destruct buf as [|a1 [|a0 [|b1 [|b0 [|c1 [|c0 [|d1 [|d0 [|e1 [|e0 [|f1 [|f0 rest]]]]]]]]]]]];
    simpl in Hlen; try lia.
  intros [= <-].
  pose proof (be16_range a1 a0). pose proof (be16_range b1 b0).
  pose proof (be16_range c1 c0). pose proof (be16_range d1 d0).
  pose proof (be16_range e1 e0). pose proof (be16_range f1 f0).
  assert (valid_header
    {| DNSHeader.id := be16 a1 a0;
       DNSHeader.qr := Z.land (Z.shiftr (be16 b1 b0) 15) 1;
       DNSHeader.opcode := Z.land (Z.shiftr (be16 b1 b0) 11) 15;
       DNSHeader.aa := Z.land (Z.shiftr (be16 b1 b0) 10) 1;
       DNSHeader.tc := Z.land (Z.shiftr (be16 b1 b0) 9) 1;
       DNSHeader.rd := Z.land (Z.shiftr (be16 b1 b0) 8) 1;
       DNSHeader.ra := Z.land (Z.shiftr (be16 b1 b0) 7) 1;
       DNSHeader.z := Z.land (Z.shiftr (be16 b1 b0) 4) 7;
       DNSHeader.rcode := Z.land (be16 b1 b0) 15;
       DNSHeader.qdcount := be16 c1 c0;
       DNSHeader.ancount := be16 d1 d0;
       DNSHeader.nscount := be16 e1 e0;
       DNSHeader.arcount := be16 f1 f0 |}) as Hvalid.
  { unfold valid_header. cbn [DNSHeader.id DNSHeader.qr DNSHeader.opcode
      DNSHeader.aa DNSHeader.tc DNSHeader.rd DNSHeader.ra DNSHeader.z
      DNSHeader.rcode DNSHeader.qdcount DNSHeader.ancount DNSHeader.nscount
      DNSHeader.arcount].
    pose proof (land_ones_range (Z.shiftr (be16 b1 b0) 15) 1).
    pose proof (land_ones_range (Z.shiftr (be16 b1 b0) 11) 4).
    pose proof (land_ones_range (Z.shiftr (be16 b1 b0) 10) 1).
    pose proof (land_ones_range (Z.shiftr (be16 b1 b0) 9) 1).
    pose proof (land_ones_range (Z.shiftr (be16 b1 b0) 8) 1).
    pose proof (land_ones_range (Z.shiftr (be16 b1 b0) 7) 1).
    pose proof (land_ones_range (Z.shiftr (be16 b1 b0) 4) 3).
    pose proof (land_ones_range (be16 b1 b0) 4).
    change (Z.ones 1) with 1 in *. change (Z.ones 4) with 15 in *.
    change (Z.ones 3) with 7 in *. lia. }
  split; [exact Hvalid|].
  rewrite (header_pack_Ok _ Hvalid). f_equal.
  unfold header_wire, DNSHeader.flags.
  cbn [DNSHeader.id DNSHeader.qr DNSHeader.opcode
      DNSHeader.aa DNSHeader.tc DNSHeader.rd DNSHeader.ra DNSHeader.z
      DNSHeader.rcode DNSHeader.qdcount DNSHeader.ancount DNSHeader.nscount
      DNSHeader.arcount].
  rewrite flags_of_fields by done. by rewrite !be16_bytes_be16.
Qed.

Lemma from_buffer_long buf :
  (12 ≤ length buf)%nat → ∃ h, DNSHeader.from_buffer buf = Ok h.
Proof.
  intros Hlen.
  destruct buf as [|a1 [|a0 [|b1 [|b0 [|c1 [|c0 [|d1 [|d0 [|e1 [|e0 [|f1 [|f0 rest]]]]]]]]]]]];
    simpl in Hlen; try lia.
  by eexists.
Qed.



(** ** Packing: when compression changes nothing *)

Lemma pack_questions_uncompressed_records response questions :
  pack_questions_uncompressed response questions
  = pack_records_uncompressed DNSQuestion.decoded_name DNSQuestion.pack
      response questions.
Proof.
  revert response. induction questions as [|q questions IH]; intros response;
    [done|].
  cbn. destruct (encode_name_uncompressed _) as [name|]; [|done]. rsimpl.
  destruct (DNSQuestion.pack q name) as [packed|]; [|done]. rsimpl. apply IH.
Qed.

Lemma pack_answers_uncompressed_records response answers :
  pack_answers_uncompressed response answers
  = pack_records_uncompressed DNSAnswer.decoded_name DNSAnswer.pack
      response answers.
Proof.
  revert response. induction answers as [|a answers IH]; intros response;
    [done|].
  cbn. destruct (encode_name_uncompressed _) as [name|]; [|done]. rsimpl.
  destruct (DNSAnswer.pack a name) as [packed|]; [|done]. rsimpl. apply IH.
Qed.

(** Records whose names are new to the offset map and differ from one
    another are written by the compressing loop as by the plain one; the
    names are then in the map. *)
Lemma pack_records_compressed_fresh {R} (rname : R → string)
    (rpack : R → bytes → result bytes) response name_offset_map records :
  NoDup (rname <$> records) →
  (∀ r, r ∈ records → name_offset_map !! rname r = None) →
  match pack_records_compressed rname rpack response name_offset_map records with
  | Ok (response', name_offset_map') =>
      pack_records_uncompressed rname rpack response records = Ok response' ∧
      ∀ name, is_Some (name_offset_map' !! name) ↔
              is_Some (name_offset_map !! name) ∨ name ∈ rname <$> records
  | Raise e => pack_records_uncompressed rname rpack response records = Raise e
  end.
Proof.
  revert response name_offset_map.
  induction records as [|r records IH]; intros response m Hnodup Hfresh.
  - cbn. split; [done|]. intros n. rewrite elem_of_nil. tauto.
  - rewrite fmap_cons in Hnodup. apply NoDup_cons in Hnodup as [Hr Hnodup].
    cbn [pack_records_compressed pack_records_uncompressed].
    unfold compress_name. rewrite (Hfresh r) by apply list_elem_of_here.
    destruct (encode_name_uncompressed (rname r)) as [name|]; [|done]. rsimpl.
    destruct (rpack r name) as [packed|]; [|done]. rsimpl.
    specialize (IH (response ++ packed) (<[rname r := length response]> m) Hnodup).
    destruct (pack_records_compressed _ _ _ _ records) as [[response' m']|e].
    + destruct IH as [-> Hdom].
      { intros r' Hr'. rewrite lookup_insert_ne.
        - apply Hfresh. by apply list_elem_of_further.
        - intros Heq. apply Hr. rewrite Heq. by apply list_elem_of_fmap_2. }
      split; [done|]. intros n. rewrite Hdom, fmap_cons, elem_of_cons.
      destruct (decide (n = rname r)) as [->|Hne].
      * rewrite lookup_insert_eq. split; [auto|]. intros _. left. by eexists.
      * rewrite lookup_insert_ne by done. tauto.
    + apply IH. intros r' Hr'. rewrite lookup_insert_ne.
      * apply Hfresh. by apply list_elem_of_further.
      * intros Heq. apply Hr. rewrite Heq. by apply list_elem_of_fmap_2.
Qed.



(** ** Packing: the answers to one question *)

Lemma pack_answers_compressed_pointer response name_offset_map name answers :
  name_offset_map !! name = Some 12%nat →
  Forall valid_answer answers →
  Forall (λ a, DNSAnswer.decoded_name a = name) answers →
  pack_answers_compressed response name_offset_map answers
  = Ok (response ++ concat ((λ a, [xc0; x0c] ++ answer_tail a) <$> answers),
        name_offset_map).
Proof.
  intros Hname Hvalid. revert response.
  induction Hvalid as [|a answers Ha _ IH]; intros response Hnames.
  - cbn. by rewrite app_nil_r.
  - apply Forall_cons in Hnames as [Hn Hnames].
    cbn [pack_answers_compressed]. unfold compress_name. rewrite Hn, Hname.
    change (pack_H (Z.lor 49152 (Z.of_nat 12))) with (Ok [xc0; x0c] : result bytes).
    rsimpl. rewrite (answer_pack_Ok a _ Ha). rsimpl.
    rewrite IH by done. cbn [fmap list_fmap concat]. by rewrite <- !app_assoc.
Qed.



(** ** Packing: the size of a message *)

Lemma pack_H_length v bs : pack_H v = Ok bs → length bs = 2%nat.
Proof. unfold pack_H. case_decide; [|done]. by intros [= <-]. Qed.

Lemma pack_I_length v bs : pack_I v = Ok bs → length bs = 4%nat.
Proof. unfold pack_I. case_decide; [|done]. by intros [= <-]. Qed.

Lemma DNSHeader_pack_length h bs : DNSHeader.pack h = Ok bs → length bs = 12%nat.
Proof.
  unfold DNSHeader.pack.
  intros (b0 & H0%pack_H_length & (b1 & H1%pack_H_length & (b2 & H2%pack_H_length
    & (b3 & H3%pack_H_length & (b4 & H4%pack_H_length & (b5 & H5%pack_H_length
    & [= <-])%result_bind_Ok_inv)%result_bind_Ok_inv)%result_bind_Ok_inv
    )%result_bind_Ok_inv)%result_bind_Ok_inv)%result_bind_Ok_inv.
  rewrite !length_app. lia.
Qed.

Lemma DNSQuestion_pack_length q name bs :
  DNSQuestion.pack q name = Ok bs → length bs = (length name + 4)%nat.
Proof.
  unfold DNSQuestion.pack.
  intros (t & Ht%pack_H_length & (c & Hc%pack_H_length
    & [= <-])%result_bind_Ok_inv)%result_bind_Ok_inv.
  rewrite !length_app. lia.
Qed.

Lemma DNSAnswer_pack_length a name bs :
  DNSAnswer.pack a name = Ok bs →
  length bs = (length name + 10 + length (DNSAnswer.rdata a))%nat.
Proof.
  unfold DNSAnswer.pack.
  intros (t & Ht%pack_H_length & (c & Hc%pack_H_length & (l & Hl%pack_I_length
    & (n & Hn%pack_H_length & [= <-])%result_bind_Ok_inv)%result_bind_Ok_inv
    )%result_bind_Ok_inv)%result_bind_Ok_inv.
  rewrite !length_app. lia.
Qed.

Lemma pack_records_uncompressed_length {R} (rname : R → string)
    (rpack : R → bytes → result bytes) (extra : R → nat) response records wire :
  (∀ r name bs, rpack r name = Ok bs → length bs = (length name + extra r)%nat) →
  pack_records_uncompressed rname rpack response records = Ok wire →
  length wire
  = (length response
     + sum_list ((λ r, String.length (rname r) + 2 + extra r)%nat <$> records))%nat.
Proof.
  intros Hpack. revert response.
  induction records as [|r records IH]; intros response.
  - intros [= <-]. simpl. lia.
  - cbn [pack_records_uncompressed].
    intros (name & [_ ->]%encode_name_uncompressed_Ok_inv
      & (packed & Hp%Hpack & Hrest%IH)%result_bind_Ok_inv)%result_bind_Ok_inv.
    rewrite Hrest, length_app, Hp, length_name_wire, fmap_cons.
    cbn [sum_list_with id]. lia.
Qed.



(** * Further properties of the TimedCache *)

Lemma TimedCache_get_unfold clock key s :
  TimedCache.get clock key s =
  match data s !! key with
  | None => (Ok None, s)
  | Some (value, expiry) =>
      if Qlt_le_dec expiry (clock (reads s))
      then (Ok None, Store (delete key (data s)) (S (reads s)))
      else (Ok (Some value), Store (data s) (S (reads s)))
  end.
Proof.
  unfold_M. destruct (data s !! key) as [[value expiry]|]; [|done]. simpl.
  by destruct (Qlt_le_dec expiry (clock (reads s))).
Qed.

Lemma TimedCache_set_unfold clock key value ttl s :
  TimedCache.set clock key value ttl s =
  (Ok (), Store (<[key := (value, (clock (reads s) + inject_Z ttl)%Q)]> (data s))
                (S (reads s))).
Proof. by unfold_M. Qed.



Lemma TimedCache_contains_get clock key s :
  TimedCache.contains clock key s
  = (match (TimedCache.get clock key s).1 with
     | Ok r => Ok (bool_decide (r ≠ None))
     | Raise e => Raise e
     end, (TimedCache.get clock key s).2).
Proof.
  unfold TimedCache.contains. unfold mbind at 1. unfold M_bind.
  by destruct (TimedCache.get clock key s) as [[r|e] s'].
Qed.





(** * Further properties of handle_dns_query *)

Lemma unpack_all_Ok_header depth buf h questions answers :
  unpack_all depth buf = Ok (h, questions, answers) →
  valid_header h ∧ length questions = Z.to_nat (DNSHeader.qdcount h) ∧
  (answers = None → DNSHeader.ancount h = 0).
Proof.
  unfold unpack_all. rewrite from_buffer_take.
  intros (h' & [Hvalid _]%from_buffer_valid & Hrest)%result_bind_Ok_inv.
  apply result_bind_Ok_inv in Hrest as ([qs i1] & Hqs & Hrest).
  apply result_bind_Ok_inv in Hrest as ([ans i2] & _ & Hrest).
  injection Hrest as -> -> <-.
  apply unpack_questions_read in Hqs as (Hlen & _). split_and!; [done..|].
  by case_decide.
Qed.

Section handle.
Context (fnmatch : string → string → bool) (inet_aton : string → result bytes)
  (clock : nat → Q) (depth : nat) (self : ServerManager.t).

Abbreviation handle_dns_query resolver :=
  (ServerManager.handle_dns_query fnmatch inet_aton resolver clock depth self).
Abbreviation route resolver :=
  (ServerManager.route fnmatch inet_aton resolver clock depth self).
Abbreviation classify := (ServerManager.classify fnmatch clock self).
Abbreviation splice_cached := (ServerManager.splice_cached clock).
Abbreviation splice_blocked := (ServerManager.splice_blocked inet_aton self).
Abbreviation update_cache := (ServerManager.update_cache clock).

Lemma handle_dns_query_unfold resolver buf s h questions :
  unpack_all depth buf = Ok (h, questions, None) →
  handle_dns_query resolver buf s =
  match route resolver h questions s with
  | (Ok (recv_header, recv_questions, recv_answers), s1) =>
      match update_cache (zip questions recv_answers) s1 with
      | (Ok _, s2) => (pack_response recv_header recv_questions recv_answers, s2)
      | (Raise e, s2) => (Raise e, s2)
      end
  | (Raise e, s1) => (Raise e, s1)
  end.
Proof.
  intros Hunpack. unfold ServerManager.handle_dns_query.
  unfold mbind at 1. unfold M_bind at 1. unfold lift at 1. rewrite Hunpack.
  unfold mbind at 1. unfold M_bind at 1.
  destruct (route resolver h questions s) as [[[[rh rq] ra]|e] s1]; [|done].
  unfold mbind at 1. unfold M_bind at 1.
  destruct (update_cache (zip questions ra) s1) as [[[]|e] s2]; [|done].
  unfold pack_response. by destruct (answers_until_none ra).
Qed.

Lemma route_unfold resolver h questions s nq bl ca s1 :
  classify 0 questions [] [] [] s = (Ok (nq, bl, ca), s1) →
  route resolver h questions s =
  match ServerManager.forward resolver depth
          (DNSHeader.with_qdcount h (Z.of_nat (length nq))) nq with
  | Ok (recv_header, recv_questions, recv_answers) =>
      match splice_cached questions ca recv_questions recv_answers s1 with
      | (Ok (recv_questions, recv_answers), s2) =>
          match splice_blocked questions bl recv_questions recv_answers with
          | Ok (recv_questions, recv_answers) =>
              (Ok (DNSHeader.with_ancount
                     (DNSHeader.with_qdcount
                        (if (0 <? length ca)%nat || (0 <? length bl)%nat
                         then DNSHeader.with_ra (DNSHeader.with_rd recv_header 0) 0
                         else recv_header)
                        (Z.of_nat (length recv_questions)))
                     (Z.of_nat (length recv_answers)),
                   recv_questions, recv_answers), s2)
          | Raise e => (Raise e, s2)
          end
      | (Raise e, s2) => (Raise e, s2)
      end
  | Raise e => (Raise e, s1)
  end.
Proof.
  intros Hclass. unfold ServerManager.route.
  unfold mbind at 1. unfold M_bind at 1. rewrite Hclass.
  unfold mbind at 1. unfold M_bind at 1. unfold lift at 1.
  destruct (ServerManager.forward _ _ _ _) as [[[rh rq] ra]|e]; [|done].
  unfold mbind at 1. unfold M_bind at 1.
  destruct (splice_cached questions ca rq ra s1) as [[[rq1 ra1]|e] s2]; [|done].
  unfold mbind at 1. unfold M_bind at 1. unfold lift at 1.
  by destruct (splice_blocked questions bl rq1 ra1) as [[rq2 ra2]|e].
Qed.

(** Nothing to forward: the upstream is not asked. *)
Lemma forward_nothing resolver h :
  ServerManager.forward resolver depth (DNSHeader.with_qdcount h (Z.of_nat 0)) []
  = Ok (DNSHeader.with_qr (DNSHeader.with_qdcount h 0) 1, [], []).
Proof. unfold ServerManager.forward. by rewrite decide_False by (simpl; lia). Qed.
Lemma classify_cons i question questions nq bl ca s :
  classify i (question :: questions) nq bl ca s =
  match TimedCache.contains clock question s with
  | (Ok true, s1) => classify (S i) questions nq bl (ca ++ [i]) s1
  | (Ok false, s1) =>
      if existsb (fnmatch (DNSQuestion.decoded_name question))
           (elements (ServerManager.blocklist self))
      then classify (S i) questions nq (bl ++ [i]) ca s1
      else classify (S i) questions (nq ++ [question]) bl ca s1
  | (Raise e, s1) => (Raise e, s1)
  end.
Proof.
  cbn [ServerManager.classify]. unfold mbind at 1. unfold M_bind at 1.
  destruct (TimedCache.contains clock question s) as [[[]|e] s1]; [done| |done].
  by destruct (existsb _ _).
Qed.

Lemma splice_cached_cons questions idx rest rq ra s :
  splice_cached questions (idx :: rest) rq ra s =
  match questions !! idx with
  | Some question =>
      match TimedCache.get clock question s with
      | (Ok answer, s1) =>
          splice_cached questions rest (list_insert_at idx question rq)
            (list_insert_at idx answer ra) s1
      | (Raise e, s1) => (Raise e, s1)
      end
  | None => (Raise IndexError, s)
  end.
Proof.
  cbn [ServerManager.splice_cached]. unfold mbind at 1. unfold M_bind at 1.
  unfold lift at 1. destruct (questions !! idx) as [question|]; [|done]. simpl.
  unfold mbind at 1. unfold M_bind at 1.
  by destruct (TimedCache.get clock question s) as [[answer|e] s1].
Qed.

Lemma blocked_matches question :
  existsb (fnmatch (DNSQuestion.decoded_name question))
    (elements (ServerManager.blocklist self)) = true ↔
  ∃ pat, pat ∈ ServerManager.blocklist self ∧
         fnmatch (DNSQuestion.decoded_name question) pat = true.
Proof.
  rewrite existsb_exists. split; intros (pat & Hin & Hm); exists pat.
  - split; [|done]. apply elem_of_elements. by apply list_elem_of_In.
  - split; [|done]. apply list_elem_of_In. by apply elem_of_elements.
Qed.
End handle.



Lemma pack_response_complete rh rq answers :
  pack_response rh rq (Some <$> answers) = pack_all_compressed rh rq answers.
Proof.
  unfold pack_response.
  assert (answers_until_none (Some <$> answers) = (answers, true)) as ->.
  { induction answers as [|a answers IH]; [done|]. cbn. by rewrite IH. }
  by destruct (pack_all_compressed rh rq answers).
Qed.







(** ** Answering without the upstream, and failing with it *)

Lemma length_list_insert_at {A} i (x : A) l :
  length (list_insert_at i x l) = S (length l).
Proof.
  unfold list_insert_at. rewrite length_app. cbn [length].
  rewrite <- (take_drop i l) at 3. rewrite length_app. lia.
Qed.

Lemma pack_records_compressed_prefix {R} (rname : R → string)
    (rpack : R → bytes → result bytes) response name_offset_map records
    response' name_offset_map' :
  (∀ r name bs, rpack r name = Ok bs → ∃ tail, bs = name ++ tail) →
  pack_records_compressed rname rpack response name_offset_map records
  = Ok (response', name_offset_map') →
  ∃ ext, response' = response ++ ext.
Proof.
  intros Hpack. revert response name_offset_map.
  induction records as [|r records IH]; intros response m.
  - intros [= <- _]. exists []. by rewrite app_nil_r.
  - cbn [pack_records_compressed].
    intros ([name m1] & _ & (packed & _ & [ext ->]%IH)%result_bind_Ok_inv
      )%result_bind_Ok_inv.
    exists (packed ++ ext). by rewrite app_assoc.
Qed.

Lemma DNSQuestion_pack_prefix q name bs :
  DNSQuestion.pack q name = Ok bs → ∃ tail, bs = name ++ tail.
Proof.
  unfold DNSQuestion.pack.
  intros (t & _ & (c & _ & [= <-])%result_bind_Ok_inv)%result_bind_Ok_inv.
  by eexists.
Qed.

Lemma DNSAnswer_pack_prefix a name bs :
  DNSAnswer.pack a name = Ok bs → ∃ tail, bs = name ++ tail.
Proof.
  unfold DNSAnswer.pack.
  intros (t & _ & (c & _ & (l & _ & (n & _ & [= <-])%result_bind_Ok_inv
    )%result_bind_Ok_inv)%result_bind_Ok_inv)%result_bind_Ok_inv.
  by eexists.
Qed.

(** A packed message starts with its header. *)
Lemma pack_all_compressed_header h questions answers wire :
  valid_header h →
  pack_all_compressed h questions answers = Ok wire →
  DNSHeader.from_buffer wire = Ok h.
Proof.
  intros Hh. unfold pack_all_compressed. rewrite (header_pack_Ok h Hh). rsimpl.
  rewrite pack_questions_compressed_records.
  intros ([r1 m1] & [e1 ->]%pack_records_compressed_prefix & Hrest
    )%result_bind_Ok_inv; [|apply DNSQuestion_pack_prefix].
  rewrite pack_answers_compressed_records in Hrest.
  apply result_bind_Ok_inv in Hrest
    as ([r2 m2] & [e2 ->]%pack_records_compressed_prefix & [= <-]);
    [|apply DNSAnswer_pack_prefix].
  rewrite <- from_buffer_take.
  exact (from_buffer_header_wire h (e1 ++ e2) Hh).
Qed.

Lemma pack_response_Ok rh rq ra wire :
  pack_response rh rq ra = Ok wire →
  ∃ answers, pack_all_compressed rh rq answers = Ok wire.
Proof.
  unfold pack_response. destruct (answers_until_none ra) as [answers complete].
  intros (response & Hpack & Hc)%result_bind_Ok_inv.
  exists answers. destruct complete; [|done]. by injection Hc as <-.
Qed.

Section local.
Context (fnmatch : string → string → bool) (inet_aton : string → result bytes)
  (clock : nat → Q) (depth : nat) (self : ServerManager.t).

Abbreviation classify := (ServerManager.classify fnmatch clock self).
Abbreviation splice_cached := (ServerManager.splice_cached clock).
Abbreviation splice_blocked := (ServerManager.splice_blocked inet_aton self).

Lemma classify_lengths i questions nq bl ca s nq' bl' ca' s' :
  classify i questions nq bl ca s = (Ok (nq', bl', ca'), s') →
  (length nq' + length bl' + length ca'
   = length nq + length bl + length ca + length questions)%nat.
Proof.
  revert i nq bl ca s.
  induction questions as [|q questions IH]; intros i nq bl ca s.
  - intros [= <- <- <- _]. simpl. lia.
  - rewrite classify_cons.
    destruct (TimedCache.contains clock q s) as [[[]|e] s1]; [| |done].
    + intros ->%IH. rewrite length_app. simpl. lia.
    + destruct (existsb _ _); intros ->%IH; rewrite length_app; simpl; lia.
Qed.

Lemma splice_cached_length questions ca rq ra s rq' ra' s' :
  splice_cached questions ca rq ra s = (Ok (rq', ra'), s') →
  length rq' = (length rq + length ca)%nat ∧
  length ra' = (length ra + length ca)%nat.
Proof.
  revert rq ra s. induction ca as [|idx ca IH]; intros rq ra s.
  - intros [= <- <- _]. simpl. lia.
  - rewrite splice_cached_cons.
    destruct (questions !! idx) as [q|]; [|done].
    destruct (TimedCache.get clock q s) as [[a|e] s1]; [|done].
    intros [-> ->]%IH. rewrite !length_list_insert_at. simpl. lia.
Qed.

Lemma splice_blocked_length questions bl rq ra rq' ra' :
  splice_blocked questions bl rq ra = Ok (rq', ra') →
  length rq' = (length rq + length bl)%nat ∧
  length ra' = (length ra + length bl)%nat.
Proof.
  revert rq ra. induction bl as [|idx bl IH]; intros rq ra.
  - intros [= <- <-]. simpl. lia.
  - cbn [ServerManager.splice_blocked].
    intros (q & _ & (a & _ & [-> ->]%IH)%result_bind_Ok_inv)%result_bind_Ok_inv.
    rewrite !length_list_insert_at. simpl. lia.
Qed.
End local.





(** * The serving loop *)

Section serve.
Context {Addr : Type} (fnmatch : string → string → bool)
  (inet_aton : string → result bytes) (resolver : nat → bytes → result bytes)
  (sendto : bytes → Addr → result ()) (clock : nat → Q) (depth : nat)
  (self : ServerManager.t).

Abbreviation start :=
  (ServerManager.start fnmatch inet_aton resolver sendto clock depth self).
Abbreviation start_turn :=
  (ServerManager.start_turn fnmatch inet_aton resolver sendto clock depth self).

(** Once the sockets are closed, every turn of the loop only logs one more
    error. *)
Lemma start_closed turns (srv : ServerManager.session Addr) inbox :
  ServerManager.closed srv = true →
  start turns srv inbox
  = (ServerManager.Session (ServerManager.cache srv) true
       (ServerManager.received srv) (ServerManager.sent srv)
       (ServerManager.errors srv + turns), inbox).
Proof.
  revert srv. induction turns as [|turns IH]; intros srv Hclosed.
  - destruct srv; simpl in *. subst. by rewrite Nat.add_0_r.
  - cbn [ServerManager.start]. unfold ServerManager.start_turn.
    rewrite Hclosed. rewrite IH by done.
    unfold ServerManager.on_exception. cbn. do 2 f_equal. lia.
Qed.
End serve.



(** * The order of the response *)

(** ** Inserting at recorded indices *)

Lemma list_insert_at_middle {A} (pre : list A) x rest :
  list_insert_at (length pre) x (pre ++ rest) = pre ++ x :: rest.
Proof.
  unfold list_insert_at. by rewrite take_app_length, drop_app_length.
Qed.

Lemma list_insert_at_end {A} i (x : A) l :
  (length l ≤ i)%nat → list_insert_at i x l = l ++ [x].
Proof.
  intros Hi. unfold list_insert_at. by rewrite take_ge, drop_ge by done.
Qed.

Lemma insert_all_cons {A} i (x : A) pairs l :
  insert_all ((i, x) :: pairs) l = insert_all pairs (list_insert_at i x l).
Proof. done. Qed.

Lemma indices_of_cons k k' i ks :
  indices_of k i (k' :: ks)
  = if decide (k' = k) then i :: indices_of k (S i) ks else indices_of k (S i) ks.
Proof. done. Qed.

Lemma length_indices_of k i j ks :
  length (indices_of k i ks) = length (indices_of k j ks).
Proof.
  revert i j. induction ks as [|k' ks IH]; intros i j; [done|].
  rewrite !indices_of_cons. case_decide; cbn [length]; by rewrite (IH (S i) (S j)).
Qed.

Lemma elem_of_indices_of k off ks i :
  i ∈ indices_of k off ks ↔ (off ≤ i)%nat ∧ ks !! (i - off)%nat = Some k.
Proof.
  revert off. induction ks as [|k' ks IH]; intros off.
  - cbn. rewrite elem_of_nil. split; [done|]. by intros [_ [=]].
  - rewrite indices_of_cons.
    assert (i ∈ indices_of k (S off) ks ↔
            (off < i)%nat ∧ (k' :: ks) !! (i - off)%nat = Some k) as Hrest.
    { rewrite IH. split; intros [Hle Hl]; (split; [lia|]).
      - replace (i - off)%nat with (S (i - S off)) by lia. done.
      - replace (i - off)%nat with (S (i - S off)) in Hl by lia. done. }
    case_decide as Hk.
    + subst k'. rewrite elem_of_cons, Hrest. split.
      * intros [->|[Hlt Hl]]; [|split; [lia|done]].
        split; [lia|]. by rewrite Nat.sub_diag.
      * intros [Hle Hl]. destruct (decide (i = off)) as [->|Hne]; [by left|].
        right. split; [lia|done].
    + rewrite Hrest. split; intros [Hle Hl]; (split; [|done]); [lia|].
      destruct (decide (i = off)) as [->|Hne]; [|lia].
      rewrite Nat.sub_diag in Hl. by injection Hl.
Qed.

Lemma lookup_indices_of k off ks j i :
  indices_of k off ks !! j = Some i →
  (off ≤ i)%nat ∧ ks !! (i - off)%nat = Some k.
Proof. intros Hj%list_elem_of_lookup_2. by apply elem_of_indices_of. Qed.

Lemma indices_of_absent k i ks : k ∉ ks → indices_of k i ks = [].
Proof.
  revert i. induction ks as [|k' ks IH]; intros i Hk; [done|].
  apply not_elem_of_cons in Hk as [Hne Hk].
  rewrite indices_of_cons, decide_False by done. by apply IH.
Qed.

Ltac kinds_simpl :=
  rewrite ?indices_of_cons in *;
  repeat first [rewrite decide_True in * by done
               |rewrite decide_False in * by done].

(** The first pass: the cached entries inserted at their indices into the
    list of the forwarded ones. *)
Lemma insert_cached {A} ks i (done xc xf : list A) bb :
  (length done ≤ i)%nat → (bb = false → i = length done) →
  order_kept_from bb ks = true →
  length xc = length (indices_of Cached i ks) →
  length xf = length (indices_of Forwarded i ks) →
  insert_all (zip (indices_of Cached i ks) xc) (done ++ xf)
  = done ++ interleave ks xc [] xf.
Proof.
  revert i done xc xf bb.
  induction ks as [|[] ks IH]; intros i done xc xf bb Hle Hbb Hok Hc Hf.
  - destruct xf; [|done]. by destruct xc.
  - kinds_simpl.
    destruct xc as [|x xc]; [done|]. injection Hc as Hc.
    cbn [order_kept_from] in Hok. apply andb_prop in Hok as [Hhere Hok].
    cbn [zip zip_with interleave]. rewrite insert_all_cons.
    assert (list_insert_at i x (done ++ xf) = (done ++ [x]) ++ xf) as ->.
    { destruct bb.
      - simpl in Hhere. apply bool_decide_eq_true in Hhere.
        rewrite (indices_of_absent _ _ _ Hhere) in Hf.
        destruct xf; [|done]. rewrite !app_nil_r.
        by apply list_insert_at_end.
      - rewrite (Hbb eq_refl), <- app_assoc. apply list_insert_at_middle. }
    rewrite (IH (S i) (done ++ [x]) xc xf bb); [by rewrite <- app_assoc|..|done|done|done].
    + rewrite length_app. simpl. lia.
    + intros ->%Hbb. rewrite length_app. simpl. lia.
  - kinds_simpl.
    cbn [order_kept_from] in Hok. cbn [interleave].
    apply (IH (S i) done xc xf true); [lia|done|done..].
  - kinds_simpl.
    destruct xf as [|x xf]; [done|]. injection Hf as Hf.
    cbn [order_kept_from] in Hok. cbn [interleave].
    rewrite (cons_middle x done xf), app_assoc.
    rewrite (IH (S i) (done ++ [x]) xc xf bb); [by rewrite <- app_assoc|..|done|done|done].
    + rewrite length_app. simpl. lia.
    + intros ->%Hbb. rewrite length_app. simpl. lia.
Qed.

(** The second pass: the blocked entries inserted at their indices into
    the list of the others. *)
Lemma insert_blocked {A} ks (pre xc xb xf : list A) :
  length xc = length (indices_of Cached 0 ks) →
  length xb = length (indices_of Blocked 0 ks) →
  length xf = length (indices_of Forwarded 0 ks) →
  insert_all (zip (indices_of Blocked (length pre) ks) xb)
    (pre ++ interleave ks xc [] xf)
  = pre ++ interleave ks xc xb xf.
Proof.
  revert pre xc xb xf.
  induction ks as [|[] ks IH]; intros pre xc xb xf Hc Hb Hf.
  - by destruct xb.
  - kinds_simpl.
    destruct xc as [|x xc]; [done|]. injection Hc as Hc.
    rewrite (length_indices_of Cached 1 0) in Hc.
    rewrite (length_indices_of Blocked 1 0) in Hb.
    rewrite (length_indices_of Forwarded 1 0) in Hf.
    cbn [interleave]. rewrite !(cons_middle x pre), !app_assoc.
    specialize (IH (pre ++ [x]) xc xb xf Hc Hb Hf).
    rewrite length_app in IH. simpl in IH.
    by rewrite Nat.add_1_r in IH.
  - kinds_simpl.
    destruct xb as [|x xb]; [done|]. injection Hb as Hb.
    rewrite (length_indices_of Cached 1 0) in Hc.
    rewrite (length_indices_of Blocked 1 0) in Hb.
    rewrite (length_indices_of Forwarded 1 0) in Hf.
    cbn [interleave zip zip_with]. rewrite insert_all_cons.
    rewrite list_insert_at_middle.
    rewrite !(cons_middle x pre), !app_assoc.
    specialize (IH (pre ++ [x]) xc xb xf Hc Hb Hf).
    rewrite length_app in IH. simpl in IH.
    by rewrite Nat.add_1_r in IH.
  - kinds_simpl.
    destruct xf as [|x xf]; [done|]. injection Hf as Hf.
    rewrite (length_indices_of Cached 1 0) in Hc.
    rewrite (length_indices_of Blocked 1 0) in Hb.
    rewrite (length_indices_of Forwarded 1 0) in Hf.
    cbn [interleave]. rewrite !(cons_middle x pre), !app_assoc.
    specialize (IH (pre ++ [x]) xc xb xf Hc Hb Hf).
    rewrite length_app in IH. simpl in IH.
    by rewrite Nat.add_1_r in IH.
Qed.

(** Both passes, when no cached entry lies between a blocked one before
    it and a forwarded one after it. *)
Lemma insert_both {A} ks (xc xb xf : list A) :
  order_kept_from false ks = true →
  length xc = length (indices_of Cached 0 ks) →
  length xb = length (indices_of Blocked 0 ks) →
  length xf = length (indices_of Forwarded 0 ks) →
  insert_all (zip (indices_of Blocked 0 ks) xb)
    (insert_all (zip (indices_of Cached 0 ks) xc) xf)
  = interleave ks xc xb xf.
Proof.
  intros Hok Hc Hb Hf.
  pose proof (insert_cached ks 0 [] xc xf false) as H1.
  cbn [app length] in H1. rewrite H1; [|done..].
  apply (insert_blocked ks [] xc xb xf); done.
Qed.

Lemma interleave_length {A} ks (xc xb xf : list A) :
  length xc = length (indices_of Cached 0 ks) →
  length xb = length (indices_of Blocked 0 ks) →
  length xf = length (indices_of Forwarded 0 ks) →
  length (interleave ks xc xb xf) = length ks.
Proof.
  revert xc xb xf. induction ks as [|[] ks IH]; intros xc xb xf Hc Hb Hf;
    [done|kinds_simpl..].
  - destruct xc as [|x xc]; [done|]. injection Hc as Hc.
    rewrite (length_indices_of Cached 1 0) in Hc.
    rewrite (length_indices_of Blocked 1 0) in Hb.
    rewrite (length_indices_of Forwarded 1 0) in Hf.
    cbn [interleave length]. by rewrite IH.
  - destruct xb as [|x xb]; [done|]. injection Hb as Hb.
    rewrite (length_indices_of Cached 1 0) in Hc.
    rewrite (length_indices_of Blocked 1 0) in Hb.
    rewrite (length_indices_of Forwarded 1 0) in Hf.
    cbn [interleave length]. by rewrite IH.
  - destruct xf as [|x xf]; [done|]. injection Hf as Hf.
    rewrite (length_indices_of Cached 1 0) in Hc.
    rewrite (length_indices_of Blocked 1 0) in Hb.
    rewrite (length_indices_of Forwarded 1 0) in Hf.
    cbn [interleave length]. by rewrite IH.
Qed.

(** The entry at the j-th index of a kind is the j-th element of the list
    of that kind. *)
Lemma interleave_lookup {A} ks off (xc xb xf : list A) :
  length xc = length (indices_of Cached off ks) →
  length xb = length (indices_of Blocked off ks) →
  length xf = length (indices_of Forwarded off ks) →
  (∀ j i, indices_of Cached off ks !! j = Some i →
          interleave ks xc xb xf !! (i - off)%nat = xc !! j) ∧
  (∀ j i, indices_of Blocked off ks !! j = Some i →
          interleave ks xc xb xf !! (i - off)%nat = xb !! j) ∧
  (∀ j i, indices_of Forwarded off ks !! j = Some i →
          interleave ks xc xb xf !! (i - off)%nat = xf !! j).
Proof.
  revert off xc xb xf.
  induction ks as [|[] ks IH]; intros off xc xb xf Hc Hb Hf;
    [by split_and!; intros j i [=]|kinds_simpl..].
  - destruct xc as [|x xc]; [done|]. injection Hc as Hc.
    destruct (IH (S off) xc xb xf Hc Hb Hf) as (IHc & IHb & IHf).
    cbn [interleave].
    split_and!; intros j i Hj.
    + destruct j as [|j]; [injection Hj as <-; by rewrite Nat.sub_diag|].
      cbn in Hj. pose proof (lookup_indices_of _ _ _ _ _ Hj) as [Hle _].
      replace (i - off)%nat with (S (i - S off)) by lia. by apply IHc.
    + pose proof (lookup_indices_of _ _ _ _ _ Hj) as [Hle _].
      replace (i - off)%nat with (S (i - S off)) by lia. by apply IHb.
    + pose proof (lookup_indices_of _ _ _ _ _ Hj) as [Hle _].
      replace (i - off)%nat with (S (i - S off)) by lia. by apply IHf.
  - destruct xb as [|x xb]; [done|]. injection Hb as Hb.
    destruct (IH (S off) xc xb xf Hc Hb Hf) as (IHc & IHb & IHf).
    cbn [interleave].
    split_and!; intros j i Hj.
    + pose proof (lookup_indices_of _ _ _ _ _ Hj) as [Hle _].
      replace (i - off)%nat with (S (i - S off)) by lia. by apply IHc.
    + destruct j as [|j]; [injection Hj as <-; by rewrite Nat.sub_diag|].
      cbn in Hj. pose proof (lookup_indices_of _ _ _ _ _ Hj) as [Hle _].
      replace (i - off)%nat with (S (i - S off)) by lia. by apply IHb.
    + pose proof (lookup_indices_of _ _ _ _ _ Hj) as [Hle _].
      replace (i - off)%nat with (S (i - S off)) by lia. by apply IHf.
  - destruct xf as [|x xf]; [done|]. injection Hf as Hf.
    destruct (IH (S off) xc xb xf Hc Hb Hf) as (IHc & IHb & IHf).
    cbn [interleave].
    split_and!; intros j i Hj.
    + pose proof (lookup_indices_of _ _ _ _ _ Hj) as [Hle _].
      replace (i - off)%nat with (S (i - S off)) by lia. by apply IHc.
    + pose proof (lookup_indices_of _ _ _ _ _ Hj) as [Hle _].
      replace (i - off)%nat with (S (i - S off)) by lia. by apply IHb.
    + destruct j as [|j]; [injection Hj as <-; by rewrite Nat.sub_diag|].
      cbn in Hj. pose proof (lookup_indices_of _ _ _ _ _ Hj) as [Hle _].
      replace (i - off)%nat with (S (i - S off)) by lia. by apply IHf.
Qed.

(** The elements found at the indices of a kind are the list of that
    kind. *)
Lemma at_indices_eq {A} (xs ys : list A) (idxs : list nat) (zs : list A) :
  length ys = length idxs →
  (∀ j i, idxs !! j = Some i → xs !! i = ys !! j) →
  Forall2 (λ i z, xs !! i = Some z) idxs zs →
  zs = ys.
Proof.
  intros Hlen Hat Hzs. apply list_eq. intros j.
  destruct (idxs !! j) as [i|] eqn:Hi.
  - destruct (Forall2_lookup_l _ _ _ _ _ Hzs Hi) as (z & Hz & Hxz).
    by rewrite Hz, <- (Hat j i Hi).
  - apply lookup_ge_None in Hi.
    rewrite (proj2 (lookup_ge_None ys j)) by lia.
    apply lookup_ge_None. apply Forall2_length in Hzs. lia.
Qed.

(** The condition on the indices, for the kinds. *)
Lemma order_kept_from_intro bb ks :
  (∀ c f, ks !! c = Some Cached → (c < f)%nat → ks !! f = Some Forwarded →
          bb = false ∧ ∀ b, (b < c)%nat → ks !! b ≠ Some Blocked) →
  order_kept_from bb ks = true.
Proof.
  revert bb. induction ks as [|[] ks IH]; intros bb H; [done|..];
    cbn [order_kept_from].
  - apply andb_true_intro. split.
    + destruct bb; [|done]. simpl. apply bool_decide_eq_true.
      intros (f & Hf)%list_elem_of_lookup_1.
      by destruct (H 0%nat (S f) eq_refl ltac:(lia) Hf) as [? _].
    + apply IH. intros c f Hc Hlt Hf.
      destruct (H (S c) (S f) Hc ltac:(lia) Hf) as [-> Hb]. split; [done|].
      intros b Hb'. apply (Hb (S b)). lia.
  - apply IH. intros c f Hc Hlt Hf.
    destruct (H (S c) (S f) Hc ltac:(lia) Hf) as [_ Hb].
    by destruct (Hb 0%nat ltac:(lia)).
  - apply IH. intros c f Hc Hlt Hf.
    destruct (H (S c) (S f) Hc ltac:(lia) Hf) as [-> Hb]. split; [done|].
    intros b Hb'. apply (Hb (S b)). lia.
Qed.

Lemma order_kept_of_indices ks :
  (∀ b c f, b ∈ indices_of Blocked 0 ks → c ∈ indices_of Cached 0 ks →
            (b < c < f)%nat → (f < length ks)%nat →
            f ∈ indices_of Blocked 0 ks ∨ f ∈ indices_of Cached 0 ks) →
  order_kept_from false ks = true.
Proof.
  intros H. apply order_kept_from_intro. intros c f Hc Hlt Hf. split; [done|].
  intros b Hb Hblocked.
  destruct (H b c f) as [Hin|Hin].
  - apply elem_of_indices_of. rewrite Nat.sub_0_r. split; [lia|done].
  - apply elem_of_indices_of. rewrite Nat.sub_0_r. split; [lia|done].
  - lia.
  - by apply lookup_lt_Some in Hf.
  - apply elem_of_indices_of in Hin as [_ Hin].
    rewrite Nat.sub_0_r in Hin. congruence.
  - apply elem_of_indices_of in Hin as [_ Hin].
    rewrite Nat.sub_0_r in Hin. congruence.
Qed.

(** ** The two passes of handle_dns_query *)

Lemma contains_data_sub clock key s r s' :
  TimedCache.contains clock key s = (r, s') →
  ∀ k x, data s' !! k = Some x → data s !! k = Some x.
Proof.
  intros Hc k x.
  destruct (contains_cases clock key s)
    as [[_ H]|[(v & e & _ & _ & H)|(v & e & _ & _ & H)]];
    rewrite H in Hc; injection Hc as _ <-; cbn [data]; [done| |done].
  rewrite lookup_delete_Some. by intros [_ ?].
Qed.

Lemma get_data_sub clock key s g s' :
  TimedCache.get clock key s = (Ok g, s') →
  (∀ v, g = Some v → ∃ e, data s !! key = Some (v, e)) ∧
  ∀ k x, data s' !! k = Some x → data s !! k = Some x.
Proof.
  rewrite TimedCache_get_unfold.
  destruct (data s !! key) as [[value expiry]|] eqn:E;
    [destruct (Qlt_le_dec expiry (clock (reads s)))|];
    intros [= <- <-]; cbn [data]; (split; [|try done]).
  - done.
  - intros k x. rewrite lookup_delete_Some. by intros [_ ?].
  - intros v [= <-]. eauto.
  - done.
Qed.

Section order.
Context (fnmatch : string → string → bool) (inet_aton : string → result bytes)
  (clock : nat → Q) (depth : nat) (self : ServerManager.t).

Abbreviation classify := (ServerManager.classify fnmatch clock self).
Abbreviation splice_cached := (ServerManager.splice_cached clock).
Abbreviation splice_blocked := (ServerManager.splice_blocked inet_aton self).
Abbreviation blocked_answer := (ServerManager.blocked_answer inet_aton self).

(** The first loop sorts every question into one of three kinds. *)
Lemma classify_kinds i questions nq bl ca s nq' bl' ca' s' :
  classify i questions nq bl ca s = (Ok (nq', bl', ca'), s') →
  ∃ ks xc xb xf,
    length ks = length questions ∧
    nq' = nq ++ xf ∧ bl' = bl ++ indices_of Blocked i ks ∧
    ca' = ca ++ indices_of Cached i ks ∧
    length xc = length (indices_of Cached i ks) ∧
    length xb = length (indices_of Blocked i ks) ∧
    length xf = length (indices_of Forwarded i ks) ∧
    interleave ks xc xb xf = questions ∧
    ∀ k x, data s' !! k = Some x → data s !! k = Some x.
Proof.
  revert i nq bl ca s.
  induction questions as [|q questions IH]; intros i nq bl ca s.
  - intros [= <- <- <- <-]. exists [], [], [], [].
    by rewrite !app_nil_r.
  - rewrite classify_cons.
    destruct (TimedCache.contains clock q s) as [[[]|e] s1] eqn:Hq; [| |done].
    + intros (ks & xc & xb & xf & Hlen & -> & -> & -> & Hc & Hb & Hf & Hq' & Hsub)%IH.
      exists (Cached :: ks), (q :: xc), xb, xf. kinds_simpl.
      cbn [length interleave]. rewrite <- !app_assoc, Hlen, Hc, Hq'.
      split_and!; try done.
      intros k x Hk. eapply contains_data_sub; [done|]. by apply Hsub.
    + destruct (existsb _ _).
      * intros (ks & xc & xb & xf & Hlen & -> & -> & -> & Hc & Hb & Hf & Hq' & Hsub)%IH.
        exists (Blocked :: ks), xc, (q :: xb), xf. kinds_simpl.
        cbn [length interleave]. rewrite <- !app_assoc, Hlen, Hb, Hq'.
        split_and!; try done.
        intros k x Hk. eapply contains_data_sub; [done|]. by apply Hsub.
      * intros (ks & xc & xb & xf & Hlen & -> & -> & -> & Hc & Hb & Hf & Hq' & Hsub)%IH.
        exists (Forwarded :: ks), xc, xb, (q :: xf). kinds_simpl.
        cbn [length interleave]. rewrite <- !app_assoc, Hlen, Hf, Hq'.
        split_and!; try done.
        intros k x Hk. eapply contains_data_sub; [done|]. by apply Hsub.
Qed.

(** The second loop inserts the cached questions, and what the cache now
    gives for them, at their indices. *)
Lemma splice_cached_inserts questions ca rq ra s rq' ra' s' :
  splice_cached questions ca rq ra s = (Ok (rq', ra'), s') →
  ∃ qs got,
    Forall2 (λ i q, questions !! i = Some q) ca qs ∧
    Forall2 (λ q g, ∀ v, g = Some v → ∃ e, data s !! q = Some (v, e)) qs got ∧
    rq' = insert_all (zip ca qs) rq ∧ ra' = insert_all (zip ca got) ra.
Proof.
  revert rq ra s. induction ca as [|idx ca IH]; intros rq ra s.
  - intros [= <- <- _]. by exists [], [].
  - rewrite splice_cached_cons.
    destruct (questions !! idx) as [q|] eqn:Hq; [|done].
    destruct (TimedCache.get clock q s) as [[g|e] s1] eqn:Hg; [|done].
    apply get_data_sub in Hg as [Hg Hsub].
    intros (qs & got & Hqs & Hgot & -> & ->)%IH.
    exists (q :: qs), (g :: got). split_and!; [by constructor| |done..].
    constructor; [done|].
    eapply Forall2_impl; [exact Hgot|].
    intros q' g' H v Hv. destruct (H v Hv) as [e He]. eauto.
Qed.

(** The third loop inserts the blocked questions and their made-up
    answers at their indices. *)
Lemma splice_blocked_inserts questions bl rq ra rq' ra' :
  splice_blocked questions bl rq ra = Ok (rq', ra') →
  ∃ qs fakes,
    Forall2 (λ i q, questions !! i = Some q) bl qs ∧
    Forall2 (λ q a, blocked_answer q = Ok a) qs fakes ∧
    rq' = insert_all (zip bl qs) rq ∧
    ra' = insert_all (zip bl (Some <$> fakes)) ra.
Proof.
  revert rq ra. induction bl as [|idx bl IH]; intros rq ra.
  - intros [= <- <-]. by exists [], [].
  - cbn [ServerManager.splice_blocked].
    intros (q & Hq & (a & Ha & (qs & fakes & Hqs & Hfakes & -> & ->)%IH
      )%result_bind_Ok_inv)%result_bind_Ok_inv.
    destruct (questions !! idx) as [q'|] eqn:Hq'; [|done].
    injection Hq as ->.
    exists (q :: qs), (a :: fakes). split_and!; by try constructor.
Qed.
End order.



(** ** A forwarded question *)


